(** * Atlas of Images: the numeric core of the backend

    A shallow embedding of [backend/umap_service.py], [backend/knn_service.py]
    and the endpoints of [backend/app.py] that drive them, with the
    properties of the written specification stated over it; then the two
    replies [backend/claude_service.py] parses, and the object keys and
    image identifiers of [backend/aws_lambda], with further properties of
    the code.

    Conventions of the embedding.
    - The arithmetic of numpy is read in three ways.  [UMAPService] and
      [KNNService] compute over the rationals ([Q], equality [Qeq]) without
      rounding: this reading fixes the shapes of the results, the branches
      taken, the exceptions raised and the order of the edge weights; what
      is said of the value of a number is said of the other two readings,
      or says that it holds without rounding.  [Binary64] computes
      [normalize_coords] and the edge weight with the floats of the machine
      (IEEE 754 binary64), and is used to replay the code on given arrays.
      [Rounded] computes them over the rationals with a rounding after
      every operation; what is proved of it holds for every rounding that
      meets [rounding], as rounding to nearest does.
    - A Python exception becomes the [Err] branch of [result].  [NonFinite]
      is not an exception: it marks a run of [Rounded] in which a result
      lies beyond the finite floats.
    - A two-dimensional array is the list of its rows; its second extent is
      carried explicitly where the code reads [shape[1]].
    - A Python [dict] is an association list in insertion order; assigning
      to an existing key replaces the value in place.
    - The FAISS flat index, the L2 normalisation of FAISS, the UMAP model,
      the CLIP model, the Bedrock client, the JSON parser and the file
      writes are collaborators outside the repository: they are parameters
      of the development, and a brute-force instance is given for the
      index.  The assertions the Python wrapper of FAISS makes before it
      calls the index are part of the embedding ([Faiss.search]). *)

From Stdlib Require Import Ascii String.
From Stdlib Require Import List Arith Bool Lia Sorted Permutation.
From Stdlib Require Import QArith Qminmax Lqa Qround Qabs.
From Stdlib Require Import PrimFloat FloatOps SpecFloat.
Import ListNotations.

Local Open Scope Q_scope.
Local Open Scope list_scope.

(** ** Exceptions and the error monad *)

Inductive error : Type :=
| ValueError (msg : string)
| IndexError
| ZeroDivision
| IOError
| HTTPException (status_code : nat) (detail : string)
| AssertionError
| NonFinite.

Inductive result (A : Type) : Type :=
| Ok (a : A)
| Err (e : error).

Arguments Ok {A} a.
Arguments Err {A} e.

Definition bind {A B : Type} (r : result A) (f : A -> result B) : result B :=
  match r with
  | Ok a => f a
  | Err e => Err e
  end.

Notation "x <- c1 ;; c2" := (bind c1 (fun x => c2))
  (at level 61, c1 at next level, right associativity).
Notation "' pat <- c1 ;; c2" := (bind c1 (fun x => match x with pat => c2 end))
  (at level 61, pat pattern, c1 at next level, right associativity).

Fixpoint mapM {A B : Type} (f : A -> result B) (l : list A) : result (list B) :=
  match l with
  | [] => Ok []
  | a :: l' => b <- f a ;; bs <- mapM f l' ;; Ok (b :: bs)
  end.

(** [str(e)] of an exception, as the handlers of [app.py] splice it into
    the detail of the HTTP error they raise. *)
Definition str_of_error (e : error) : string :=
  match e with
  | ValueError msg => msg
  | IndexError => "index out of range"
  | ZeroDivision => "division by zero"
  | IOError => "I/O error"
  | HTTPException _ detail => detail
  | AssertionError => EmptyString
  | NonFinite => "result is not finite"
  end.

(** The error kinds of the specification, as the code raises them. *)
Definition InsufficientData (detail : string) : error := HTTPException 400 detail.

(** ** Vectors and matrices over the rationals *)

Definition vec : Type := list Q.
Definition matrix : Type := list vec.

Fixpoint vmap2 (f : Q -> Q -> Q) (a b : vec) : vec :=
  match a, b with
  | x :: a', y :: b' => f x y :: vmap2 f a' b'
  | _, _ => []
  end.

Definition vadd : vec -> vec -> vec := vmap2 Qplus.
Definition vsub : vec -> vec -> vec := vmap2 Qminus.

(** [a.min(axis=0)] and [a.max(axis=0)]: numpy raises [ValueError] on an
    array with no rows. *)
Definition amin0 (a : matrix) : result vec :=
  match a with
  | [] => Err (ValueError "zero-size array to reduction operation minimum which has no identity")
  | r :: rs => Ok (fold_left (vmap2 Qmin) rs r)
  end.

Definition amax0 (a : matrix) : result vec :=
  match a with
  | [] => Err (ValueError "zero-size array to reduction operation maximum which has no identity")
  | r :: rs => Ok (fold_left (vmap2 Qmax) rs r)
  end.

(** [v.max()] of a one-dimensional array. *)
Definition amax (v : vec) : result Q :=
  match v with
  | [] => Err (ValueError "zero-size array to reduction operation maximum which has no identity")
  | x :: xs => Ok (fold_left Qmax xs x)
  end.

(** [a / s] for a scalar [s]: one divisor for the whole array. *)
Definition array_div (a : matrix) (s : Q) : result matrix :=
  if Qeq_bool s 0 then Err ZeroDivision
  else Ok (map (map (fun x => x / s)) a).

Definition array_mul (a : matrix) (s : Q) : matrix :=
  map (map (fun x => x * s)) a.

(** [0 < x] as the test of an [if]. *)
Definition Qlt_bool (x y : Q) : bool := negb (Qle_bool y x).

(** ** umap_service.py *)

Module UMAPService.

(** [get_bounds]: per-axis minimum and maximum. *)
Definition get_bounds (coords : matrix) : result (vec * vec) :=
  mn <- amin0 coords ;;
  mx <- amax0 coords ;;
  Ok (mn, mx).

(** [normalize_coords]: centre at the midpoint of the bounding box, then
    scale by the longest side; without rounding (see [Rounded] and
    [Binary64] for the values the floats give). *)
Definition normalize_coords (coords : matrix) (scale : Q) : result matrix :=
  '(min_vals, max_vals) <- get_bounds coords ;;
  let mid := map (fun x => x / 2) (vadd min_vals max_vals) in
  let centered := map (fun row => vsub row mid) coords in
  max_range <- amax (vsub max_vals min_vals) ;;
  if Qlt_bool 0 max_range then
    q <- array_div centered max_range ;;
    Ok (array_mul (array_mul q 2) scale)
  else
    Ok centered.

(** The mutable part of the service object: the configured neighbourhood
    size, the one currently set on the UMAP model, and [is_fitted]. *)
Record t : Type := mkUMAP {
  n_neighbors : Z;
  model_n_neighbors : Z;
  is_fitted : bool
}.

Section WithModel.

(** [self.model.fit_transform], given the model's [n_neighbors]. *)
Variable model_fit_transform : Z -> matrix -> result matrix.

(** [fit_transform(embeddings)]: an exception of the model leaves the
    adjusted [n_neighbors] behind and [is_fitted] as it was. *)
Definition fit_transform (self : t) (embeddings : matrix) : t * result matrix :=
  let shape0 := Z.of_nat (length embeddings) in
  let self1 :=
    if Z.ltb shape0 (n_neighbors self)
    then mkUMAP (n_neighbors self) (shape0 - 1)%Z (is_fitted self)
    else self in
  match model_fit_transform (model_n_neighbors self1) embeddings with
  | Ok coords =>
      (mkUMAP (n_neighbors self1) (model_n_neighbors self1) true, Ok coords)
  | Err e => (self1, Err e)
  end.

End WithModel.

Section WithFittedModel.

(** [self.model.transform], given the model's [n_neighbors]; [pickle.dump]
    of the model to a path, after the directory is made; [pickle.load] from
    a path, which returns the [n_neighbors] of the model it read. *)
Variable model_transform : Z -> matrix -> result matrix.
Variable dump_model : string -> Z -> result unit.
Variable load_model : string -> result Z.

(** [transform(embeddings)]. *)
Definition transform (self : t) (embeddings : matrix) : result matrix :=
  if negb (is_fitted self) then
    Err (ValueError "UMAP model must be fitted before transform()")
  else model_transform (model_n_neighbors self) embeddings.

(** [save(path)]. *)
Definition save (self : t) (path : string) : result unit :=
  if negb (is_fitted self) then
    Err (ValueError "Cannot save unfitted UMAP model")
  else dump_model path (model_n_neighbors self).

(** [load(path)]: the model is replaced and the service counts as fitted. *)
Definition load (self : t) (path : string) : t * result unit :=
  match load_model path with
  | Ok m => (mkUMAP (n_neighbors self) m true, Ok tt)
  | Err e => (self, Err e)
  end.

End WithFittedModel.

(** [__init__]: the model is created with the configured [n_neighbors]. *)
Definition init (n_neighbors : Z) : t := mkUMAP n_neighbors n_neighbors false.

End UMAPService.

(** ** Python containers *)

(** [d[key] = value] on an insertion-ordered [dict]. *)
Fixpoint dict_set {V : Type} (d : list (string * V)) (key : string) (value : V)
  : list (string * V) :=
  match d with
  | [] => [(key, value)]
  | (k0, v0) :: d' =>
      if String.eqb k0 key then (k0, value) :: d'
      else (k0, v0) :: dict_set d' key value
  end.

Fixpoint dict_get {V : Type} (d : list (string * V)) (key : string) : option V :=
  match d with
  | [] => None
  | (k0, v0) :: d' => if String.eqb k0 key then Some v0 else dict_get d' key
  end.

Definition dict_keys {V : Type} (d : list (string * V)) : list string := map fst d.

(** [enumerate(l)]. *)
Definition enumerate {A : Type} (l : list A) : list (nat * A) :=
  combine (seq 0 (length l)) l.

(** [l[i]] for an index that is not negative. *)
Definition getitem {A : Type} (l : list A) (i : nat) : result A :=
  match nth_error l i with
  | Some a => Ok a
  | None => Err IndexError
  end.

(** ** The FAISS flat index (external collaborator) *)

Module Faiss.

(** [IndexFlatIP(d)] has [inner_product = true], [IndexFlatL2(d)] has
    [inner_product = false]; [xb] is the stored matrix and [ntotal] its
    number of rows. *)
Record Index : Type := mkIndex {
  d : nat;
  inner_product : bool;
  xb : matrix
}.

Definition ntotal (ix : Index) : nat := length (xb ix).

(** [index.add(x)]. *)
Definition add (ix : Index) (x : matrix) : Index :=
  mkIndex (d ix) (inner_product ix) (xb ix ++ x).

(** The type of [index.search(queries, k)]: the matrix of distances and the
    matrix of positions, one row per query. *)
Definition search_fn : Type :=
  Index -> matrix -> nat -> list (list Q) * list (list nat).

(** The Python wrapper of [index.search(x, k)]: before it calls the index it
    asserts that the rows of [x] have the dimension of the index and that
    [k > 0]; [shape1] is [x.shape[1]]. *)
Definition search (index_search : search_fn) (ix : Index) (x : matrix)
           (shape1 : nat) (k : Z) : result (list (list Q) * list (list nat)) :=
  if negb (Nat.eqb shape1 (d ix)) then Err AssertionError
  else if negb (0 <? k)%Z then Err AssertionError
  else Ok (index_search ix x (Z.to_nat k)).

End Faiss.

(** ** knn_service.py

    [search] and [search_batch] take the neighbour count as an integer and
    go through the assertions of the FAISS wrapper.  In [build_knn_graph]
    the count [k] is a natural number: for a negative [k] the wrapper
    refuses the request for [k + 1] neighbours on an index that has rows,
    so such a [k] never reaches the loop. *)

Module KNNService.

Record neighbor : Type := mkNeighbor {
  target : string;
  weight : Q
}.

Definition graph : Type := list (string * list neighbor).

Record edge : Type := mkEdge {
  e_source : string;
  e_target : string;
  e_weight : Q
}.

(** The [output] dictionary of [save_graph]. *)
Record graph_document : Type := mkGraphDocument {
  doc_k : nat;
  num_nodes : nat;
  num_edges : nat;
  edges : list edge
}.

Record t : Type := mkKNN {
  embedding_dim : nat;
  metric : string;
  index : Faiss.Index;
  embeddings : option matrix;
  ids : list string
}.

Definition is_cosine (self : t) : bool := String.eqb (metric self) "cosine".

(** [__init__]. *)
Definition init (embedding_dim : nat) (metric : string) : t :=
  mkKNN embedding_dim metric
        (if String.eqb metric "cosine"
         then Faiss.mkIndex embedding_dim true []
         else Faiss.mkIndex embedding_dim false [])
        None [].

Section WithFaiss.

(** [faiss.normalize_L2] on one row, and [index.search]. *)
Variable normalize_L2 : vec -> vec.
Variable index_search : Faiss.search_fn.

(** [add_embeddings(embeddings, ids)]; [shape1] is [embeddings.shape[1]]. *)
Definition add_embeddings (self : t) (shape1 : nat) (embs : matrix)
           (new_ids : list string) : result t :=
  if negb (Nat.eqb shape1 (embedding_dim self)) then
    Err (ValueError "Embedding dimension mismatch")
  else
    let embs' := if is_cosine self then map normalize_L2 embs else embs in
    Ok (mkKNN (embedding_dim self) (metric self)
              (Faiss.add (index self) embs')
              (match embeddings self with
               | None => Some embs'
               | Some old => Some (old ++ embs')
               end)
              (ids self ++ new_ids)).

(** [search_batch(query_embeddings, k)]; [shape1] is
    [query_embeddings.shape[1]]. *)
Definition search_batch (self : t) (query_embeddings : matrix) (shape1 : nat)
           (k : Z) : result (list (list string) * list (list Q)) :=
  if Nat.eqb (Faiss.ntotal (index self)) 0 then
    Ok (map (fun _ => []) query_embeddings, map (fun _ => []) query_embeddings)
  else
    let queries :=
      if is_cosine self then map normalize_L2 query_embeddings
      else query_embeddings in
    let k := Z.min k (Z.of_nat (Faiss.ntotal (index self))) in
    '(distances, indices) <-
      Faiss.search index_search (index self) queries shape1 k ;;
    neighbor_ids_list <- mapM (mapM (getitem (ids self))) indices ;;
    Ok (neighbor_ids_list, distances).

(** [search(query_embedding, k)]: the query becomes a batch of one row
    ([reshape(1, -1)]) and row 0 of the answer is read back. *)
Definition search (self : t) (query_embedding : vec) (k : Z)
  : result (list string * list Q) :=
  if Nat.eqb (Faiss.ntotal (index self)) 0 then
    Ok ([], [])
  else
    let query := [query_embedding] in
    let query := if is_cosine self then map normalize_L2 query else query in
    let k := Z.min k (Z.of_nat (Faiss.ntotal (index self))) in
    '(distances, indices) <-
      Faiss.search index_search (index self) query (length query_embedding) k ;;
    row <- getitem indices 0 ;;
    neighbor_ids <- mapM (getitem (ids self)) row ;;
    neighbor_distances <- getitem distances 0 ;;
    Ok (neighbor_ids, neighbor_distances).

(** The edge weight of one search hit, without rounding (see
    [Rounded.weight_of] and [Binary64.weight_of]). *)
Definition weight_of (self : t) (distance : Q) : Q :=
  if is_cosine self then distance else 1 / (1 + distance).

(** The inner loop of [build_knn_graph]: the hits of one node, self
    skipped. *)
Definition neighbors_of (self : t) (node_id : string)
           (hits : list (string * Q)) : list neighbor :=
  map (fun '(neighbor_id, distance) =>
         mkNeighbor neighbor_id (weight_of self distance))
      (filter (fun '(neighbor_id, _) => negb (String.eqb neighbor_id node_id))
              hits).

(** The outer loop of [build_knn_graph]. *)
Fixpoint build_loop (self : t) (k : nat)
         (neighbor_ids_list : list (list string)) (distances_list : list (list Q))
         (nodes : list (nat * string)) (g : graph) : result graph :=
  match nodes with
  | [] => Ok g
  | (i, node_id) :: rest =>
      row_ids <- getitem neighbor_ids_list i ;;
      row_dist <- getitem distances_list i ;;
      let neighbors := neighbors_of self node_id (combine row_ids row_dist) in
      build_loop self k neighbor_ids_list distances_list rest
                 (dict_set g node_id (firstn k neighbors))
  end.

(** [build_knn_graph(k)].  The rows of [self.embeddings] were all accepted
    by [index.add], so the second dimension of that array is the dimension
    of the index. *)
Definition build_knn_graph (self : t) (k : nat) : result graph :=
  match embeddings self with
  | None => Ok []
  | Some embs =>
      if Nat.eqb (length (ids self)) 0 then Ok []
      else
        '(neighbor_ids_list, distances_list) <-
          search_batch self embs (Faiss.d (index self)) (Z.of_nat (k + 1)) ;;
        build_loop self k neighbor_ids_list distances_list
                   (enumerate (ids self)) []
  end.

End WithFaiss.

(** The edge list and the [output] dictionary of [save_graph]. *)
Definition edge_list (g : graph) : list edge :=
  flat_map (fun '(source, neighbors) =>
              map (fun nb => mkEdge source (target nb) (weight nb)) neighbors) g.

Definition save_graph_output (g : graph) : graph_document :=
  mkGraphDocument
    (match g with
     | [] => 0%nat
     | (_, neighbors) :: _ => length neighbors
     end)
    (length g)
    (length (edge_list g))
    (edge_list g).

End KNNService.

(** ** app.py: the shared state and the two endpoints *)

Module App.

(** One entry of [image_database]. *)
Record image_record : Type := mkImage {
  path : string;
  filename : string;
  embedding : vec;
  coords : option vec
}.

Definition set_coords (r : image_record) (c : vec) : image_record :=
  mkImage (path r) (filename r) (embedding r) (Some c).

(** The module-level globals. *)
Record state : Type := mkState {
  image_database : list (string * image_record);
  is_projection_fitted : bool;
  umap_service : UMAPService.t;
  knn_service : KNNService.t
}.

Record point : Type := mkPoint {
  p_id : string;
  p_x : Q;
  p_y : Q;
  p_z : Q
}.

(** The documents handed to [json.dump]. *)
Inductive document : Type :=
| CoordsDocument (projection : string) (points : list point)
| GraphDocument (doc : KNNService.graph_document).

Record project_response : Type := mkProjectResponse {
  pr_num_images : nat
}.

Record graph_response : Type := mkGraphResponse {
  gr_num_nodes : nat
}.

Section WithCollaborators.

Variable normalize_L2 : vec -> vec.
Variable index_search : Faiss.search_fn.
Variable model_fit_transform : Z -> matrix -> result matrix.
(** [open(path, 'w')] followed by [json.dump]. *)
Variable write_json : string -> document -> result unit.

(** [image_database[image_id]["coords"] = c]; the key is always one of
    the dictionary's own. *)
Fixpoint store_coords (db : list (string * image_record)) (image_id : string)
         (c : vec) : list (string * image_record) :=
  match db with
  | [] => []
  | (k0, r) :: db' =>
      if String.eqb k0 image_id then (k0, set_coords r c) :: db'
      else (k0, r) :: store_coords db' image_id c
  end.

(** The write-back loop of [project_to_3d]: it stops at the first row that
    is missing, with the rows before it already stored. *)
Fixpoint write_back (db : list (string * image_record))
         (coords_normalized : matrix) (nodes : list (nat * string))
  : list (string * image_record) * result unit :=
  match nodes with
  | [] => (db, Ok tt)
  | (i, image_id) :: rest =>
      match getitem coords_normalized i with
      | Ok row => write_back (store_coords db image_id row) coords_normalized rest
      | Err e => (db, Err e)
      end
  end.

(** One entry of the [points] list of the coordinate document. *)
Definition point_of (coords_normalized : matrix) (node : nat * string)
  : result point :=
  let '(i, img_id) := node in
  row <- getitem coords_normalized i ;;
  x <- getitem row 0 ;;
  y <- getitem row 1 ;;
  z <- getitem row 2 ;;
  Ok (mkPoint img_id x y z).

(** Turn an exception caught by [except Exception as e] into the HTTP
    error the handler raises. *)
Definition http500 {A : Type} (prefix : string) (r : result A) : result A :=
  match r with
  | Ok a => Ok a
  | Err e => Err (HTTPException 500 (prefix ++ str_of_error e))
  end.

(** [project_to_3d()]: the state after the call and its outcome. *)
Definition project_to_3d (st : state) : state * result project_response :=
  if Nat.ltb (length (image_database st)) 2 then
    (st, Err (InsufficientData "Need at least 2 images to project"))
  else
    let image_ids := dict_keys (image_database st) in
    let embeddings := map (fun kv => embedding (snd kv)) (image_database st) in
    let '(um, fitted) :=
      UMAPService.fit_transform model_fit_transform (umap_service st) embeddings in
    let st1 := mkState (image_database st) (is_projection_fitted st) um
                       (knn_service st) in
    match fitted with
    | Err e => (st1, http500 "Projection error: " (Err e))
    | Ok coords =>
        match UMAPService.normalize_coords coords 10 with
        | Err e => (st1, http500 "Projection error: " (Err e))
        | Ok coords_normalized =>
            let '(db, stored) :=
              write_back (image_database st) coords_normalized
                         (enumerate image_ids) in
            match stored with
            | Err e =>
                (mkState db (is_projection_fitted st) um (knn_service st),
                 http500 "Projection error: " (Err e))
            | Ok _ =>
                let st2 := mkState db true um (knn_service st) in
                (st2,
                 http500 "Projection error: "
                   (points <- mapM (point_of coords_normalized)
                                   (enumerate image_ids) ;;
                    _ <- write_json "coords.json"
                                    (CoordsDocument "umap-3d-cosine" points) ;;
                    Ok (mkProjectResponse (length image_ids))))
            end
        end
    end.

(** [KNNService.save_graph(graph, path)]. *)
Definition save_graph (g : KNNService.graph) (path : string) : result unit :=
  write_json path (GraphDocument (KNNService.save_graph_output g)).

(** [build_graph(k)]: it changes none of the globals. *)
Definition build_graph (st : state) (k : nat) : result graph_response :=
  if Nat.ltb (length (image_database st)) 2 then
    Err (InsufficientData "Need at least 2 images to build graph")
  else
    http500 "Graph building error: "
      (g <- KNNService.build_knn_graph normalize_L2 index_search
                                       (knn_service st) k ;;
       _ <- save_graph g "graph.json" ;;
       Ok (mkGraphResponse (length g))).

End WithCollaborators.

(** An uploaded file: its name and its bytes. *)
Record upload_file : Type := mkUpload {
  uf_filename : string;
  uf_contents : string
}.

Record embedding_response : Type := mkEmbeddingResponse {
  er_image_id : string;
  er_embedding_dim : nat;
  er_message : string
}.

(** One entry of the [results] of [embed_batch]; the error entry keeps the
    exception whose [str] is the message. *)
Inductive batch_entry : Type :=
| BatchSuccess (image_id : string)
| BatchError (filename : string) (e : error).

(** One entry of the [results] of the two search endpoints. *)
Record search_hit : Type := mkHit {
  h_image_id : string;
  h_similarity : Q;
  h_coords : option vec;
  h_filename : string
}.

(** One entry of [meta] in [export_data]; no code stores labels, so
    [data.get("metadata", {}).get("labels", [])] is the empty list. *)
Record meta_entry : Type := mkMeta {
  m_thumb : string;
  m_filename : string;
  m_coords : option vec;
  m_labels : list string
}.

Record export : Type := mkExport {
  ex_coords : option document;
  ex_graph : option document;
  ex_meta : list (string * meta_entry)
}.

Section WithImages.

Variable normalize_L2 : vec -> vec.
Variable index_search : Faiss.search_fn.
(** [IMAGES_DIR]; decoded images; [await file.read()] with [Image.open] and
    [convert("RGB")]; [image.save]; the three entries of the CLIP service
    the endpoints use. *)
Variable IMAGES_DIR : string.
Variable Image : Type.
Variable open_image : string -> result Image.
Variable save_image : Image -> string -> result unit.
Variable embed_image : Image -> result vec.
Variable embed_text : string -> result vec.
Variable embed_bytes : string -> result vec.
(** [json.dump] of the metadata; [path.exists()] with [json.load]. *)
Variable write_meta : string -> list (string * meta_entry) -> result unit.
Variable read_json : string -> option (result document).

(** [upload_image(file)], with the identifier [uuid.uuid4()] drew. *)
Definition upload_image (st : state) (image_id : string) (file : upload_file)
  : state * result embedding_response :=
  match (image <- open_image (uf_contents file) ;;
         let image_path := (IMAGES_DIR ++ "/" ++ image_id ++ ".jpg")%string in
         _ <- save_image image image_path ;;
         embedding <- embed_image image ;;
         Ok (image_path, embedding)) with
  | Err e => (st, http500 "Error processing image: " (Err e))
  | Ok (image_path, embedding) =>
      let db := dict_set (image_database st) image_id
                         (mkImage image_path (uf_filename file) embedding None) in
      match KNNService.add_embeddings normalize_L2 (knn_service st)
                                      (length embedding) [embedding] [image_id] with
      | Err e =>
          (mkState db (is_projection_fitted st) (umap_service st) (knn_service st),
           http500 "Error processing image: " (Err e))
      | Ok knn =>
          (mkState db (is_projection_fitted st) (umap_service st) knn,
           Ok (mkEmbeddingResponse image_id (length embedding)
                 ("Successfully uploaded and embedded " ++ uf_filename file)))
      end
  end.

(** [embed_batch(files)]: the state after the loop, [processed] and
    [results]. *)
Fixpoint embed_batch_loop (st : state) (files : list (string * upload_file))
  : state * list batch_entry :=
  match files with
  | [] => (st, [])
  | (image_id, file) :: rest =>
      let '(st1, outcome) := upload_image st image_id file in
      let entry := match outcome with
                   | Ok r => BatchSuccess (er_image_id r)
                   | Err e => BatchError (uf_filename file) e
                   end in
      let '(st2, entries) := embed_batch_loop st1 rest in
      (st2, entry :: entries)
  end.

Definition embed_batch (st : state) (files : list (string * upload_file))
  : state * (nat * list batch_entry) :=
  let '(st', results) := embed_batch_loop st files in
  (st', (length results, results)).

(** The loop that builds [results] in both search endpoints. *)
Definition search_results (db : list (string * image_record))
           (neighbor_ids : list string) (distances : list Q) : list search_hit :=
  flat_map (fun '(img_id, distance) =>
              match dict_get db img_id with
              | Some r => [mkHit img_id distance (coords r) (filename r)]
              | None => []
              end)
           (combine neighbor_ids distances).

(** [search_by_text(request)]. *)
Definition search_by_text (st : state) (query : string) (k : Z)
  : result (string * list search_hit) :=
  http500 "Search error: "
    (text_embedding <- embed_text query ;;
     '(neighbor_ids, distances) <-
        KNNService.search normalize_L2 index_search (knn_service st)
                          text_embedding k ;;
     Ok (query, search_results (image_database st) neighbor_ids distances)).

(** [search_by_image(file, k)]. *)
Definition search_by_image (st : state) (file : upload_file) (k : Z)
  : result (list search_hit) :=
  http500 "Image search error: "
    (query_embedding <- embed_bytes (uf_contents file) ;;
     '(neighbor_ids, distances) <-
        KNNService.search normalize_L2 index_search (knn_service st)
                          query_embedding k ;;
     Ok (search_results (image_database st) neighbor_ids distances)).

(** [export_data()]. *)
Definition export_data (st : state) : result export :=
  http500 "Export error: "
    (let meta :=
       map (fun '(img_id, data) =>
              (img_id, mkMeta ("/images/" ++ img_id ++ ".jpg")%string
                              (filename data) (coords data) []))
           (image_database st) in
     _ <- write_meta "meta.json" meta ;;
     coords_data <- match read_json "coords.json" with
                    | None => Ok None
                    | Some r => d <- r ;; Ok (Some d)
                    end ;;
     graph_data <- match read_json "graph.json" with
                   | None => Ok None
                   | Some r => d <- r ;; Ok (Some d)
                   end ;;
     Ok (mkExport coords_data graph_data meta)).

End WithImages.

End App.

(** ** The arithmetic of numpy in binary64

    The same functions over the floats of the machine (IEEE 754 binary64,
    rounding to nearest, ties to even), for arrays of dtype [float64].
    [np.minimum] and [np.maximum] hand on a NaN operand; a comparison with
    NaN is false; a division by zero gives an infinity or NaN and does not
    raise. *)

Module Binary64.

Definition fvec : Type := list float.
Definition fmatrix : Type := list fvec.

Fixpoint fmap2 (f : float -> float -> float) (a b : fvec) : fvec :=
  match a, b with
  | x :: a', y :: b' => f x y :: fmap2 f a' b'
  | _, _ => []
  end.

Definition fmin (x y : float) : float :=
  if PrimFloat.is_nan x then x
  else if PrimFloat.is_nan y then y
  else if PrimFloat.ltb y x then y else x.

Definition fmax (x y : float) : float :=
  if PrimFloat.is_nan x then x
  else if PrimFloat.is_nan y then y
  else if PrimFloat.ltb x y then y else x.

Definition amin0 (a : fmatrix) : result fvec :=
  match a with
  | [] => Err (ValueError "zero-size array to reduction operation minimum which has no identity")
  | r :: rs => Ok (fold_left (fmap2 fmin) rs r)
  end.

Definition amax0 (a : fmatrix) : result fvec :=
  match a with
  | [] => Err (ValueError "zero-size array to reduction operation maximum which has no identity")
  | r :: rs => Ok (fold_left (fmap2 fmax) rs r)
  end.

Definition amax (v : fvec) : result float :=
  match v with
  | [] => Err (ValueError "zero-size array to reduction operation maximum which has no identity")
  | x :: xs => Ok (fold_left fmax xs x)
  end.

(** [get_bounds]. *)
Definition get_bounds (coords : fmatrix) : result (fvec * fvec) :=
  mn <- amin0 coords ;;
  mx <- amax0 coords ;;
  Ok (mn, mx).

(** [normalize_coords]. *)
Definition normalize_coords (coords : fmatrix) (scale : float) : result fmatrix :=
  '(min_vals, max_vals) <- get_bounds coords ;;
  let mid := map (fun x => PrimFloat.div x 2%float)
                 (fmap2 PrimFloat.add min_vals max_vals) in
  let centered := map (fun row => fmap2 PrimFloat.sub row mid) coords in
  max_range <- amax (fmap2 PrimFloat.sub max_vals min_vals) ;;
  if PrimFloat.ltb 0%float max_range then
    Ok (map (map (fun x =>
                    PrimFloat.mul
                      (PrimFloat.mul (PrimFloat.div x max_range) 2%float)
                      scale))
            centered)
  else
    Ok centered.

(** The edge weight of one search hit in [build_knn_graph]:
    [float(distance)] under the cosine metric, [1.0 / (1.0 + float(distance))]
    otherwise. *)
Definition weight_of (cosine : bool) (distance : float) : float :=
  if cosine then distance
  else PrimFloat.div 1%float (PrimFloat.add 1%float distance).


End Binary64.

(** ** The arithmetic of numpy, for any rounding

    Every arithmetic operation of numpy returns the float nearest to the
    exact result.  Here the floats are the rationals [fl] returns:
    [fl x] is the float that [x] is rounded to, and [None] when [x] lies
    beyond the finite floats.  The code goes on with an infinity then, and
    later with NaN; the model stops with the error [NonFinite] and says
    nothing about such a run.  Minimum, maximum and comparisons do not
    round. *)

Module Rounded.

Section WithRounding.

Variable fl : Q -> option Q.

Definition round (x : Q) : result Q :=
  match fl x with
  | Some r => Ok r
  | None => Err NonFinite
  end.

Fixpoint vmapM2 (f : Q -> Q -> result Q) (a b : vec) : result vec :=
  match a, b with
  | x :: a', y :: b' => r <- f x y ;; rs <- vmapM2 f a' b' ;; Ok (r :: rs)
  | _, _ => Ok []
  end.

(** [normalize_coords], operation by operation. *)
Definition normalize_coords (coords : matrix) (scale : Q) : result matrix :=
  '(min_vals, max_vals) <- UMAPService.get_bounds coords ;;
  sums <- vmapM2 (fun a b => round (a + b)) min_vals max_vals ;;
  mid <- mapM (fun x => round (x / 2)) sums ;;
  centered <- mapM (fun row => vmapM2 (fun x m => round (x - m)) row mid)
                   coords ;;
  widths <- vmapM2 (fun a b => round (a - b)) max_vals min_vals ;;
  max_range <- amax widths ;;
  if Qlt_bool 0 max_range then
    q <- mapM (mapM (fun x => round (x / max_range))) centered ;;
    d <- mapM (mapM (fun x => round (x * 2))) q ;;
    mapM (mapM (fun x => round (x * scale))) d
  else
    Ok centered.

(** The edge weight of one search hit in [build_knn_graph]; the division
    is one of Python floats and raises on a zero divisor. *)
Definition weight_of (cosine : bool) (distance : Q) : result Q :=
  if cosine then Ok distance
  else
    s <- round (1 + distance) ;;
    if Qeq_bool s 0 then Err ZeroDivision else round (1 / s).

End WithRounding.

(** Arithmetic without rounding. *)
Definition exact (x : Q) : option Q := Some x.


End Rounded.

(** ** A brute-force instance of the flat index

    [IndexFlatIP] and [IndexFlatL2] compare the query with every stored row
    and return the [k] best in best-first order: largest inner product
    first, or smallest squared distance first. *)

Module FlatIndex.

Fixpoint dot (a b : vec) : Q :=
  match a, b with
  | x :: a', y :: b' => x * y + dot a' b'
  | _, _ => 0
  end.

Definition l2sqr (a b : vec) : Q := dot (vsub a b) (vsub a b).

Definition score (ix : Faiss.Index) (q x : vec) : Q :=
  if Faiss.inner_product ix then dot q x else l2sqr q x.

(** [better ip s1 s2]: a hit of score [s1] may stand before one of [s2]. *)
Definition better (ip : bool) (s1 s2 : Q) : bool :=
  if ip then Qle_bool s2 s1 else Qle_bool s1 s2.

(** The order the ranking establishes between the scores of two hits. *)
Definition before (ip : bool) (s1 s2 : Q) : Prop :=
  if ip then s2 <= s1 else s1 <= s2.

Fixpoint insert (ip : bool) (h : Q * nat) (l : list (Q * nat)) : list (Q * nat) :=
  match l with
  | [] => [h]
  | h' :: l' =>
      if better ip (fst h) (fst h') then h :: h' :: l'
      else h' :: insert ip h l'
  end.

Definition rank (ip : bool) (hits : list (Q * nat)) : list (Q * nat) :=
  fold_right (insert ip) [] hits.

Definition hits_of (ix : Faiss.Index) (q : vec) : list (Q * nat) :=
  combine (map (score ix q) (Faiss.xb ix)) (seq 0 (Faiss.ntotal ix)).

Definition search1 (ix : Faiss.Index) (k : nat) (q : vec) : list (Q * nat) :=
  firstn k (rank (Faiss.inner_product ix) (hits_of ix q)).

Definition search : Faiss.search_fn :=
  fun ix queries k =>
    (map (fun q => map fst (search1 ix k q)) queries,
     map (fun q => map snd (search1 ix k q)) queries).

End FlatIndex.

(** ** aws_lambda: object keys and image identifiers *)

(** [s.split(sep)] for a separator of one character: the pieces of [s]
    between the occurrences of [sep]; never an empty list. *)
Fixpoint split (sep : ascii) (s : string) : list string :=
  match s with
  | EmptyString => [EmptyString]
  | String c rest =>
      if Ascii.eqb c sep then EmptyString :: split sep rest
      else match split sep rest with
           | [] => [String c EmptyString]
           | piece :: pieces => String c piece :: pieces
           end
  end.

(** [l[-1]]: the last element; [IndexError] on an empty list. *)
Definition getitem_last {A : Type} (l : list A) : result A :=
  match l with
  | [] => Err IndexError
  | a :: _ => Ok (last l a)
  end.

Module UploadHandler.

(** The key under which [lambda_handler] stores an upload and which it
    hands to the embedding function:
    [s3_key = f'images/{timestamp}_{filename}']. *)
Definition s3_key (timestamp filename : string) : string :=
  ("images/" ++ timestamp ++ "_" ++ filename)%string.

End UploadHandler.

Module EmbeddingProcessor.

(** The identifier [lambda_handler] stores an embedding under:
    [image_id = key.split('/')[-1].split('.')[0]]. *)
Definition image_id (key : string) : result string :=
  name <- getitem_last (split "/" key) ;;
  getitem (split "." name) 0.

End EmbeddingProcessor.

(** ** claude_service.py: labels and search cues from Claude

    The Bedrock client, [json.loads], [json.dumps] and the formatting of a
    float with two decimals are collaborators outside the repository. *)

(** JSON values, as [json.loads] returns them and as the fallbacks of the
    service build them. *)
#[local] Unset Elimination Schemes.
Inductive json : Type :=
| JNull
| JBool (b : bool)
| JNumber (x : Q)
| JString (s : string)
| JArray (items : list json)
| JObject (members : list (string * json)).
#[local] Set Elimination Schemes.

(** [s.find(c)] for a character [c]: the lowest index of [c] in [s], or
    [-1]. *)
Fixpoint find (c : ascii) (s : string) : Z :=
  match s with
  | EmptyString => (-1)%Z
  | String c' rest =>
      if Ascii.eqb c' c then 0%Z
      else let i := find c rest in
           if (i <? 0)%Z then (-1)%Z else (i + 1)%Z
  end.

(** [s.rfind(c)]: the highest index of [c] in [s], or [-1]. *)
Fixpoint rfind (c : ascii) (s : string) : Z :=
  match s with
  | EmptyString => (-1)%Z
  | String c' rest =>
      let i := rfind c rest in
      if (0 <=? i)%Z then (i + 1)%Z
      else if Ascii.eqb c' c then 0%Z else (-1)%Z
  end.

(** [s[start:stop]]: a negative bound counts from the end, and both bounds
    are clipped to the string. *)
Definition slice (s : string) (start stop : Z) : string :=
  let n := Z.of_nat (String.length s) in
  let clip := fun i => if (i <? 0)%Z then Z.max (i + n) 0 else Z.min i n in
  substring (Z.to_nat (clip start)) (Z.to_nat (clip stop - clip start)) s.

(** The line feed and the double quote of the prompts. *)
Definition newline : string := String (ascii_of_nat 10) EmptyString.
Definition quote : string := String (ascii_of_nat 34) EmptyString.

Module ClaudeService.

(** [bedrock_runtime] tells whether [__init__] obtained a client; it is
    [None] in the source otherwise. *)
Record t : Type := mkClaude {
  model_id : string;
  region : string;
  bedrock_runtime : bool
}.

Record request_body : Type := mkRequest {
  anthropic_version : string;
  max_tokens : Z;
  temperature : Q;
  system : string;
  user_text : string
}.

Record detected_object : Type := mkObject {
  name : string;
  confidence : Q
}.

Section WithBedrock.

(** [invoke_model] with the reading of [response_body['content'][0]['text']]:
    [None] when any of it raises. *)
Variable invoke_model : string -> request_body -> option string.
(** [json.loads]: [None] stands for [JSONDecodeError]. *)
Variable json_loads : string -> option json.
Variable json_dumps : json -> string.
(** [f"{x:.2f}"]. *)
Variable format_2f : Q -> string.

Definition _invoke_claude (self : t) (system_prompt user_prompt : string)
           (max_tokens : Z) (temperature : Q) : option string :=
  if negb (bedrock_runtime self) then None
  else
    let request_body :=
      mkRequest "bedrock-2023-05-31" max_tokens temperature
                system_prompt user_prompt in
    invoke_model (model_id self) request_body.

Definition name_cluster (self : t) (top_objects : list detected_object)
           (color_profile : option string)
           (sample_captions : option (list string)) : json :=
  let system_prompt :=
    "You are labeling visual clusters in an image embedding space. Be concise and descriptive."%string in
  let user_prompt := "Top objects: "%string in
  let user_prompt :=
    (user_prompt ++
     String.concat ", "
       (map (fun obj => name obj ++ "(" ++ format_2f (confidence obj) ++ ")")
            top_objects))%string in
  let user_prompt :=
    match color_profile with
    | Some (String _ _ as color_profile) =>
        (user_prompt ++ newline ++ "Color profile: " ++ color_profile)%string
    | _ => user_prompt
    end in
  let user_prompt :=
    match sample_captions with
    | Some (_ :: _ as sample_captions) =>
        (user_prompt ++ newline ++ "Sample captions: " ++
         json_dumps (JArray (map JString (firstn 3 sample_captions))))%string
    | _ => user_prompt
    end in
  let user_prompt :=
    (user_prompt ++ newline ++ newline ++
     "Return JSON with: {" ++ quote ++ "title" ++ quote ++ ": " ++ quote ++
     "<max 6 words>" ++ quote ++ ", " ++ quote ++ "description" ++ quote ++
     ": " ++ quote ++ "<one sentence>" ++ quote ++ "}")%string in
  let response := _invoke_claude self system_prompt user_prompt 200 (7 # 10) in
  let fallback :=
    let top_obj_names := String.concat ", " (map name (firstn 3 top_objects)) in
    JObject [("title"%string, JString ("Cluster: " ++ top_obj_names)%string);
             ("description"%string,
              JString ("Images featuring " ++ top_obj_names ++ ".")%string)] in
  match response with
  | Some (String _ _ as response) =>
      let start := find "{" response in
      let end_ := (rfind "}" response + 1)%Z in
      if (0 <=? start)%Z && (start <? end_)%Z then
        match json_loads (slice response start end_) with
        | Some result => result
        | None => fallback
        end
      else fallback
  | _ => fallback
  end.

Definition process_nl_query (self : t) (query : string) : json :=
  let system_prompt :=
    "You extract visual search cues from natural language queries."%string in
  let user_prompt :=
    ("Query: " ++ quote ++ query ++ quote ++ newline ++ newline)%string in
  let user_prompt :=
    (user_prompt ++
     "Extract: {" ++ quote ++ "objects" ++ quote ++ ": [list of objects], " ++
     quote ++ "colors" ++ quote ++ ": [list of colors/lighting], " ++
     quote ++ "context" ++ quote ++ ": " ++ quote ++
     "brief scene description" ++ quote ++ "}")%string in
  let response := _invoke_claude self system_prompt user_prompt 200 (1 # 2) in
  let fallback :=
    JObject [("objects"%string, JArray []);
             ("colors"%string, JArray []);
             ("context"%string, JString query)] in
  match response with
  | Some (String _ _ as response) =>
      let start := find "{" response in
      let end_ := (rfind "}" response + 1)%Z in
      if (0 <=? start)%Z && (start <? end_)%Z then
        match json_loads (slice response start end_) with
        | Some result => result
        | None => fallback
        end
      else fallback
  | _ => fallback
  end.

End WithBedrock.

End ClaudeService.

(** ** Sample states *)

Module Samples.

(** L2 normalisation on rows that already have unit length. *)
Definition unit_normalize : vec -> vec := fun v => v.

Definition add (self : KNNService.t) (row : vec) (id : string) : KNNService.t :=
  match KNNService.add_embeddings unit_normalize self 2 [row] [id] with
  | Ok s => s
  | Err _ => self
  end.

Definition euclid0 : KNNService.t := KNNService.init 2 "euclidean".
Definition euclid1 : KNNService.t := add euclid0 [0; 0] "a".
Definition euclid2 : KNNService.t := add euclid1 [3; 0] "b".
Definition euclid3 : KNNService.t := add euclid2 [0; 1] "c".

Definition cosine0 : KNNService.t := KNNService.init 2 "cosine".
Definition cosine3 : KNNService.t :=
  add (add (add cosine0 [1; 0] "a") [0; 1] "b") [3 # 5; 4 # 5] "c".

Definition build (self : KNNService.t) (k : nat) : result KNNService.graph :=
  KNNService.build_knn_graph unit_normalize FlatIndex.search self k.

(** Three rows on a line, the first two added under the same identifier. *)
Definition repeated_ids : KNNService.t :=
  add (add (add euclid0 [0; 0] "a") [1; 0] "a") [3; 0] "b".

(** One row added with two identifiers. *)
Definition surplus_ids : KNNService.t :=
  match KNNService.add_embeddings unit_normalize euclid0 2 [[0; 0]]
                                  ["a"%string; "b"%string] with
  | Ok s => s
  | Err _ => euclid0
  end.

(** Collaborators: a projector that pads every vector with a zero third
    coordinate, one that is down; a disk that takes every document, one
    that is full. *)
Definition projector_pad : Z -> matrix -> result matrix :=
  fun _ embs => Ok (map (fun v => v ++ [0]) embs).
(** A projector configured for two components ([UMAP_N_COMPONENTS=2]). *)
Definition projector_flat : Z -> matrix -> result matrix :=
  fun _ embs => Ok embs.
Definition projector_down : Z -> matrix -> result matrix :=
  fun _ _ => Err (ValueError "projection failed").
Definition disk_ok : string -> App.document -> result unit :=
  fun _ _ => Ok tt.
Definition disk_full : string -> App.document -> result unit :=
  fun _ _ => Err IOError.

Definition umap0 : UMAPService.t := UMAPService.mkUMAP 15 15 false.

(** A disk that takes the metadata and holds no document yet. *)
Definition meta_ok : string -> list (string * App.meta_entry) -> result unit :=
  fun _ _ => Ok tt.
Definition no_files : string -> option (result App.document) :=
  fun _ => None.

(** Stand-ins for the image library and the CLIP model in examples: an
    image is its bytes, empty bytes are not an image, and the bytes [wide]
    are embedded in three dimensions, all others in two. *)
Definition sample_open (contents : string) : result string :=
  if String.eqb contents EmptyString
  then Err (ValueError "cannot identify image file") else Ok contents.
Definition sample_save (img path : string) : result unit := Ok tt.
Definition sample_embed (img : string) : result vec :=
  if String.eqb img "wide" then Ok [1; 0; 0] else Ok [0; 1].

(** The text model: the empty query is refused. *)
Definition sample_text (query : string) : result vec :=
  if String.eqb query EmptyString then Err (ValueError "empty query")
  else Ok [0; 0].
Definition sample_bytes (contents : string) : result vec := Ok [3; 0].

Definition batch_files : list (string * App.upload_file) :=
  [("c"%string, App.mkUpload "c.jpg" "bytes");
   ("d"%string, App.mkUpload "d.jpg" EmptyString);
   ("e"%string, App.mkUpload "e.jpg" "more")].

Definition upload (st : App.state) (image_id : string) (file : App.upload_file)
  : App.state * result App.embedding_response :=
  App.upload_image unit_normalize "data/images" string
                   sample_open sample_save sample_embed st image_id file.

Definition image (name : string) (v : vec) : App.image_record :=
  App.mkImage name name v None.

Definition app1 : App.state :=
  App.mkState [("a"%string, image "a.jpg" [0; 0])] false umap0 euclid1.

Definition app2 : App.state :=
  App.mkState [("a"%string, image "a.jpg" [0; 0]);
               ("b"%string, image "b.jpg" [3; 0])] false umap0 euclid2.

(** A Claude service with a client, a model that gives one reply to every
    request, and a parser that knows one object. *)
Definition claude : ClaudeService.t :=
  ClaudeService.mkClaude "anthropic.claude-3-sonnet-20240229-v1:0" "us-east-1" true.

Definition reply : string := "Here you are: {cues} I hope this helps".

Definition bedrock (model_id : string) (request : ClaudeService.request_body)
  : option string := Some reply.

Definition parse (text : string) : option json :=
  if String.eqb text "{cues}" then Some (JObject [("context"%string, JString "desk")])
  else None.

Definition dumps (j : json) : string := "[]".
Definition two_decimals (x : Q) : string := "0.80".

(** Batches of dtype [float64]: two adjacent floats; 0.1 and 0.2; the
    same point of magnitude 1e308 twice; three points on a line; 0 and 1.
    The decimal literals stand for the nearest floats, as in Python. *)
#[local] Set Warnings "-inexact-float".
Definition adjacent_floats : Binary64.fmatrix :=
  [[1%float]; [0x1.0000000000001p+0%float]].
Definition tenths : Binary64.fmatrix := [[0.1%float]; [0.2%float]].
#[local] Set Warnings "+inexact-float".

End Samples.

(** ** Shapes and entries (used to state the properties) *)

(** All rows of [a] have [n] entries. *)
Definition rect (n : nat) (a : matrix) : Prop :=
  Forall (fun r => length r = n) a.

(** Column [j] of [a]. *)
Definition col (j : nat) (a : matrix) : list Q :=
  map (fun r => nth j r 0) a.

(** The midpoint of the bounding box, [(min_vals + max_vals) / 2]. *)
Definition midpoint (mn mx : vec) : vec := map (fun x => x / 2) (vadd mn mx).

(** Row-wise equality of matrices up to the value of the numbers. *)
Definition mat_eq (a b : matrix) : Prop := Forall2 (Forall2 Qeq) a b.

(** The affine map [x |-> c * (x - t)] applied to one point. *)
Definition affine (c : Q) (t : vec) (p : vec) : vec :=
  vmap2 (fun x tj => c * (x - tj)) p t.

(** Squared Euclidean distance of two points. *)
Definition dist2 (p q : vec) : Q := FlatIndex.l2sqr p q.

(** ** The state invariant of the index and the contract of the search *)

(** Every stored row has its identifier: the stacked matrix, the index and
    the identifier list have the same number of entries. *)
Definition synced (self : KNNService.t) : Prop :=
  exists embs,
    KNNService.embeddings self = Some embs /\
    length embs = length (KNNService.ids self) /\
    Faiss.ntotal (KNNService.index self) = length (KNNService.ids self).

(** The index was created by [__init__] for the metric of the service. *)
Definition index_matches_metric (self : KNNService.t) : Prop :=
  Faiss.inner_product (KNNService.index self) = KNNService.is_cosine self.

(** An answer of [index.search] for [nq] queries and [k] neighbours on an
    index of [ntotal] rows: one row of [k] distances and [k] distinct
    positions per query. *)
Definition answer_ok (ntotal nq k : nat) (ans : list (list Q) * list (list nat))
  : Prop :=
  length (fst ans) = nq /\ length (snd ans) = nq /\
  Forall (fun row => length row = k) (fst ans) /\
  Forall (fun row => length row = k /\ NoDup row /\
                     Forall (fun idx => (idx < ntotal)%nat) row) (snd ans).

(** A flat index answers every request for at most [ntotal] neighbours
    completely. *)
Definition exact_search (search : Faiss.search_fn) : Prop :=
  forall ix queries k,
    (k <= Faiss.ntotal ix)%nat ->
    answer_ok (Faiss.ntotal ix) (length queries) k (search ix queries k).

(** Best first: inner products descend; squared distances, which are not
    negative, ascend. *)
Definition best_first (ip : bool) (row : list Q) : Prop :=
  if ip then StronglySorted (fun a b => b <= a) row
  else StronglySorted Qle row /\ Forall (fun dist => 0 <= dist) row.

Definition ranked_search (search : Faiss.search_fn) : Prop :=
  forall ix queries k,
    Forall (best_first (Faiss.inner_product ix)) (fst (search ix queries k)).

(** The weights of an adjacency list do not increase along the list. *)
Definition weights_descend (nbrs : list KNNService.neighbor) : Prop :=
  StronglySorted (fun a b => KNNService.weight b <= KNNService.weight a) nbrs.

(** The adjacency list the loop of [build_knn_graph] stores for node [i]. *)
Definition adjacency (self : KNNService.t) (k : nat)
           (nl : list (list string)) (dl : list (list Q))
           (i : nat) (node_id : string) : list KNNService.neighbor :=
  firstn k (KNNService.neighbors_of self node_id
                                    (combine (nth i nl []) (nth i dl []))).

(** The identifier at a position of the index. *)
Definition id_at (self : KNNService.t) (idx : nat) : string :=
  nth idx (KNNService.ids self) EmptyString.

(** ** Bounds of a batch *)

(** [mn] and [mx] are the per-axis minimum and maximum of the batch [a] of
    [n]-dimensional points: bounds of every point that some point attains. *)
Definition is_bounds (n : nat) (a : matrix) (mn mx : vec) : Prop :=
  length mn = n /\ length mx = n /\
  forall j, (j < n)%nat ->
    (forall r, In r a -> nth j mn 0 <= nth j r 0 /\ nth j r 0 <= nth j mx 0) /\
    (exists r, In r a /\ nth j mn 0 == nth j r 0) /\
    (exists r, In r a /\ nth j mx 0 == nth j r 0).

(** ** Sequences of calls *)

(** A call of one of the methods of [UMAPService] that touch its state. *)
Inductive umap_call : Type :=
| CallFitTransform (embeddings : matrix)
| CallTransform (embeddings : matrix)
| CallSave (path : string)
| CallLoad (path : string).

(** The service after one call, whatever the call returned or raised. *)
Definition umap_step (model_fit_transform : Z -> matrix -> result matrix)
           (load_model : string -> result Z)
           (self : UMAPService.t) (c : umap_call) : UMAPService.t :=
  match c with
  | CallFitTransform embs =>
      fst (UMAPService.fit_transform model_fit_transform self embs)
  | CallTransform _ => self
  | CallSave _ => self
  | CallLoad path => fst (UMAPService.load load_model self path)
  end.

Definition umap_run (model_fit_transform : Z -> matrix -> result matrix)
           (load_model : string -> result Z)
           (self : UMAPService.t) (calls : list umap_call) : UMAPService.t :=
  fold_left (umap_step model_fit_transform load_model) calls self.

(** The arguments of one call of [add_embeddings]: the batch, its width
    [shape[1]] and its identifiers. *)
Record batch : Type := mkBatch {
  b_shape1 : nat;
  b_rows : matrix;
  b_ids : list string
}.

(** [add_embeddings] called for every batch in turn, stopping at the first
    call that raises. *)
Fixpoint add_all (normalize_L2 : vec -> vec) (self : KNNService.t)
         (batches : list batch) : result KNNService.t :=
  match batches with
  | [] => Ok self
  | b :: rest =>
      s <- KNNService.add_embeddings normalize_L2 self
                                     (b_shape1 b) (b_rows b) (b_ids b) ;;
      add_all normalize_L2 s rest
  end.

(** What the search endpoints promise about their results for [k]
    neighbours: at most [min(k, ntotal)] of them, each an identifier of the
    index that is a key of the database, shown with the coordinates and the
    file name stored for it; and exactly [min(k, ntotal)] when the database
    knows every identifier of the index. *)
Definition stored_hits (st : App.state) (k : nat) (hits : list App.search_hit)
  : Prop :=
  (length hits <= Nat.min k (length (KNNService.ids (App.knn_service st))))%nat /\
  Forall (fun h =>
            In (App.h_image_id h) (KNNService.ids (App.knn_service st)) /\
            exists r, dict_get (App.image_database st) (App.h_image_id h)
                      = Some r /\
                      App.h_coords h = App.coords r /\
                      App.h_filename h = App.filename r) hits /\
  (incl (KNNService.ids (App.knn_service st))
        (dict_keys (App.image_database st)) ->
   length hits = Nat.min k (length (KNNService.ids (App.knn_service st)))).

(** What a projection leaves alone in a record: everything but the
    coordinates. *)
Definition identity_of (entry : string * App.image_record)
  : string * (string * string * vec) :=
  (fst entry,
   (App.path (snd entry), App.filename (snd entry), App.embedding (snd entry))).

(** The identifiers [embed_batch] reports as successes, in order. *)
Definition successes (results : list App.batch_entry) : list string :=
  flat_map (fun entry => match entry with
                         | App.BatchSuccess image_id => [image_id]
                         | App.BatchError _ _ => []
                         end) results.

(** ** Characters of a string *)

(** [c in s] for a character [c]. *)
Fixpoint contains (c : ascii) (s : string) : bool :=
  match s with
  | EmptyString => false
  | String c' rest => Ascii.eqb c' c || contains c rest
  end.

(** The characters of [s] before the first [c]; all of [s] when [c] does
    not occur. *)
Fixpoint before_first (c : ascii) (s : string) : string :=
  match s with
  | EmptyString => EmptyString
  | String c' rest =>
      if Ascii.eqb c' c then EmptyString else String c' (before_first c rest)
  end.

(** [w] is the part of [response] that begins at its first ['{'] and ends
    at its last ['}'], the latter standing after the former. *)
Definition json_window (response w : string) : Prop :=
  exists pre mid post,
    response = (pre ++ "{" ++ mid ++ "}" ++ post)%string /\
    w = ("{" ++ mid ++ "}")%string /\
    contains "{" pre = false /\ contains "}" post = false.

(** The fallbacks of [name_cluster] and [process_nl_query]. *)
Definition label_fallback (top_objects : list ClaudeService.detected_object)
  : json :=
  JObject
    [("title"%string,
      JString ("Cluster: " ++
               String.concat ", "
                 (map ClaudeService.name (firstn 3 top_objects)))%string);
     ("description"%string,
      JString ("Images featuring " ++
               String.concat ", "
                 (map ClaudeService.name (firstn 3 top_objects)) ++ ".")%string)].

Definition cues_fallback (query : string) : json :=
  JObject [("objects"%string, JArray []);
           ("colors"%string, JArray []);
           ("context"%string, JString query)].

(** What [json.loads] makes of a text, or the fallback when it raises. *)
Definition parsed_or (json_loads : string -> option json) (fallback : json)
           (w : string) : json :=
  match json_loads w with
  | Some j => j
  | None => fallback
  end.

(** The search refuses nothing on an empty index, and on any other index
    exactly the queries of another width than the index and the counts
    that are not positive. *)
Definition refused (self : KNNService.t) (query : vec) (k : Z) : Prop :=
  KNNService.ids self <> [] /\
  (length query <> Faiss.d (KNNService.index self) \/ (k <= 0)%Z).

Definition accepted (self : KNNService.t) (query : vec) (k : Z) : Prop :=
  KNNService.ids self = [] \/
  (length query = Faiss.d (KNNService.index self) /\ (0 < k)%Z).

(** ** The edges of a node, after the specification

    "Remove the entry whose target identifier equals the source identifier,
    and keep the first [k] of what remains, in the index's best-first
    order"; the weight of a hit is its similarity under the cosine metric
    and [1 / (1 + distance)] otherwise. *)

Definition other_hits (node_id : string) (names : list string) (dists : list Q)
  : list (string * Q) :=
  filter (fun hit => negb (String.eqb (fst hit) node_id)) (combine names dists).

Definition hit_weight (cosine : bool) (score : Q) : Q :=
  if cosine then score else 1 / (1 + score).

Definition kept_edges (cosine : bool) (k : nat) (node_id : string)
           (names : list string) (dists : list Q) : list KNNService.neighbor :=
  map (fun hit => KNNService.mkNeighbor (fst hit) (hit_weight cosine (snd hit)))
      (firstn k (other_hits node_id names dists)).

(** What the batch search of [build_knn_graph(k)] has for the stored row
    [i]: on an index without rows two empty lists; otherwise row [i] of the
    distances the index returns for the stored rows and [k + 1] neighbours
    (at most [ntotal]), and the identifiers stored at the positions of
    row [i]. *)
Definition search_row (normalize_L2 : vec -> vec) (index_search : Faiss.search_fn)
           (self : KNNService.t) (k i : nat)
           (names : list string) (dists : list Q) : Prop :=
  exists embs,
    KNNService.embeddings self = Some embs /\
    ((Faiss.ntotal (KNNService.index self) = 0%nat /\ names = [] /\ dists = []) \/
     (Faiss.ntotal (KNNService.index self) <> 0%nat /\
      exists distances indices row,
        index_search (KNNService.index self)
                     (if KNNService.is_cosine self then map normalize_L2 embs
                      else embs)
                     (Nat.min (k + 1) (Faiss.ntotal (KNNService.index self)))
          = (distances, indices) /\
        nth_error distances i = Some dists /\
        nth_error indices i = Some row /\
        Forall2 (fun name idx => nth_error (KNNService.ids self) idx = Some name)
                names row)).

(** ** What is assumed of a rounding

    [x] is a float when rounding leaves it as it is.  A rounding is
    compatible with the equality of rationals, monotone, leaves floats as
    they are, is symmetric about 0, has 0 and 1 among its floats, doubles
    a float exactly when the double is finite, and overflows only beyond
    every finite result.  Rounding to nearest in binary64 is such a
    rounding. *)

Definition representable (fl : Q -> option Q) (x : Q) : Prop :=
  exists a, fl x = Some a /\ a == x.


Record rounding (fl : Q -> option Q) : Prop := mkRounding {
  fl_compat : forall x y a,
      x == y -> fl x = Some a -> exists b, fl y = Some b /\ b == a;
  fl_monotone : forall x y a b,
      x <= y -> fl x = Some a -> fl y = Some b -> a <= b;
  fl_exact : forall x a, fl x = Some a -> representable fl a;
  fl_opp : forall x a, fl x = Some a -> exists b, fl (- x) = Some b /\ b == - a;
  fl_zero : representable fl 0;
  fl_one : representable fl 1;
  fl_double : forall x b,
      representable fl x -> fl (2 * x) = Some b -> b == 2 * x;
  fl_beyond : forall x y a,
      fl x = None -> fl y = Some a ->
      (x <= y -> x <= a) /\ (y <= x -> a <= x)
}.

(** * Properties *)

(** ** Arrays *)

Lemma vmap2_length (f : Q -> Q -> Q) (n : nat) :
  forall a b, length a = n -> length b = n -> length (vmap2 f a b) = n.
Proof.
  induction n as [|n IH]; intros [|x a] [|y b]; simpl; intros Ha Hb;
    try discriminate; auto.
Qed.

Lemma vmap2_nth (f : Q -> Q -> Q) :
  forall a b j, (j < length a)%nat -> (j < length b)%nat ->
    nth j (vmap2 f a b) 0 = f (nth j a 0) (nth j b 0).
Proof.
  induction a as [|x a IH]; intros [|y b] [|j]; simpl; intros Ha Hb;
    try lia; auto.
  apply IH; lia.
Qed.

Lemma fold_vmap2_length (f : Q -> Q -> Q) (n : nat) :
  forall rs r, rect n rs -> length r = n ->
    length (fold_left (vmap2 f) rs r) = n.
Proof.
  induction rs as [|r' rs IH]; simpl; intros r Hrs Hr; auto.
  inversion Hrs; subst. apply IH; auto. apply vmap2_length; auto.
Qed.

(** A reduction along axis 0 is the reduction of every column. *)
Lemma fold_vmap2_nth (f : Q -> Q -> Q) (n j : nat) :
  forall rs r, rect n rs -> length r = n -> (j < n)%nat ->
    nth j (fold_left (vmap2 f) rs r) 0 = fold_left f (col j rs) (nth j r 0).
Proof.
  induction rs as [|r' rs IH]; simpl; intros r Hrs Hr Hj; auto.
  inversion Hrs; subst.
  rewrite IH; auto.
  - rewrite vmap2_nth; auto; lia.
  - apply vmap2_length; auto.
Qed.

Lemma fold_min_le_init : forall l x, fold_left Qmin l x <= x.
Proof.
  induction l as [|y l IH]; simpl; intros x.
  - apply Qle_refl.
  - eapply Qle_trans; [apply IH | apply Q.le_min_l].
Qed.

Lemma fold_min_le_in : forall l x y, In y l -> fold_left Qmin l x <= y.
Proof.
  induction l as [|z l IH]; simpl; intros x y Hy; [contradiction|].
  destruct Hy as [Hy|Hy].
  - subst. eapply Qle_trans; [apply fold_min_le_init | apply Q.le_min_r].
  - apply IH; auto.
Qed.

Lemma fold_min_attained : forall l x,
  exists y, In y (x :: l) /\ fold_left Qmin l x == y.
Proof.
  induction l as [|z l IH]; simpl; intros x.
  - exists x; split; auto. apply Qeq_refl.
  - destruct (IH (Qmin x z)) as [y [[Hy|Hy] E]].
    + destruct (Q.min_spec x z) as [[_ Hm]|[_ Hm]].
      * exists x; split; auto. rewrite E, <- Hy. exact Hm.
      * exists z; split; auto. rewrite E, <- Hy. exact Hm.
    + exists y; auto.
Qed.

Lemma fold_max_ge_init : forall l x, x <= fold_left Qmax l x.
Proof.
  induction l as [|y l IH]; simpl; intros x.
  - apply Qle_refl.
  - eapply Qle_trans; [apply Q.le_max_l | apply IH].
Qed.

Lemma fold_max_ge_in : forall l x y, In y l -> y <= fold_left Qmax l x.
Proof.
  induction l as [|z l IH]; simpl; intros x y Hy; [contradiction|].
  destruct Hy as [Hy|Hy].
  - subst. eapply Qle_trans; [apply Q.le_max_r | apply fold_max_ge_init].
  - apply IH; auto.
Qed.

Lemma fold_max_attained : forall l x,
  exists y, In y (x :: l) /\ fold_left Qmax l x == y.
Proof.
  induction l as [|z l IH]; simpl; intros x.
  - exists x; split; auto. apply Qeq_refl.
  - destruct (IH (Qmax x z)) as [y [[Hy|Hy] E]].
    + destruct (Q.max_spec x z) as [[_ Hm]|[_ Hm]].
      * exists z; split; auto. rewrite E, <- Hy. exact Hm.
      * exists x; split; auto. rewrite E, <- Hy. exact Hm.
    + exists y; auto.
Qed.

Lemma in_col (j : nat) (a : matrix) (y : Q) :
  In y (col j a) -> exists r, In r a /\ y = nth j r 0.
Proof.
  unfold col. rewrite in_map_iff. intros [r [E Hr]]. exists r; auto.
Qed.

(** What [amin0] computes: on every axis a lower bound of the column that
    some row attains. *)
Lemma amin0_spec (n : nat) (a : matrix) :
  a <> [] -> rect n a ->
  exists mn, amin0 a = Ok mn /\ length mn = n /\
    forall j, (j < n)%nat ->
      (forall r, In r a -> nth j mn 0 <= nth j r 0) /\
      (exists r, In r a /\ nth j mn 0 == nth j r 0).
Proof.
  destruct a as [|r rs]; [congruence|]. intros _ Hrect.
  inversion Hrect; subst.
  eexists; split; [reflexivity|]. split; [apply fold_vmap2_length; auto|].
  intros j Hj. rewrite (fold_vmap2_nth Qmin (length r) j); auto. split.
  - intros r' [E|Hin].
    + subst. apply fold_min_le_init.
    + apply fold_min_le_in. unfold col. apply in_map_iff. eauto.
  - destruct (fold_min_attained (col j rs) (nth j r 0)) as [y [[Hy|Hy] E]].
    + exists r; split; [left; auto|]. rewrite E, Hy. apply Qeq_refl.
    + apply in_col in Hy. destruct Hy as [r' [Hr' Ey]].
      exists r'; split; [right; auto|]. rewrite E, Ey. apply Qeq_refl.
Qed.

Lemma amax0_spec (n : nat) (a : matrix) :
  a <> [] -> rect n a ->
  exists mx, amax0 a = Ok mx /\ length mx = n /\
    forall j, (j < n)%nat ->
      (forall r, In r a -> nth j r 0 <= nth j mx 0) /\
      (exists r, In r a /\ nth j mx 0 == nth j r 0).
Proof.
  destruct a as [|r rs]; [congruence|]. intros _ Hrect.
  inversion Hrect; subst.
  eexists; split; [reflexivity|]. split; [apply fold_vmap2_length; auto|].
  intros j Hj. rewrite (fold_vmap2_nth Qmax (length r) j); auto. split.
  - intros r' [E|Hin].
    + subst. apply fold_max_ge_init.
    + apply fold_max_ge_in. unfold col. apply in_map_iff. eauto.
  - destruct (fold_max_attained (col j rs) (nth j r 0)) as [y [[Hy|Hy] E]].
    + exists r; split; [left; auto|]. rewrite E, Hy. apply Qeq_refl.
    + apply in_col in Hy. destruct Hy as [r' [Hr' Ey]].
      exists r'; split; [right; auto|]. rewrite E, Ey. apply Qeq_refl.
Qed.

(** What [amax] computes: an upper bound of the entries that one attains. *)
Lemma amax_spec (v : vec) :
  v <> [] ->
  exists R, amax v = Ok R /\
    (forall j, (j < length v)%nat -> nth j v 0 <= R) /\
    (exists j, (j < length v)%nat /\ R == nth j v 0).
Proof.
  destruct v as [|x xs]; [congruence|]. intros _.
  eexists; split; [reflexivity|]. split.
  - intros [|j] Hj; simpl in *.
    + apply fold_max_ge_init.
    + apply fold_max_ge_in. apply nth_In. lia.
  - destruct (fold_max_attained xs x) as [y [[Hy|Hy] E]].
    + exists 0%nat; simpl; split; [lia|]. rewrite E, Hy. apply Qeq_refl.
    + destruct (In_nth _ _ 0 Hy) as [j [Hj Ej]].
      exists (S j); simpl; split; [lia|]. rewrite E, Ej. apply Qeq_refl.
Qed.

(** ** Rational arithmetic of the normalisation *)

Lemma Qhalf (a : Q) : a / 2 == a * (1 # 2).
Proof. field. Qed.

Lemma Qpos_neq0 (R : Q) : 0 < R -> ~ R == 0.
Proof. intros HR H0. rewrite H0 in HR. exact (Qlt_irrefl 0 HR). Qed.

Lemma Qlt_bool_iff (x y : Q) : Qlt_bool x y = true <-> x < y.
Proof.
  unfold Qlt_bool. rewrite negb_true_iff. split; intros H.
  - apply Qnot_le_lt. intros Hle. apply Qle_bool_iff in Hle. congruence.
  - destruct (Qle_bool y x) eqn:E; auto.
    apply Qle_bool_iff in E. exfalso. exact (Qlt_not_le _ _ H E).
Qed.

Lemma Qlt_bool_false (x y : Q) : Qlt_bool x y = false <-> y <= x.
Proof.
  unfold Qlt_bool. rewrite negb_false_iff. apply Qle_bool_iff.
Qed.

Lemma half_bounds (x mn mx R : Q) :
  0 < R -> mn <= x -> x <= mx -> mx - mn <= R ->
  -(1#2) <= (x - (mn + mx) / 2) / R /\ (x - (mn + mx) / 2) / R <= 1#2.
Proof.
  intros HR H1 H2 H3. rewrite Qhalf. split.
  - apply Qle_shift_div_l; auto. lra.
  - apply Qle_shift_div_r; auto. lra.
Qed.

Lemma entry_within (x mn mx R scale : Q) :
  0 < R -> mn <= x -> x <= mx -> mx - mn <= R -> 0 <= scale ->
  - scale <= (x - (mn + mx) / 2) / R * 2 * scale /\
  (x - (mn + mx) / 2) / R * 2 * scale <= scale.
Proof.
  intros HR H1 H2 H3 Hs.
  destruct (half_bounds x mn mx R HR H1 H2 H3) as [Ha Hb].
  set (t := (x - (mn + mx) / 2) / R) in *. clearbody t.
  split; nra.
Qed.

Lemma entry_at_max (x mn mx R scale : Q) :
  0 < R -> x == mx -> R == mx - mn ->
  (x - (mn + mx) / 2) / R * 2 * scale == scale.
Proof.
  intros HR Hx HRe. rewrite Hx.
  assert (E : mx - (mn + mx) / 2 == R / 2) by (rewrite HRe; field).
  rewrite E. field. apply Qpos_neq0; auto.
Qed.

Lemma entry_at_min (x mn mx R scale : Q) :
  0 < R -> x == mn -> R == mx - mn ->
  (x - (mn + mx) / 2) / R * 2 * scale == - scale.
Proof.
  intros HR Hx HRe. rewrite Hx.
  assert (E : mn - (mn + mx) / 2 == - (R / 2)) by (rewrite HRe; field).
  rewrite E. field. apply Qpos_neq0; auto.
Qed.

(** ** The shape of [normalize_coords] *)

Lemma nth_map0 (f : Q -> Q) (l : list Q) (j : nat) :
  (j < length l)%nat -> nth j (map f l) 0 = f (nth j l 0).
Proof.
  intros Hj. rewrite (nth_indep _ 0 (f 0)); [apply map_nth|].
  rewrite length_map; auto.
Qed.

Lemma get_bounds_nonempty (a : matrix) (mn mx : vec) :
  UMAPService.get_bounds a = Ok (mn, mx) -> a <> [].
Proof. destruct a; simpl; [discriminate | congruence]. Qed.

Lemma get_bounds_spec (n : nat) (a : matrix) :
  a <> [] -> rect n a ->
  exists mn mx, UMAPService.get_bounds a = Ok (mn, mx) /\
    length mn = n /\ length mx = n /\
    forall j, (j < n)%nat ->
      (forall r, In r a -> nth j mn 0 <= nth j r 0 /\ nth j r 0 <= nth j mx 0) /\
      (exists r, In r a /\ nth j mn 0 == nth j r 0) /\
      (exists r, In r a /\ nth j mx 0 == nth j r 0).
Proof.
  intros Hne Hrect.
  destruct (amin0_spec n a Hne Hrect) as [mn [E1 [L1 B1]]].
  destruct (amax0_spec n a Hne Hrect) as [mx [E2 [L2 B2]]].
  exists mn, mx. unfold UMAPService.get_bounds. rewrite E1, E2. simpl.
  repeat split; auto.
  - apply (proj1 (B1 j H)); auto.
  - apply (proj1 (B2 j H)); auto.
  - apply (proj2 (B1 j H)).
  - apply (proj2 (B2 j H)).
Qed.

Lemma normalize_unfold (coords : matrix) (mn mx : vec) (R scale : Q) :
  UMAPService.get_bounds coords = Ok (mn, mx) ->
  amax (vsub mx mn) = Ok R ->
  UMAPService.normalize_coords coords scale =
    if Qlt_bool 0 R then
      if Qeq_bool R 0 then Err ZeroDivision
      else Ok (map (fun row => map (fun c => c / R * 2 * scale)
                                   (vsub row (midpoint mn mx))) coords)
    else Ok (map (fun row => vsub row (midpoint mn mx)) coords).
Proof.
  intros Hb HR. unfold UMAPService.normalize_coords. rewrite Hb. simpl.
  rewrite HR. simpl. destruct (Qlt_bool 0 R); auto.
  unfold array_div. destruct (Qeq_bool R 0); simpl; auto.
  f_equal. unfold array_mul. rewrite !map_map.
  apply map_ext. intros row. rewrite !map_map. reflexivity.
Qed.

Lemma midpoint_length (n : nat) (mn mx : vec) :
  length mn = n -> length mx = n -> length (midpoint mn mx) = n.
Proof.
  intros. unfold midpoint, vadd. rewrite length_map. apply vmap2_length; auto.
Qed.

Lemma centered_nth (n j : nat) (r mn mx : vec) :
  length r = n -> length mn = n -> length mx = n -> (j < n)%nat ->
  nth j (vsub r (midpoint mn mx)) 0 = nth j r 0 - (nth j mn 0 + nth j mx 0) / 2.
Proof.
  intros Hr Hmn Hmx Hj. unfold vsub.
  rewrite vmap2_nth; [|lia|rewrite (midpoint_length n); auto].
  f_equal. unfold midpoint. rewrite nth_map0.
  - unfold vadd. rewrite vmap2_nth; auto; lia.
  - unfold vadd. rewrite (vmap2_length _ n); auto.
Qed.

Lemma range_nth (n j : nat) (mn mx : vec) :
  length mn = n -> length mx = n -> (j < n)%nat ->
  nth j (vsub mx mn) 0 = nth j mx 0 - nth j mn 0.
Proof. intros. unfold vsub. apply vmap2_nth; lia. Qed.

Lemma scaled_nth (n j : nat) (r mn mx : vec) (R scale : Q) :
  length r = n -> length mn = n -> length mx = n -> (j < n)%nat ->
  nth j (map (fun c => c / R * 2 * scale) (vsub r (midpoint mn mx))) 0 =
  (nth j r 0 - (nth j mn 0 + nth j mx 0) / 2) / R * 2 * scale.
Proof.
  intros Hr Hmn Hmx Hj. rewrite nth_map0.
  - rewrite (centered_nth n); auto.
  - unfold vsub. rewrite (vmap2_length _ n); auto. apply midpoint_length; auto.
Qed.

(** The non-degenerate branch, with everything the proofs below need about
    the bounding box of the input. *)
Lemma normalize_nondegenerate (n j0 : nat) (coords : matrix) (mn mx : vec)
      (scale : Q) :
  rect n coords ->
  UMAPService.get_bounds coords = Ok (mn, mx) ->
  (j0 < n)%nat -> nth j0 mn 0 < nth j0 mx 0 ->
  exists R,
    0 < R /\
    length mn = n /\ length mx = n /\
    UMAPService.normalize_coords coords scale =
      Ok (map (fun row => map (fun c => c / R * 2 * scale)
                              (vsub row (midpoint mn mx))) coords) /\
    (forall j r, (j < n)%nat -> In r coords ->
       nth j mn 0 <= nth j r 0 /\ nth j r 0 <= nth j mx 0) /\
    (forall j, (j < n)%nat -> nth j mx 0 - nth j mn 0 <= R) /\
    (exists j pmin pmax, (j < n)%nat /\ In pmin coords /\ In pmax coords /\
       nth j pmin 0 == nth j mn 0 /\ nth j pmax 0 == nth j mx 0 /\
       R == nth j mx 0 - nth j mn 0).
Proof.
  intros Hrect Hb Hj0 Hpos.
  pose proof (get_bounds_nonempty _ _ _ Hb) as Hne.
  destruct (get_bounds_spec n coords Hne Hrect) as [mn' [mx' [Hb' [Lmn [Lmx B]]]]].
  rewrite Hb in Hb'. injection Hb' as <- <-.
  assert (Lr : length (vsub mx mn) = n) by (apply vmap2_length; auto).
  assert (Hv : vsub mx mn <> []).
  { intros E. rewrite E in Lr. simpl in Lr. lia. }
  destruct (amax_spec _ Hv) as [R [HR [Hub [j1 [Hj1 Hatt]]]]].
  rewrite Lr in Hub, Hj1.
  assert (HRpos : 0 < R).
  { specialize (Hub j0 Hj0). rewrite (range_nth n) in Hub; auto. lra. }
  exists R. repeat split; auto.
  - rewrite (normalize_unfold coords mn mx R scale Hb HR).
    apply Qlt_bool_iff in HRpos as Hlt. rewrite Hlt.
    destruct (Qeq_bool R 0) eqn:E; auto.
    apply Qeq_bool_iff in E. exfalso. exact (Qpos_neq0 R HRpos E).
  - apply (proj1 (B j H)); auto.
  - apply (proj1 (B j H)); auto.
  - intros j Hj. specialize (Hub j Hj). rewrite (range_nth n) in Hub; auto.
  - destruct (B j1 Hj1) as [_ [[pmin [Hin1 E1]] [pmax [Hin2 E2]]]].
    exists j1, pmin, pmax. repeat split; auto.
    + symmetry; auto.
    + symmetry; auto.
    + rewrite Hatt. rewrite (range_nth n); auto. apply Qeq_refl.
Qed.

(** ** Without rounding: the normalised batch fills the cube *)

(** What the docstring of [normalize_coords] promises holds of arithmetic
    without rounding.  For a non-empty batch of points of one dimension
    whose bounding box has positive extent on some axis, and a positive
    [scale],
    [normalize_coords] returns a batch of the same shape in which every
    coordinate lies in [[-scale, scale]], some axis carries both a coordinate
    equal to [scale] and one equal to [-scale], and the longest side of the
    bounding box of the output is exactly [2 * scale]. *)
Theorem normalize_coords_fills_cube (n j0 : nat) (coords : matrix)
        (mn mx : vec) (scale : Q) :
  rect n coords ->
  UMAPService.get_bounds coords = Ok (mn, mx) ->
  (j0 < n)%nat -> nth j0 mn 0 < nth j0 mx 0 ->
  0 < scale ->
  exists out,
    UMAPService.normalize_coords coords scale = Ok out /\
    rect n out /\ length out = length coords /\
    (forall row x, In row out -> In x row -> - scale <= x /\ x <= scale) /\
    (exists j p q, (j < n)%nat /\ In p out /\ In q out /\
       nth j p 0 == scale /\ nth j q 0 == - scale) /\
    (exists mn' mx' R',
       UMAPService.get_bounds out = Ok (mn', mx') /\
       amax (vsub mx' mn') = Ok R' /\ R' == 2 * scale).
Proof.
  intros Hrect Hb Hj0 Hpos Hscale.
  destruct (normalize_nondegenerate n j0 coords mn mx scale Hrect Hb Hj0 Hpos)
    as [R [HR [Lmn [Lmx [Hout [Hbox [Hrange Hatt]]]]]]].
  set (g := fun row => map (fun c => c / R * 2 * scale)
                           (vsub row (midpoint mn mx))) in *.
  pose proof (get_bounds_nonempty _ _ _ Hb) as Hne.
  assert (Hlen : forall r, In r coords -> length r = n).
  { intros r Hr. unfold rect in Hrect. rewrite Forall_forall in Hrect. auto. }
  assert (Hglen : forall r, In r coords -> length (g r) = n).
  { intros r Hr. unfold g. rewrite length_map. unfold vsub.
    apply vmap2_length; auto. apply midpoint_length; auto. }
  assert (Hrect' : rect n (map g coords)).
  { unfold rect. rewrite Forall_forall. intros o Ho.
    apply in_map_iff in Ho. destruct Ho as [r [<- Hr]]. auto. }
  assert (Hentry : forall r j, In r coords -> (j < n)%nat ->
            - scale <= nth j (g r) 0 /\ nth j (g r) 0 <= scale).
  { intros r j Hr Hj. unfold g. rewrite (scaled_nth n); auto.
    destruct (Hbox j r Hj Hr). apply entry_within; auto.
    apply Qlt_le_weak; auto. }
  destruct Hatt as [j1 [pmin [pmax [Hj1 [Hin1 [Hin2 [E1 [E2 ER]]]]]]]].
  assert (Etop : nth j1 (g pmax) 0 == scale).
  { unfold g. rewrite (scaled_nth n); auto. apply entry_at_max; auto. }
  assert (Ebot : nth j1 (g pmin) 0 == - scale).
  { unfold g. rewrite (scaled_nth n); auto. apply entry_at_min; auto. }
  exists (map g coords). split; [exact Hout|]. split; [exact Hrect'|].
  split; [apply length_map|]. split; [|split].
  - intros row x Hrow Hx. apply in_map_iff in Hrow.
    destruct Hrow as [r [<- Hr]].
    destruct (In_nth _ _ 0 Hx) as [j [Hj <-]].
    rewrite (Hglen r Hr) in Hj. auto.
  - exists j1, (g pmax), (g pmin). repeat split; auto using in_map.
  - assert (Hne' : map g coords <> []).
    { destruct coords; [congruence | simpl; discriminate]. }
    destruct (get_bounds_spec n _ Hne' Hrect')
      as [mn' [mx' [Hb' [Lmn' [Lmx' B']]]]].
    assert (Lr' : length (vsub mx' mn') = n) by (apply vmap2_length; auto).
    assert (Hv' : vsub mx' mn' <> []).
    { intros E. rewrite E in Lr'. simpl in Lr'. lia. }
    destruct (amax_spec _ Hv') as [R' [HR' [Hub' [j2 [Hj2 Hatt']]]]].
    rewrite Lr' in Hub', Hj2.
    exists mn', mx', R'. split; [exact Hb'|]. split; [exact HR'|].
    apply Qle_antisym.
    + rewrite Hatt'. rewrite (range_nth n); auto.
      destruct (B' j2 Hj2) as [_ [[o1 [Ho1 Eo1]] [o2 [Ho2 Eo2]]]].
      apply in_map_iff in Ho1. destruct Ho1 as [r1 [<- Hr1]].
      apply in_map_iff in Ho2. destruct Ho2 as [r2 [<- Hr2]].
      destruct (Hentry r1 j2 Hr1 Hj2) as [Hlo _].
      destruct (Hentry r2 j2 Hr2 Hj2) as [_ Hhi].
      rewrite Eo1, Eo2. lra.
    + specialize (Hub' j1 Hj1). rewrite (range_nth n) in Hub'; auto.
      destruct (B' j1 Hj1) as [Hall _].
      destruct (Hall (g pmax) (in_map g _ _ Hin2)) as [_ Hhi].
      destruct (Hall (g pmin) (in_map g _ _ Hin1)) as [Hlo _].
      rewrite Etop in Hhi. rewrite Ebot in Hlo. lra.
Qed.

Lemma normalize_coords_fills_cube_witness :
  exists out,
    UMAPService.normalize_coords [[0; 0; 5]; [2; 2; 5]; [0; 2; 5]; [2; 0; 5]] 10
      = Ok out /\
    rect 3 out /\ length out = 4%nat /\
    (forall row x, In row out -> In x row -> - (10) <= x /\ x <= 10) /\
    (exists j p q, (j < 3)%nat /\ In p out /\ In q out /\
       nth j p 0 == 10 /\ nth j q 0 == - (10)) /\
    (exists mn' mx' R',
       UMAPService.get_bounds out = Ok (mn', mx') /\
       amax (vsub mx' mn') = Ok R' /\ R' == 2 * 10).
Proof.
  apply (normalize_coords_fills_cube 3 0
           [[0; 0; 5]; [2; 2; 5]; [0; 2; 5]; [2; 0; 5]] [0; 0; 5] [2; 2; 5] 10).
  - repeat constructor.
  - reflexivity.
  - lia.
  - reflexivity.
  - reflexivity.
Defined.

(** ** The two branches of [normalize_coords] *)

Lemma normalize_cases (n : nat) (coords : matrix) (scale : Q) :
  coords <> [] -> (0 < n)%nat -> rect n coords ->
  exists mn mx R,
    UMAPService.get_bounds coords = Ok (mn, mx) /\
    amax (vsub mx mn) = Ok R /\
    length mn = n /\ length mx = n /\
    ((0 < R /\
      UMAPService.normalize_coords coords scale =
        Ok (map (fun row => map (fun c => c / R * 2 * scale)
                                (vsub row (midpoint mn mx))) coords))
     \/
     (R <= 0 /\
      UMAPService.normalize_coords coords scale =
        Ok (map (fun row => vsub row (midpoint mn mx)) coords))).
Proof.
  intros Hne Hn Hrect.
  destruct (get_bounds_spec n coords Hne Hrect) as [mn [mx [Hb [Lmn [Lmx _]]]]].
  assert (Lr : length (vsub mx mn) = n) by (apply vmap2_length; auto).
  assert (Hv : vsub mx mn <> []).
  { intros E. rewrite E in Lr. simpl in Lr. lia. }
  destruct (amax_spec _ Hv) as [R [HR _]].
  exists mn, mx, R. repeat split; auto.
  rewrite (normalize_unfold coords mn mx R scale Hb HR).
  destruct (Qlt_bool 0 R) eqn:E.
  - left. apply Qlt_bool_iff in E. split; auto.
    destruct (Qeq_bool R 0) eqn:E0; auto.
    apply Qeq_bool_iff in E0. exfalso. exact (Qpos_neq0 R E E0).
  - right. apply Qlt_bool_false in E. split; auto.
Qed.

Lemma Forall2_Qeq_nth (r p : vec) (j : nat) :
  Forall2 Qeq r p -> nth j r 0 == nth j p 0.
Proof.
  intros H. revert j. induction H; intros [|j]; simpl; auto; apply Qeq_refl.
Qed.

(** ** Without rounding: a batch of coinciding points *)

(** Without rounding, for a non-empty batch whose points all equal one
    point [p] (of positive dimension) and for every [scale],
    [normalize_coords] returns
    without error a batch of the same shape all of whose coordinates are
    zero; it returns the centred batch itself, so the division by the range
    (which is zero here) is never performed. *)
Theorem normalize_coords_coinciding (n : nat) (coords : matrix) (p : vec)
        (scale : Q) :
  coords <> [] -> (0 < n)%nat -> length p = n ->
  Forall (fun r => Forall2 Qeq r p) coords ->
  exists out mn mx,
    UMAPService.normalize_coords coords scale = Ok out /\
    UMAPService.get_bounds coords = Ok (mn, mx) /\
    out = map (fun row => vsub row (midpoint mn mx)) coords /\
    rect n out /\ length out = length coords /\
    (forall row x, In row out -> In x row -> x == 0).
Proof.
  intros Hne Hn Hp Hall. rewrite Forall_forall in Hall.
  assert (Hlen : forall r, In r coords -> length r = n).
  { intros r Hr. rewrite (Forall2_length (Hall r Hr)). exact Hp. }
  assert (Hrect : rect n coords).
  { unfold rect. rewrite Forall_forall. exact Hlen. }
  destruct (get_bounds_spec n coords Hne Hrect) as [mn [mx [Hb [Lmn [Lmx B]]]]].
  assert (Emn : forall j, (j < n)%nat -> nth j mn 0 == nth j p 0).
  { intros j Hj. destruct (B j Hj) as [_ [[r [Hr E]] _]].
    rewrite E. apply Forall2_Qeq_nth; auto. }
  assert (Emx : forall j, (j < n)%nat -> nth j mx 0 == nth j p 0).
  { intros j Hj. destruct (B j Hj) as [_ [_ [r [Hr E]]]].
    rewrite E. apply Forall2_Qeq_nth; auto. }
  assert (Lr : length (vsub mx mn) = n) by (apply vmap2_length; auto).
  assert (Hv : vsub mx mn <> []).
  { intros E. rewrite E in Lr. simpl in Lr. lia. }
  destruct (amax_spec _ Hv) as [R [HR [_ [j1 [Hj1 Hatt]]]]].
  rewrite Lr in Hj1. rewrite (range_nth n) in Hatt; auto.
  assert (HR0 : R <= 0).
  { rewrite Hatt, (Emn j1 Hj1), (Emx j1 Hj1). lra. }
  set (g := fun row => vsub row (midpoint mn mx)).
  assert (Hglen : forall r, In r coords -> length (g r) = n).
  { intros r Hr. unfold g, vsub. apply vmap2_length; auto.
    apply midpoint_length; auto. }
  exists (map g coords), mn, mx. repeat split; auto.
  - rewrite (normalize_unfold coords mn mx R scale Hb HR).
    apply Qlt_bool_false in HR0. rewrite HR0. reflexivity.
  - unfold rect. rewrite Forall_forall. intros o Ho.
    apply in_map_iff in Ho. destruct Ho as [r [<- Hr]]. auto.
  - apply length_map.
  - intros row x Hrow Hx. apply in_map_iff in Hrow.
    destruct Hrow as [r [<- Hr]].
    destruct (In_nth _ _ 0 Hx) as [j [Hj <-]].
    rewrite (Hglen r Hr) in Hj. unfold g.
    rewrite (centered_nth n); auto.
    rewrite (Emn j Hj), (Emx j Hj), (Forall2_Qeq_nth r p j (Hall r Hr)).
    field.
Qed.

Lemma normalize_coords_coinciding_witness :
  exists out mn mx,
    UMAPService.normalize_coords [[1; 2; 5]; [1; 2; 5]] 10 = Ok out /\
    UMAPService.get_bounds [[1; 2; 5]; [1; 2; 5]] = Ok (mn, mx) /\
    out = map (fun row => vsub row (midpoint mn mx)) [[1; 2; 5]; [1; 2; 5]] /\
    rect 3 out /\ length out = 2%nat /\
    (forall row x, In row out -> In x row -> x == 0).
Proof.
  apply (normalize_coords_coinciding 3 [[1; 2; 5]; [1; 2; 5]] [1; 2; 5] 10).
  - discriminate.
  - lia.
  - reflexivity.
  - repeat constructor.
Defined.

(** ** Affine maps on points *)

Lemma Forall2_nth_rel {A : Type} (P : A -> A -> Prop) (a b : list A) (d : A) :
  Forall2 P a b -> forall i, (i < length a)%nat -> P (nth i a d) (nth i b d).
Proof.
  intros H. induction H; intros [|i] Hi; simpl in *; try lia; auto.
  apply IHForall2. lia.
Qed.

Lemma Forall2_map_same {A B : Type} (P : B -> B -> Prop) (f g : A -> B)
      (l : list A) :
  (forall x, In x l -> P (f x) (g x)) -> Forall2 P (map f l) (map g l).
Proof.
  induction l as [|x l IH]; simpl; intros H; constructor; auto.
Qed.

Lemma nth_map_row (f : vec -> vec) (l : matrix) (i : nat) :
  (i < length l)%nat -> nth i (map f l) [] = f (nth i l []).
Proof.
  intros Hi. rewrite (nth_indep _ [] (f [])); [apply map_nth|].
  rewrite length_map; auto.
Qed.

Lemma affine_length (n : nat) (c : Q) (t p : vec) :
  length p = n -> length t = n -> length (affine c t p) = n.
Proof. intros. unfold affine. apply vmap2_length; auto. Qed.

Lemma affine_nth (c : Q) (t p : vec) (j : nat) :
  (j < length p)%nat -> (j < length t)%nat ->
  nth j (affine c t p) 0 = c * (nth j p 0 - nth j t 0).
Proof. intros. unfold affine. apply vmap2_nth; auto. Qed.

Lemma scaled_is_affine (f : Q -> Q) (c : Q) :
  (forall y, f y == c * y) ->
  forall r t, Forall2 Qeq (map f (vsub r t)) (affine c t r).
Proof.
  intros Hf. induction r as [|x r IH]; intros [|y t]; simpl; constructor; auto.
Qed.

Lemma centered_is_affine :
  forall r t, Forall2 Qeq (vsub r t) (affine 1 t r).
Proof.
  induction r as [|x r IH]; intros [|y t]; simpl; constructor; auto.
  symmetry. apply Qmult_1_l.
Qed.

Lemma l2sqr_cons (x y : Q) (a b : vec) :
  FlatIndex.l2sqr (x :: a) (y :: b) = (x - y) * (x - y) + FlatIndex.l2sqr a b.
Proof. reflexivity. Qed.

Lemma l2sqr_Qeq :
  forall a a', Forall2 Qeq a a' ->
  forall b b', Forall2 Qeq b b' ->
  FlatIndex.l2sqr a b == FlatIndex.l2sqr a' b'.
Proof.
  intros a a' Ha. induction Ha as [|x x' a a' Hx Ha IH]; intros b b' Hb.
  - apply Qeq_refl.
  - destruct Hb as [|y y' b b' Hy Hb]; [apply Qeq_refl|].
    rewrite !l2sqr_cons. rewrite Hx, Hy, (IH b b' Hb). apply Qeq_refl.
Qed.

(** An affine map with factor [c] multiplies squared distances by [c * c]. *)
Lemma l2sqr_affine (c : Q) :
  forall t p q, length p = length t -> length q = length t ->
  FlatIndex.l2sqr (affine c t p) (affine c t q) == c * c * FlatIndex.l2sqr p q.
Proof.
  induction t as [|z t IH]; intros [|x p] [|y q]; simpl; intros Hp Hq;
    try discriminate.
  - unfold FlatIndex.l2sqr; simpl. ring.
  - unfold affine; simpl. fold (affine c t p) (affine c t q).
    rewrite !l2sqr_cons. rewrite IH by congruence. ring.
Qed.

(** ** Without rounding: one translation and one factor for all axes *)

(** Without rounding, for a non-empty batch of points of one positive
    dimension and a scale that is not negative, [normalize_coords] returns
    a batch [out] for which there are one translation vector [t] and one
    factor [c >= 0] with [out[i] = c * (coords[i] - t)] for every point, the
    same [c] on every axis.  Hence the order of two points along any axis is
    kept, and every squared distance between two points is multiplied by
    the same [c * c]. *)
Theorem normalize_coords_uniform_affine (n : nat) (coords : matrix) (scale : Q) :
  coords <> [] -> (0 < n)%nat -> rect n coords -> 0 <= scale ->
  exists out t c,
    UMAPService.normalize_coords coords scale = Ok out /\
    length t = n /\ 0 <= c /\
    mat_eq out (map (affine c t) coords) /\
    (forall i i' j,
        (i < length coords)%nat -> (i' < length coords)%nat -> (j < n)%nat ->
        nth j (nth i coords []) 0 <= nth j (nth i' coords []) 0 ->
        nth j (nth i out []) 0 <= nth j (nth i' out []) 0) /\
    (forall i i',
        (i < length coords)%nat -> (i' < length coords)%nat ->
        dist2 (nth i out []) (nth i' out []) ==
        c * c * dist2 (nth i coords []) (nth i' coords [])).
Proof.
  intros Hne Hn Hrect Hscale.
  destruct (normalize_cases n coords scale Hne Hn Hrect)
    as [mn [mx [R [Hb [HR [Lmn [Lmx Hcase]]]]]]].
  assert (Lt : length (midpoint mn mx) = n) by (apply midpoint_length; auto).
  assert (Hlen : forall i, (i < length coords)%nat ->
                           length (nth i coords []) = n).
  { intros i Hi. unfold rect in Hrect. rewrite Forall_forall in Hrect.
    apply Hrect. apply nth_In; auto. }
  assert (Hgen : forall out c,
            0 <= c -> mat_eq out (map (affine c (midpoint mn mx)) coords) ->
            (forall i i' j,
                (i < length coords)%nat -> (i' < length coords)%nat ->
                (j < n)%nat ->
                nth j (nth i coords []) 0 <= nth j (nth i' coords []) 0 ->
                nth j (nth i out []) 0 <= nth j (nth i' out []) 0) /\
            (forall i i',
                (i < length coords)%nat -> (i' < length coords)%nat ->
                dist2 (nth i out []) (nth i' out []) ==
                c * c * dist2 (nth i coords []) (nth i' coords []))).
  { intros out c Hc Heq. unfold mat_eq in Heq.
    assert (Lout : length out = length coords).
    { pose proof (Forall2_length Heq) as E. rewrite length_map in E. exact E. }
    assert (Hrow : forall i, (i < length coords)%nat ->
              Forall2 Qeq (nth i out [])
                      (affine c (midpoint mn mx) (nth i coords []))).
    { intros i Hi. rewrite <- (nth_map_row (affine c (midpoint mn mx))); auto.
      apply Forall2_nth_rel; auto. lia. }
    split.
    - intros i i' j Hi Hi' Hj Hle.
      rewrite (Forall2_Qeq_nth _ _ j (Hrow i Hi)).
      rewrite (Forall2_Qeq_nth _ _ j (Hrow i' Hi')).
      rewrite !affine_nth; try (rewrite ?Hlen, ?Lt; auto; lia).
      nra.
    - intros i i' Hi Hi'. unfold dist2.
      rewrite (l2sqr_Qeq _ _ (Hrow i Hi) _ _ (Hrow i' Hi')).
      apply l2sqr_affine; rewrite Hlen, Lt; auto. }
  destruct Hcase as [[HRpos Hout] | [HR0 Hout]].
  - assert (Hc : 0 <= 2 * scale / R).
    { apply Qle_shift_div_l; auto. lra. }
    assert (Heq : mat_eq
              (map (fun row => map (fun c => c / R * 2 * scale)
                                   (vsub row (midpoint mn mx))) coords)
              (map (affine (2 * scale / R) (midpoint mn mx)) coords)).
    { apply Forall2_map_same. intros r _. apply scaled_is_affine.
      intros y. field. apply Qpos_neq0; auto. }
    destruct (Hgen _ _ Hc Heq) as [Hord Hdist].
    eexists; exists (midpoint mn mx), (2 * scale / R).
    split; [exact Hout|]. repeat split; auto.
  - assert (Hc : 0 <= 1) by lra.
    assert (Heq : mat_eq
              (map (fun row => vsub row (midpoint mn mx)) coords)
              (map (affine 1 (midpoint mn mx)) coords)).
    { apply Forall2_map_same. intros r _. apply centered_is_affine. }
    destruct (Hgen _ _ Hc Heq) as [Hord Hdist].
    eexists; exists (midpoint mn mx), 1.
    split; [exact Hout|]. repeat split; auto.
Qed.

Lemma normalize_coords_uniform_affine_witness :
  exists out t c,
    UMAPService.normalize_coords [[0; 0; 5]; [2; 2; 5]; [0; 2; 5]; [2; 0; 5]] 10
      = Ok out /\
    length t = 3%nat /\ 0 <= c /\
    mat_eq out (map (affine c t) [[0; 0; 5]; [2; 2; 5]; [0; 2; 5]; [2; 0; 5]]) /\
    (forall i i' j,
        (i < 4)%nat -> (i' < 4)%nat -> (j < 3)%nat ->
        nth j (nth i [[0; 0; 5]; [2; 2; 5]; [0; 2; 5]; [2; 0; 5]] []) 0 <=
        nth j (nth i' [[0; 0; 5]; [2; 2; 5]; [0; 2; 5]; [2; 0; 5]] []) 0 ->
        nth j (nth i out []) 0 <= nth j (nth i' out []) 0) /\
    (forall i i',
        (i < 4)%nat -> (i' < 4)%nat ->
        dist2 (nth i out []) (nth i' out []) ==
        c * c * dist2 (nth i [[0; 0; 5]; [2; 2; 5]; [0; 2; 5]; [2; 0; 5]] [])
                      (nth i' [[0; 0; 5]; [2; 2; 5]; [0; 2; 5]; [2; 0; 5]] [])).
Proof.
  apply (normalize_coords_uniform_affine 3
           [[0; 0; 5]; [2; 2; 5]; [0; 2; 5]; [2; 0; 5]] 10).
  - discriminate.
  - lia.
  - repeat constructor.
  - discriminate.
Defined.

(** With a negative [scale] the shared factor is negative: the batch
    [[0], [1]] normalised with [scale = -1] comes out mirrored, and no
    factor [c >= 0] with any translation produces it. *)
Lemma normalize_coords_negative_scale_mirrors :
  exists out,
    UMAPService.normalize_coords [[0]; [1]] (- (1)) = Ok out /\
    ~ (exists (t : vec) (c : Q),
          0 <= c /\ mat_eq out (map (affine c t) [[0]; [1]])).
Proof.
  eexists. split; [vm_compute; reflexivity|].
  intros [t [c [Hc Heq]]]. unfold mat_eq in Heq. simpl in Heq.
  inversion Heq as [|r0 a0 l0 l0' H0 Hrest]; subst.
  inversion Hrest as [|r1 a1 l1 l1' H1 _]; subst.
  destruct t as [|t0 t]; simpl in *; [inversion H0|].
  inversion H0 as [|x0 y0 ? ? E0 _]; subst.
  inversion H1 as [|x1 y1 ? ? E1 _]; subst.
  assert (E0' : c * (0 - t0) == 1) by (rewrite <- E0; reflexivity).
  assert (E1' : c * (1 - t0) == - (1)) by (rewrite <- E1; reflexivity).
  nra.
Qed.

(** ** Dictionaries and item access *)

Lemma dict_set_fresh {V : Type} (d : list (string * V)) (key : string) (v : V) :
  ~ In key (dict_keys d) -> dict_set d key v = d ++ [(key, v)].
Proof.
  induction d as [|[k0 v0] d IH]; simpl; intros Hnin; auto.
  destruct (String.eqb_spec k0 key) as [E|E].
  - exfalso. apply Hnin. left; auto.
  - f_equal. apply IH. intros Hin. apply Hnin. right; auto.
Qed.

Lemma dict_set_Forall {V : Type} (P : string * V -> Prop)
      (d : list (string * V)) (key : string) (v : V) :
  Forall P d -> P (key, v) -> Forall P (dict_set d key v).
Proof.
  induction d as [|[k0 v0] d IH]; simpl; intros Hd Hp.
  - constructor; auto.
  - inversion Hd; subst. destruct (String.eqb_spec k0 key) as [E|E].
    + subst. constructor; auto.
    + constructor; auto.
Qed.

Lemma dict_get_map_fresh {A V : Type} (key_of : A -> string) (val_of : A -> V) :
  forall (l : list A) (a : A),
    NoDup (map key_of l) -> In a l ->
    dict_get (map (fun x => (key_of x, val_of x)) l) (key_of a) = Some (val_of a).
Proof.
  induction l as [|x l IH]; simpl; intros a Hnd Hin; [contradiction|].
  inversion Hnd as [|? ? Hx Hl]; subst.
  destruct Hin as [->|Hin].
  - rewrite String.eqb_refl. reflexivity.
  - destruct (String.eqb_spec (key_of x) (key_of a)) as [E|E].
    + exfalso. apply Hx. rewrite E. apply in_map; auto.
    + apply IH; auto.
Qed.

Lemma getitem_ok {A : Type} (l : list A) (i : nat) (d : A) :
  (i < length l)%nat -> getitem l i = Ok (nth i l d).
Proof.
  intros Hi. unfold getitem. rewrite (nth_error_nth' l d Hi). reflexivity.
Qed.

Lemma getitem_inv {A : Type} (l : list A) (i : nat) (a : A) :
  getitem l i = Ok a -> nth_error l i = Some a.
Proof.
  unfold getitem. destruct (nth_error l i); intros H; inversion H; auto.
Qed.

Lemma mapM_ok_map {A B : Type} (f : A -> result B) (g : A -> B) (l : list A) :
  Forall (fun a => f a = Ok (g a)) l -> mapM f l = Ok (map g l).
Proof.
  induction 1 as [|a l Ha _ IH]; simpl; auto.
  rewrite Ha. simpl. rewrite IH. reflexivity.
Qed.

Lemma enumerate_in {A : Type} (l : list A) (i : nat) (a : A) :
  In (i, a) (enumerate l) <-> nth_error l i = Some a.
Proof.
  unfold enumerate.
  assert (G : forall s, In (i, a) (combine (seq s (length l)) l) <->
                        (s <= i)%nat /\ nth_error l (i - s) = Some a).
  { induction l as [|x l IH]; intros s; simpl.
    - split; [contradiction|]. intros [_ H]. destruct (i - s)%nat; discriminate.
    - rewrite IH. split.
      + intros [E | [Hs Hn]].
        * inversion E; subst. rewrite Nat.sub_diag. split; auto.
        * split; [lia|]. replace (i - s)%nat with (S (i - S s)) by lia. auto.
      + intros [Hs Hn]. destruct (Nat.eq_dec s i) as [->|Hne].
        * rewrite Nat.sub_diag in Hn. simpl in Hn. left. congruence.
        * right. split; [lia|].
          replace (i - s)%nat with (S (i - S s)) in Hn by lia. auto. }
  rewrite G. rewrite Nat.sub_0_r. split; [intros [_ H]; auto | split; auto; lia].
Qed.

Lemma enumerate_keys {A : Type} (l : list A) : map snd (enumerate l) = l.
Proof.
  unfold enumerate. generalize 0%nat.
  induction l as [|x l IH]; intros s; simpl; auto. f_equal. apply IH.
Qed.

Lemma in_firstn {A : Type} (k : nat) :
  forall (l : list A) (x : A), In x (firstn k l) -> In x l.
Proof.
  induction k as [|k IH]; intros [|y l] x Hx; simpl in *; auto;
    try contradiction.
  destruct Hx as [E|H]; auto.
Qed.

Lemma Forall_firstn {A : Type} (P : A -> Prop) (k : nat) (l : list A) :
  Forall P l -> Forall P (firstn k l).
Proof.
  rewrite !Forall_forall. intros H x Hx. apply H. eapply in_firstn; eauto.
Qed.

Lemma StronglySorted_firstn {A : Type} (R : A -> A -> Prop) (k : nat) :
  forall l, StronglySorted R l -> StronglySorted R (firstn k l).
Proof.
  induction k as [|k IH]; intros l Hl; simpl; [constructor|].
  destruct Hl as [|x l Hl Hx]; constructor; auto.
  apply Forall_firstn; auto.
Qed.

(** ** The graph builder *)

Section GraphBuilder.

Variable normalize_L2 : vec -> vec.
Variable index_search : Faiss.search_fn.

Local Abbreviation search_batch self embs k :=
  (KNNService.search_batch normalize_L2 index_search self embs
     (Faiss.d (KNNService.index self)) (Z.of_nat k)).
Local Abbreviation build_knn_graph := (KNNService.build_knn_graph normalize_L2 index_search).
Local Abbreviation neighbors_of := KNNService.neighbors_of.
Local Abbreviation build_loop := KNNService.build_loop.

(** The batch search [build_knn_graph] makes, for the stored rows and at
    least one neighbour, passes the assertions of the wrapper. *)
Lemma search_batch_stored (self : KNNService.t) (embs : matrix) (k : nat) :
  (0 < k)%nat ->
  search_batch self embs k =
  if Nat.eqb (Faiss.ntotal (KNNService.index self)) 0 then
    Ok (map (fun _ => []) embs, map (fun _ => []) embs)
  else
    let '(distances, indices) :=
      index_search (KNNService.index self)
                   (if KNNService.is_cosine self then map normalize_L2 embs
                    else embs)
                   (Nat.min k (Faiss.ntotal (KNNService.index self))) in
    neighbor_ids_list <- mapM (mapM (getitem (KNNService.ids self))) indices ;;
    Ok (neighbor_ids_list, distances).
Proof.
  intros Hk. unfold KNNService.search_batch. cbv zeta.
  destruct (Nat.eqb_spec (Faiss.ntotal (KNNService.index self)) 0) as [E|E];
    [reflexivity|].
  unfold Faiss.search. rewrite Nat.eqb_refl. simpl negb.
  replace (Z.min (Z.of_nat k) (Z.of_nat (Faiss.ntotal (KNNService.index self))))
    with (Z.of_nat (Nat.min k (Faiss.ntotal (KNNService.index self)))) by lia.
  assert (Hpos : (0 <? Z.of_nat (Nat.min k (Faiss.ntotal (KNNService.index self))))%Z
                 = true) by (apply Z.ltb_lt; lia).
  rewrite Hpos. simpl negb. cbv iota. rewrite Znat.Nat2Z.id.
  destruct (index_search _ _ _) as [distances indices]. reflexivity.
Qed.

(** What a batch search that returns has done. *)
Lemma search_batch_inv (self : KNNService.t) (embs : matrix) (shape1 : nat)
      (k : Z) (nl : list (list string)) (dl : list (list Q)) :
  KNNService.search_batch normalize_L2 index_search self embs shape1 k
    = Ok (nl, dl) ->
  (Faiss.ntotal (KNNService.index self) = 0%nat /\
   nl = map (fun _ => []) embs /\ dl = map (fun _ => []) embs) \/
  (Faiss.ntotal (KNNService.index self) <> 0%nat /\
   shape1 = Faiss.d (KNNService.index self) /\ (0 < k)%Z /\
   exists distances indices,
     index_search (KNNService.index self)
                  (if KNNService.is_cosine self then map normalize_L2 embs
                   else embs)
                  (Z.to_nat (Z.min k (Z.of_nat (Faiss.ntotal
                                                  (KNNService.index self)))))
       = (distances, indices) /\
     mapM (mapM (getitem (KNNService.ids self))) indices = Ok nl /\
     dl = distances).
Proof.
  unfold KNNService.search_batch.
  destruct (Nat.eqb_spec (Faiss.ntotal (KNNService.index self)) 0) as [E0|E0].
  - intros H. inversion H. left. auto.
  - cbv zeta. unfold Faiss.search.
    destruct (Nat.eqb_spec shape1 (Faiss.d (KNNService.index self))) as [Es|Es];
      simpl negb; cbv iota; [|discriminate].
    destruct (Z.ltb_spec 0 (Z.min k (Z.of_nat (Faiss.ntotal
                                                 (KNNService.index self)))))
      as [Hk|Hk]; simpl negb; cbv iota; [|discriminate].
    destruct (index_search _ _ _) as [D I] eqn:Ei. simpl.
    destruct (mapM (mapM (getitem (KNNService.ids self))) I) as [rows|] eqn:Em;
      simpl; [|discriminate].
    intros H. inversion H; subst. right. split; [exact E0|].
    split; [reflexivity|]. split; [lia|]. exists dl, I. auto.
Qed.

Lemma neighbors_of_no_self (self : KNNService.t) (node_id : string)
      (hits : list (string * Q)) :
  Forall (fun e => KNNService.target e <> node_id)
         (neighbors_of self node_id hits).
Proof.
  unfold KNNService.neighbors_of.
  induction hits as [|[nid dist] hits IH]; simpl; [constructor|].
  destruct (String.eqb_spec nid node_id) as [E|E]; simpl; auto.
Qed.

(** Whatever the search returned, every stored adjacency list is free of
    its own node and has at most [k] entries. *)
Lemma build_loop_invariant (P : string * list KNNService.neighbor -> Prop)
      (self : KNNService.t) (k : nat)
      (nl : list (list string)) (dl : list (list Q)) :
  (forall i node_id row_ids row_dist,
      nth_error nl i = Some row_ids -> nth_error dl i = Some row_dist ->
      P (node_id,
         firstn k (neighbors_of self node_id (combine row_ids row_dist)))) ->
  forall nodes g g',
    Forall P g -> build_loop self k nl dl nodes g = Ok g' -> Forall P g'.
Proof.
  intros Hstep. induction nodes as [|[i node_id] nodes IH]; simpl;
    intros g g' Hg Hrun.
  - inversion Hrun; subst; auto.
  - destruct (getitem nl i) as [row_ids|] eqn:E1; simpl in Hrun;
      [|discriminate].
    destruct (getitem dl i) as [row_dist|] eqn:E2; simpl in Hrun;
      [|discriminate].
    eapply IH; [|exact Hrun].
    apply dict_set_Forall; auto.
    eapply Hstep; apply getitem_inv; eauto.
Qed.

Lemma build_knn_graph_invariant (P : string * list KNNService.neighbor -> Prop)
      (self : KNNService.t) (k : nat) (g : KNNService.graph) :
  (forall nl dl embs,
      search_batch self embs (k + 1) = Ok (nl, dl) ->
      forall i node_id row_ids row_dist,
        nth_error nl i = Some row_ids -> nth_error dl i = Some row_dist ->
        P (node_id,
           firstn k (neighbors_of self node_id (combine row_ids row_dist)))) ->
  build_knn_graph self k = Ok g -> Forall P g.
Proof.
  intros Hstep. unfold KNNService.build_knn_graph.
  destruct (KNNService.embeddings self) as [embs|];
    [|intros H; inversion H; constructor].
  destruct (length (KNNService.ids self) =? 0)%nat;
    [intros H; inversion H; constructor|].
  destruct (search_batch self embs (k + 1)) as [[nl dl]|] eqn:E; simpl;
    [|discriminate].
  apply build_loop_invariant; [|constructor].
  apply (Hstep nl dl embs E).
Qed.

(** With distinct identifiers and a row for every node, the loop appends
    one entry per node, in the order of the identifiers. *)
Lemma build_loop_fresh (self : KNNService.t) (k : nat)
      (nl : list (list string)) (dl : list (list Q)) :
  forall nodes g,
    NoDup (map snd nodes) ->
    (forall id, In id (map snd nodes) -> ~ In id (dict_keys g)) ->
    (forall i id, In (i, id) nodes ->
                  (i < length nl)%nat /\ (i < length dl)%nat) ->
    build_loop self k nl dl nodes g =
      Ok (g ++ map (fun node => (snd node,
                                 adjacency self k nl dl (fst node) (snd node)))
                   nodes).
Proof.
  induction nodes as [|[i node_id] nodes IH]; simpl; intros g Hnd Hfresh Hrows.
  - rewrite app_nil_r. reflexivity.
  - destruct (Hrows i node_id (or_introl eq_refl)) as [Hi1 Hi2].
    rewrite (getitem_ok nl i [] Hi1), (getitem_ok dl i [] Hi2). simpl.
    inversion Hnd as [|? ? Hx Hl]; subst.
    rewrite dict_set_fresh by (apply Hfresh; left; auto).
    rewrite IH; auto.
    + rewrite <- app_assoc. reflexivity.
    + intros id Hid Hin. unfold dict_keys in Hin.
      rewrite map_app in Hin. apply in_app_or in Hin.
      destruct Hin as [Hin|Hin].
      * apply (Hfresh id); [right; auto | exact Hin].
      * simpl in Hin. destruct Hin as [<-|[]]. contradiction.
  + intros i' id' Hin. apply (Hrows i' id'). right; auto.
Qed.

End GraphBuilder.

Section GraphShape.

Variable normalize_L2 : vec -> vec.
Variable index_search : Faiss.search_fn.
Hypothesis search_exact : exact_search index_search.

Local Abbreviation search_batch self embs k :=
  (KNNService.search_batch normalize_L2 index_search self embs
     (Faiss.d (KNNService.index self)) (Z.of_nat k)).
Local Abbreviation build_knn_graph := (KNNService.build_knn_graph normalize_L2 index_search).

Lemma ids_of_positions (self : KNNService.t) (row : list nat) :
  Forall (fun idx => (idx < length (KNNService.ids self))%nat) row ->
  mapM (getitem (KNNService.ids self)) row = Ok (map (id_at self) row).
Proof.
  intros H. apply mapM_ok_map. eapply Forall_impl; [|exact H].
  intros idx Hidx. apply getitem_ok; auto.
Qed.

Lemma ids_of_positions_nodup (self : KNNService.t) (row : list nat) :
  NoDup (KNNService.ids self) -> NoDup row ->
  Forall (fun idx => (idx < length (KNNService.ids self))%nat) row ->
  NoDup (map (id_at self) row).
Proof.
  intros Hids Hrow Hvalid. apply NoDup_map_NoDup_ForallPairs; auto.
  intros a b Ha Hb E. rewrite Forall_forall in Hvalid.
  apply (proj1 (NoDup_nth (KNNService.ids self) EmptyString) Hids); auto.
Qed.

(** On a non-empty index whose positions all have identifiers, a batch
    search succeeds and names the hits of every query. *)
Lemma search_batch_exact (self : KNNService.t) (embs : matrix) (k : nat) :
  (0 < k)%nat ->
  Faiss.ntotal (KNNService.index self) = length (KNNService.ids self) ->
  (0 < length (KNNService.ids self))%nat ->
  exists D I,
    answer_ok (length (KNNService.ids self)) (length embs)
              (Nat.min k (length (KNNService.ids self))) (D, I) /\
    search_batch self embs k = Ok (map (map (id_at self)) I, D).
Proof.
  intros Hk Hn Hpos.
  rewrite (search_batch_stored normalize_L2 index_search self embs k Hk).
  rewrite Hn.
  destruct (Nat.eqb_spec (length (KNNService.ids self)) 0) as [E|_]; [lia|].
  match goal with
  | |- context [index_search _ ?q _] => set (queries := q)
  end.
  assert (Lq : length queries = length embs).
  { unfold queries. destruct (KNNService.is_cosine self); auto.
    apply length_map. }
  pose proof (search_exact (KNNService.index self) queries
                (Nat.min k (length (KNNService.ids self)))) as Hans.
  rewrite Hn, Lq in Hans. specialize (Hans (Nat.le_min_r _ _)).
  destruct (index_search (KNNService.index self) queries
              (Nat.min k (length (KNNService.ids self)))) as [D I].
  exists D, I. split; [exact Hans|].
  destruct Hans as [_ [_ [_ HI]]]. simpl in HI. cbv iota beta.
  rewrite (mapM_ok_map _ (map (id_at self))); [reflexivity|].
  eapply Forall_impl; [|exact HI].
  intros row [_ [_ Hvalid]]. apply ids_of_positions; auto.
Qed.

(** The graph of a synchronised index with distinct identifiers: one entry
    per identifier, in order, holding the first [k] hits that are not the
    node itself. *)
Lemma build_knn_graph_shape (self : KNNService.t) (k : nat) :
  synced self -> NoDup (KNNService.ids self) ->
  (0 < length (KNNService.ids self))%nat ->
  exists embs nl dl,
    KNNService.embeddings self = Some embs /\
    search_batch self embs (k + 1) = Ok (nl, dl) /\
    length nl = length (KNNService.ids self) /\
    length dl = length (KNNService.ids self) /\
    (forall i, (i < length (KNNService.ids self))%nat ->
       length (nth i nl []) = Nat.min (k + 1) (length (KNNService.ids self)) /\
       length (nth i dl []) = Nat.min (k + 1) (length (KNNService.ids self)) /\
       NoDup (nth i nl []) /\
       incl (nth i nl []) (KNNService.ids self)) /\
    build_knn_graph self k =
      Ok (map (fun node => (snd node,
                            adjacency self k nl dl (fst node) (snd node)))
              (enumerate (KNNService.ids self))).
Proof.
  intros [embs [He [Le Hn]]] Hnd Hpos.
  destruct (search_batch_exact self embs (k + 1) ltac:(lia) Hn Hpos)
    as [D [I [Hans Hsb]]].
  destruct Hans as [LD [LI [HD HI]]]. simpl in LD, LI, HD, HI.
  exists embs, (map (map (id_at self)) I), D.
  split; [exact He|]. split; [exact Hsb|].
  split; [rewrite length_map; congruence|]. split; [congruence|]. split.
  - intros i Hi. rewrite Forall_forall in HD, HI.
    assert (HiI : (i < length I)%nat) by lia.
    assert (HiD : (i < length D)%nat) by lia.
    destruct (HI (nth i I []) (nth_In _ _ HiI)) as [L1 [N1 V1]].
    rewrite (nth_indep _ [] (map (id_at self) [])) by (rewrite length_map; lia).
    rewrite map_nth. rewrite length_map. split; [exact L1|]. split; [|split].
    + apply HD. apply nth_In; auto.
    + apply ids_of_positions_nodup; auto.
    + intros nid Hin. apply in_map_iff in Hin. destruct Hin as [idx [<- Hidx]].
      rewrite Forall_forall in V1. unfold id_at. apply nth_In. auto.
  - unfold KNNService.build_knn_graph. rewrite He.
    destruct (Nat.eqb_spec (length (KNNService.ids self)) 0) as [E|_]; [lia|].
    rewrite Hsb. simpl.
    rewrite (build_loop_fresh self k); simpl; auto.
    + rewrite enumerate_keys. exact Hnd.
    + intros i id Hin. apply enumerate_in in Hin.
      assert (i < length (KNNService.ids self))%nat
        by (apply nth_error_Some; congruence).
      rewrite length_map. lia.
Qed.

End GraphShape.

(** ** Out-degrees *)

Lemma keep_others_all (node_id : string) :
  forall (a : list string) (b : list Q),
    ~ In node_id a ->
    filter (fun '(nid, _) => negb (String.eqb nid node_id)) (combine a b)
    = combine a b.
Proof.
  induction a as [|x a IH]; intros [|y b] Hnin; simpl; auto.
  destruct (String.eqb_spec x node_id) as [E|E]; simpl.
  - exfalso. apply Hnin. left; auto.
  - f_equal. apply IH. intros Hin. apply Hnin. right; auto.
Qed.

Lemma keep_none (node_id : string) :
  forall (a : list string) (b : list Q),
    incl a [node_id] ->
    filter (fun '(nid, _) => negb (String.eqb nid node_id)) (combine a b) = [].
Proof.
  induction a as [|x a IH]; intros [|y b] Hincl; simpl; auto.
  assert (Hx : x = node_id).
  { destruct (Hincl x (or_introl eq_refl)) as [E|[]]; auto. }
  subst x. rewrite String.eqb_refl. simpl. apply IH.
  intros z Hz. apply Hincl. right; auto.
Qed.

(** Among hits with distinct identifiers at most one is the node itself. *)
Lemma keep_others_length (node_id : string) :
  forall (a : list string) (b : list Q),
    NoDup a -> length a = length b ->
    (length a <=
     S (length (filter (fun '(nid, _) => negb (String.eqb nid node_id))
                       (combine a b))))%nat.
Proof.
  induction a as [|x a IH]; intros [|y b] Hnd Hlen; simpl in *;
    try discriminate; try lia.
  inversion Hnd as [|? ? Hx Ha]; subst.
  destruct (String.eqb_spec x node_id) as [E|E]; simpl.
  - subst. rewrite keep_others_all by auto.
    rewrite length_combine. lia.
  - specialize (IH b Ha). lia.
Qed.

Lemma neighbors_of_length (self : KNNService.t) (node_id : string)
      (hits : list (string * Q)) :
  length (KNNService.neighbors_of self node_id hits) =
  length (filter (fun '(nid, _) => negb (String.eqb nid node_id)) hits).
Proof. unfold KNNService.neighbors_of. apply length_map. Qed.

Lemma adjacency_le (self : KNNService.t) (k : nat)
      (nl : list (list string)) (dl : list (list Q)) (i : nat) (id : string) :
  (length (adjacency self k nl dl i id) <= k)%nat.
Proof. unfold adjacency. apply firstn_le_length. Qed.

Lemma adjacency_full (self : KNNService.t) (k m : nat)
      (nl : list (list string)) (dl : list (list Q)) (i : nat) (id : string) :
  length (nth i nl []) = m -> length (nth i dl []) = m ->
  NoDup (nth i nl []) -> (k + 1 <= m)%nat ->
  length (adjacency self k nl dl i id) = k.
Proof.
  intros L1 L2 Hnd Hm. unfold adjacency.
  rewrite length_firstn, neighbors_of_length.
  pose proof (keep_others_length id (nth i nl []) (nth i dl []) Hnd) as H.
  rewrite L1, L2 in H. specialize (H eq_refl). lia.
Qed.

(** ** C3: no self-loops, at most [k] edges per node *)

(** C3, as amended.  In every graph that [build_knn_graph(k)] returns, no
    adjacency list contains its own node as a target and none is longer
    than [k]; and when
    the search is exact, the index synchronised and the identifiers
    distinct, a list shorter than [k] occurs only if the index holds fewer
    than [k + 1] vectors. *)
Theorem build_knn_graph_no_self_loop_at_most_k
        (normalize_L2 : vec -> vec) (index_search : Faiss.search_fn)
        (self : KNNService.t) (k : nat) (g : KNNService.graph) :
  KNNService.build_knn_graph normalize_L2 index_search self k = Ok g ->
  Forall (fun entry =>
            Forall (fun e => KNNService.target e <> fst entry) (snd entry) /\
            (length (snd entry) <= k)%nat) g /\
  (exact_search index_search -> synced self -> NoDup (KNNService.ids self) ->
   forall entry, In entry g -> (length (snd entry) < k)%nat ->
                 (length (KNNService.ids self) < k + 1)%nat).
Proof.
  intros Hrun. split.
  - apply (build_knn_graph_invariant normalize_L2 index_search _ self k g);
      [|exact Hrun].
    intros nl dl embs _ i node_id row_ids row_dist _ _. simpl. split.
    + apply Forall_firstn. apply neighbors_of_no_self.
    + apply firstn_le_length.
  - intros Hsearch Hsync Hnd entry Hin Hshort.
    destruct (Nat.lt_ge_cases (length (KNNService.ids self)) (k + 1))
      as [Hlt|Hge]; auto.
    exfalso.
    destruct (build_knn_graph_shape normalize_L2 index_search Hsearch self k
                Hsync Hnd ltac:(lia))
      as [embs [nl [dl [_ [_ [_ [_ [Hrows Hg]]]]]]]].
    rewrite Hg in Hrun. inversion Hrun; subst g. clear Hrun.
    apply in_map_iff in Hin. destruct Hin as [[i id] [<- Hin]]. simpl in Hshort.
    apply enumerate_in in Hin.
    assert (Hi : (i < length (KNNService.ids self))%nat)
      by (apply nth_error_Some; congruence).
    destruct (Hrows i Hi) as [L1 [L2 [N1 _]]].
    rewrite (adjacency_full self k _ nl dl i id L1 L2 N1) in Hshort; lia.
Qed.

(** ** The batch search behind the graph *)

(** On a synchronised index with distinct identifiers that holds at
    least [k + 1] vectors, with an exact search, [build_knn_graph(k)] returns
    a graph with one entry per identifier, in order.  The batch search is
    made with [k + 1] neighbours and returns [k + 1] hits for every node; the
    entry of a node is the first [k] of its hits whose identifier is not the
    node's own, in the order of the search, and has exactly [k] edges. *)
Theorem build_knn_graph_exactly_k
        (normalize_L2 : vec -> vec) (index_search : Faiss.search_fn)
        (self : KNNService.t) (k : nat) :
  exact_search index_search ->
  synced self -> NoDup (KNNService.ids self) ->
  (k + 1 <= length (KNNService.ids self))%nat ->
  exists embs nl dl g,
    KNNService.embeddings self = Some embs /\
    KNNService.search_batch normalize_L2 index_search self embs
      (Faiss.d (KNNService.index self)) (Z.of_nat (k + 1)) = Ok (nl, dl) /\
    KNNService.build_knn_graph normalize_L2 index_search self k = Ok g /\
    dict_keys g = KNNService.ids self /\
    forall i node_id,
      nth_error (KNNService.ids self) i = Some node_id ->
      length (nth i nl []) = (k + 1)%nat /\
      length (nth i dl []) = (k + 1)%nat /\
      dict_get g node_id =
        Some (firstn k (KNNService.neighbors_of self node_id
                          (combine (nth i nl []) (nth i dl [])))) /\
      length (firstn k (KNNService.neighbors_of self node_id
                          (combine (nth i nl []) (nth i dl [])))) = k.
Proof.
  intros Hsearch Hsync Hnd Hk.
  destruct (build_knn_graph_shape normalize_L2 index_search Hsearch self k
              Hsync Hnd ltac:(lia))
    as [embs [nl [dl [He [Hsb [_ [_ [Hrows Hg]]]]]]]].
  exists embs, nl, dl. eexists. split; [exact He|]. split; [exact Hsb|].
  split; [exact Hg|]. split.
  - unfold dict_keys. rewrite map_map. simpl. apply enumerate_keys.
  - intros i node_id Hi.
    assert (Hlt : (i < length (KNNService.ids self))%nat)
      by (apply nth_error_Some; congruence).
    destruct (Hrows i Hlt) as [L1 [L2 [N1 _]]].
    rewrite Nat.min_l in L1, L2 by lia.
    split; [exact L1|]. split; [exact L2|]. split.
    + apply (dict_get_map_fresh snd
               (fun node => adjacency self k nl dl (fst node) (snd node))
               (enumerate (KNNService.ids self)) (i, node_id)).
      * rewrite enumerate_keys. exact Hnd.
      * apply enumerate_in. exact Hi.
    + apply (adjacency_full self k (k + 1) nl dl i node_id); auto.
Qed.

(** ** The brute-force index meets the contract of the search *)

Lemma NoDup_firstn {A : Type} (k : nat) :
  forall l : list A, NoDup l -> NoDup (firstn k l).
Proof.
  induction k as [|k IH]; intros l Hl; simpl; [constructor|].
  destruct Hl as [|x l Hx Hl]; constructor; auto.
  intros Hin. apply Hx. eapply in_firstn; eauto.
Qed.

Lemma map_snd_combine {A B : Type} :
  forall (a : list A) (b : list B),
    length a = length b -> map snd (combine a b) = b.
Proof.
  induction a as [|x a IH]; intros [|y b] H; simpl in *; try discriminate; auto.
  f_equal. apply IH. congruence.
Qed.

Lemma map_fst_combine {A B : Type} :
  forall (a : list A) (b : list B),
    length a = length b -> map fst (combine a b) = a.
Proof.
  induction a as [|x a IH]; intros [|y b] H; simpl in *; try discriminate; auto.
  f_equal. apply IH. congruence.
Qed.

Module FlatIndexFacts.

Import FlatIndex.

Lemma better_before (ip : bool) (s1 s2 : Q) :
  better ip s1 s2 = true -> before ip s1 s2.
Proof. destruct ip; simpl; apply Qle_bool_iff. Qed.

Lemma not_better_before (ip : bool) (s1 s2 : Q) :
  better ip s1 s2 = false -> before ip s2 s1.
Proof.
  destruct ip; simpl; intros H.
  - destruct (Qlt_le_dec s1 s2) as [Hlt|Hle].
    + apply Qlt_le_weak; auto.
    + apply Qle_bool_iff in Hle. congruence.
  - destruct (Qlt_le_dec s2 s1) as [Hlt|Hle].
    + apply Qlt_le_weak; auto.
    + apply Qle_bool_iff in Hle. congruence.
Qed.

Lemma before_trans (ip : bool) (a b c : Q) :
  before ip a b -> before ip b c -> before ip a c.
Proof. destruct ip; simpl; intros; eapply Qle_trans; eauto. Qed.

Lemma insert_perm (ip : bool) (h : Q * nat) :
  forall l, Permutation (insert ip h l) (h :: l).
Proof.
  induction l as [|h' l IH]; simpl; auto.
  destruct (better ip (fst h) (fst h')); auto.
  eapply perm_trans; [apply perm_skip; exact IH | apply perm_swap].
Qed.

Lemma rank_perm (ip : bool) : forall l, Permutation (rank ip l) l.
Proof.
  induction l as [|h l IH]; simpl; auto.
  eapply perm_trans; [apply insert_perm|]. apply perm_skip. exact IH.
Qed.

Lemma insert_sorted (ip : bool) (h : Q * nat) :
  forall l,
    StronglySorted (fun a b => before ip (fst a) (fst b)) l ->
    StronglySorted (fun a b => before ip (fst a) (fst b)) (insert ip h l).
Proof.
  induction l as [|h' l IH]; simpl; intros Hl.
  - repeat constructor.
  - inversion Hl as [|? ? Hl' Hh']; subst.
    destruct (better ip (fst h) (fst h')) eqn:E.
    + apply better_before in E. constructor; auto. constructor; auto.
      eapply Forall_impl; [|exact Hh'].
      intros x Hx. simpl in Hx. eapply before_trans; eauto.
    + apply not_better_before in E. constructor; auto.
      apply (Permutation_Forall (Permutation_sym (insert_perm ip h l))).
      constructor; auto.
Qed.

Lemma rank_sorted (ip : bool) :
  forall l, StronglySorted (fun a b => before ip (fst a) (fst b)) (rank ip l).
Proof.
  induction l as [|h l IH]; simpl; [constructor|].
  apply insert_sorted; auto.
Qed.

Lemma StronglySorted_map_fst (ip : bool) :
  forall l : list (Q * nat),
    StronglySorted (fun a b => before ip (fst a) (fst b)) l ->
    StronglySorted (before ip) (map fst l).
Proof.
  induction 1 as [|h l Hl IH Hh]; simpl; constructor; auto.
  rewrite Forall_map. exact Hh.
Qed.

Lemma dot_self_nonneg : forall v, 0 <= dot v v.
Proof.
  induction v as [|x v IH]; simpl; [apply Qle_refl|]. nra.
Qed.

Lemma l2sqr_nonneg (a b : vec) : 0 <= l2sqr a b.
Proof. unfold l2sqr. apply dot_self_nonneg. Qed.

Lemma hits_of_positions (ix : Faiss.Index) (q : vec) :
  map snd (hits_of ix q) = seq 0 (Faiss.ntotal ix).
Proof.
  unfold hits_of. apply map_snd_combine.
  rewrite length_map, length_seq. reflexivity.
Qed.

Lemma hits_of_length (ix : Faiss.Index) (q : vec) :
  length (hits_of ix q) = Faiss.ntotal ix.
Proof.
  rewrite <- (length_map snd), hits_of_positions. apply length_seq.
Qed.

Lemma search1_length (ix : Faiss.Index) (k : nat) (q : vec) :
  (k <= Faiss.ntotal ix)%nat -> length (search1 ix k q) = k.
Proof.
  intros Hk. unfold search1. rewrite length_firstn.
  rewrite (Permutation_length (rank_perm _ _)), hits_of_length. lia.
Qed.

Lemma search1_positions (ix : Faiss.Index) (k : nat) (q : vec) :
  NoDup (map snd (search1 ix k q)) /\
  Forall (fun idx => (idx < Faiss.ntotal ix)%nat) (map snd (search1 ix k q)).
Proof.
  unfold search1. rewrite <- !firstn_map.
  assert (P : Permutation (map snd (rank (Faiss.inner_product ix) (hits_of ix q)))
                          (seq 0 (Faiss.ntotal ix))).
  { rewrite <- (hits_of_positions ix q). apply Permutation_map.
    apply rank_perm. }
  split.
  - apply NoDup_firstn.
    apply (Permutation_NoDup (Permutation_sym P)). apply seq_NoDup.
  - apply Forall_firstn.
    apply (Permutation_Forall (Permutation_sym P)).
    rewrite Forall_forall. intros idx Hidx. apply in_seq in Hidx. lia.
Qed.

Lemma search_exact : exact_search search.
Proof.
  intros ix queries k Hk. unfold answer_ok, search. simpl.
  rewrite !length_map. repeat split; auto.
  - rewrite Forall_map. rewrite Forall_forall. intros q _.
    rewrite length_map. apply search1_length; auto.
  - rewrite Forall_map. rewrite Forall_forall. intros q _.
    rewrite length_map. split; [apply search1_length; auto|].
    apply search1_positions.
Qed.

Lemma search_ranked : ranked_search search.
Proof.
  intros ix queries k. unfold search. simpl.
  rewrite Forall_map. rewrite Forall_forall. intros q _.
  assert (S : StronglySorted (before (Faiss.inner_product ix))
                             (map fst (search1 ix k q))).
  { apply StronglySorted_map_fst. unfold search1.
    apply StronglySorted_firstn. apply rank_sorted. }
  unfold best_first. unfold before in S.
  destruct (Faiss.inner_product ix) eqn:E; [exact S|]. split; [exact S|].
  unfold search1. rewrite E, <- firstn_map. apply Forall_firstn.
  assert (P : Permutation (map fst (rank false (hits_of ix q)))
                          (map fst (hits_of ix q))).
  { apply Permutation_map. apply rank_perm. }
  apply (Permutation_Forall (Permutation_sym P)).
  unfold hits_of. rewrite map_fst_combine
    by (rewrite length_map, length_seq; reflexivity).
  rewrite Forall_map. rewrite Forall_forall. intros x _.
  unfold score. rewrite E. apply l2sqr_nonneg.
Qed.

End FlatIndexFacts.

(** ** The sample index *)

Lemma sample_synced : synced Samples.euclid3.
Proof. eexists. repeat split; reflexivity. Qed.

Lemma sample_distinct : NoDup (KNNService.ids Samples.euclid3).
Proof.
  repeat constructor; simpl; intuition discriminate.
Qed.

Lemma build_knn_graph_no_self_loop_at_most_k_witness :
  exists g,
    Samples.build Samples.euclid3 8 = Ok g /\
    Forall (fun entry =>
              Forall (fun e => KNNService.target e <> fst entry) (snd entry) /\
              (length (snd entry) <= 8)%nat) g /\
    (exact_search FlatIndex.search -> synced Samples.euclid3 ->
     NoDup (KNNService.ids Samples.euclid3) ->
     forall entry, In entry g -> (length (snd entry) < 8)%nat ->
                   (length (KNNService.ids Samples.euclid3) < 8 + 1)%nat).
Proof.
  eexists. split; [vm_compute; reflexivity|].
  apply (build_knn_graph_no_self_loop_at_most_k
           Samples.unit_normalize FlatIndex.search Samples.euclid3 8).
  vm_compute. reflexivity.
Defined.

Lemma build_knn_graph_exactly_k_witness :
  exists embs nl dl g,
    KNNService.embeddings Samples.euclid3 = Some embs /\
    KNNService.search_batch Samples.unit_normalize FlatIndex.search
                            Samples.euclid3 embs 2 (Z.of_nat (2 + 1))
      = Ok (nl, dl) /\
    Samples.build Samples.euclid3 2 = Ok g /\
    dict_keys g = KNNService.ids Samples.euclid3 /\
    forall i node_id,
      nth_error (KNNService.ids Samples.euclid3) i = Some node_id ->
      length (nth i nl []) = (2 + 1)%nat /\
      length (nth i dl []) = (2 + 1)%nat /\
      dict_get g node_id =
        Some (firstn 2 (KNNService.neighbors_of Samples.euclid3 node_id
                          (combine (nth i nl []) (nth i dl [])))) /\
      length (firstn 2 (KNNService.neighbors_of Samples.euclid3 node_id
                          (combine (nth i nl []) (nth i dl [])))) = 2%nat.
Proof.
  apply (build_knn_graph_exactly_k
           Samples.unit_normalize FlatIndex.search Samples.euclid3 2).
  - exact FlatIndexFacts.search_exact.
  - exact sample_synced.
  - exact sample_distinct.
  - simpl. lia.
Defined.

(** ** Without rounding: adjacency lists are ordered by weight *)

Lemma weight_antitone (d1 d2 : Q) :
  0 <= d1 -> d1 <= d2 -> 1 / (1 + d2) <= 1 / (1 + d1).
Proof.
  intros H0 H12. apply Qle_shift_div_r; [lra|].
  assert (E : 1 / (1 + d1) * (1 + d2) == (1 + d2) / (1 + d1)).
  { field. intros E. lra. }
  rewrite E. apply Qle_shift_div_l; lra.
Qed.

Lemma weight_strictly_antitone (d1 d2 : Q) :
  0 <= d1 -> d1 < d2 -> 1 / (1 + d2) < 1 / (1 + d1).
Proof.
  intros H0 H12. apply Qlt_shift_div_r; [lra|].
  assert (E : 1 / (1 + d1) * (1 + d2) == (1 + d2) / (1 + d1)).
  { field. intros E. lra. }
  rewrite E. apply Qlt_shift_div_l; lra.
Qed.

Lemma hits_Forall (P : Q -> Prop) (p : string * Q -> bool) :
  forall (ds : list Q) (names : list string),
    Forall P ds -> Forall (fun h => P (snd h)) (filter p (combine names ds)).
Proof.
  induction ds as [|dist ds IH]; intros [|x names] H; simpl; try constructor.
  inversion H; subst. destruct (p (x, dist)); auto.
Qed.

Lemma hits_sorted (R : Q -> Q -> Prop) (p : string * Q -> bool) :
  forall (ds : list Q) (names : list string),
    StronglySorted R ds ->
    StronglySorted (fun a b => R (snd a) (snd b)) (filter p (combine names ds)).
Proof.
  induction ds as [|dist ds IH]; intros [|x names] H; simpl; try constructor.
  inversion H; subst. destruct (p (x, dist)); auto.
  constructor; auto. apply hits_Forall; auto.
Qed.

(** The weights along the hits of one node, for a row of distances that is
    best first. *)
Lemma neighbors_of_descend (self : KNNService.t) (node_id : string)
      (row_ids : list string) (row_dist : list Q) :
  best_first (KNNService.is_cosine self) row_dist ->
  weights_descend (KNNService.neighbors_of self node_id
                                           (combine row_ids row_dist)).
Proof.
  unfold best_first, weights_descend, KNNService.neighbors_of,
    KNNService.weight_of.
  set (p := fun '(nid, _) => negb (String.eqb nid node_id)).
  destruct (KNNService.is_cosine self).
  - intros Hs. pose proof (hits_sorted _ p row_dist row_ids Hs) as H.
    induction H as [|[nid dist] l Hl IH Hh]; simpl; constructor; auto.
    rewrite Forall_map. eapply Forall_impl; [|exact Hh].
    intros [nid' dist'] Hle. exact Hle.
  - intros [Hs Hpos].
    pose proof (hits_sorted _ p row_dist row_ids Hs) as H.
    pose proof (hits_Forall _ p row_dist row_ids Hpos) as H0.
    induction H as [|[nid dist] l Hl IH Hh]; simpl; constructor.
    + apply IH. inversion H0; auto.
    + inversion H0; subst. rewrite Forall_map.
      eapply Forall_impl; [|exact Hh].
      intros [nid' dist'] Hle. simpl in *. apply weight_antitone; auto.
Qed.

Lemma descend_head (nbrs : list KNNService.neighbor) :
  weights_descend nbrs ->
  forall e, In e nbrs ->
            KNNService.weight e <= KNNService.weight (hd e nbrs).
Proof.
  intros H e He. destruct H as [|first rest Hrest Hfirst]; simpl in *.
  - contradiction.
  - destruct He as [->|He]; [apply Qle_refl|].
    rewrite Forall_forall in Hfirst. auto.
Qed.

Lemma search_batch_ranked (normalize_L2 : vec -> vec)
      (index_search : Faiss.search_fn) (self : KNNService.t) (embs : matrix)
      (shape1 : nat) (k : Z) (nl : list (list string)) (dl : list (list Q)) :
  ranked_search index_search ->
  KNNService.search_batch normalize_L2 index_search self embs shape1 k
    = Ok (nl, dl) ->
  Forall (best_first (Faiss.inner_product (KNNService.index self))) dl.
Proof.
  intros Hranked Hsb.
  destruct (search_batch_inv _ _ _ _ _ _ _ _ Hsb)
    as [(_ & _ & Edl)|(_ & _ & _ & D & I & Hi & _ & Edl)].
  - subst dl. rewrite Forall_map.
    rewrite Forall_forall. intros q _.
    destruct (Faiss.inner_product (KNNService.index self)); simpl;
      repeat constructor.
  - subst dl.
    match type of Hi with
    | index_search ?ix ?q ?k' = _ => pose proof (Hranked ix q k') as Hr
    end.
    rewrite Hi in Hr. exact Hr.
Qed.

(** Without rounding: with a search that returns its hits best first (inner
    products descending, squared distances ascending and not negative) on the index
    created for the metric of the service, every adjacency list of the graph
    that [build_knn_graph] returns is ordered by non-increasing weight, and
    so no edge of a list is heavier than its first edge.  Under the cosine
    metric the weight is the score of the search itself; otherwise it is
    [1 / (1 + distance)], strictly decreasing in the distance. *)
Theorem build_knn_graph_weights_descend
        (normalize_L2 : vec -> vec) (index_search : Faiss.search_fn)
        (self : KNNService.t) (k : nat) (g : KNNService.graph) :
  ranked_search index_search ->
  index_matches_metric self ->
  KNNService.build_knn_graph normalize_L2 index_search self k = Ok g ->
  Forall (fun entry =>
            weights_descend (snd entry) /\
            forall e, In e (snd entry) ->
                      KNNService.weight e <=
                      KNNService.weight (hd e (snd entry))) g /\
  (KNNService.is_cosine self = true ->
   forall dist, KNNService.weight_of self dist = dist) /\
  (KNNService.is_cosine self = false ->
   forall d1 d2, 0 <= d1 -> d1 < d2 ->
                 KNNService.weight_of self d2 < KNNService.weight_of self d1).
Proof.
  intros Hranked Hmetric Hrun.
  split; [|split; unfold KNNService.weight_of; intros ->;
           [reflexivity | apply weight_strictly_antitone]].
  apply (build_knn_graph_invariant normalize_L2 index_search _ self k g);
    [|exact Hrun].
  intros nl dl embs Hsb i node_id row_ids row_dist _ Hd. simpl.
  assert (Hs : weights_descend
                 (firstn k (KNNService.neighbors_of self node_id
                                                    (combine row_ids row_dist)))).
  { apply StronglySorted_firstn. apply neighbors_of_descend.
    pose proof (search_batch_ranked _ _ _ _ _ _ _ _ Hranked Hsb) as Hall.
    rewrite Forall_forall in Hall. rewrite <- Hmetric.
    apply Hall. eapply nth_error_In; eauto. }
  split; [exact Hs|]. apply descend_head; auto.
Qed.

Lemma build_knn_graph_weights_descend_witness :
  (exists g,
     Samples.build Samples.euclid3 2 = Ok g /\
     Forall (fun entry =>
               weights_descend (snd entry) /\
               forall e, In e (snd entry) ->
                         KNNService.weight e <=
                         KNNService.weight (hd e (snd entry))) g /\
     (KNNService.is_cosine Samples.euclid3 = true ->
      forall dist, KNNService.weight_of Samples.euclid3 dist = dist) /\
     (KNNService.is_cosine Samples.euclid3 = false ->
      forall d1 d2, 0 <= d1 -> d1 < d2 ->
                    KNNService.weight_of Samples.euclid3 d2 <
                    KNNService.weight_of Samples.euclid3 d1)) /\
  (exists g,
     Samples.build Samples.cosine3 2 = Ok g /\
     Forall (fun entry =>
               weights_descend (snd entry) /\
               forall e, In e (snd entry) ->
                         KNNService.weight e <=
                         KNNService.weight (hd e (snd entry))) g /\
     (KNNService.is_cosine Samples.cosine3 = true ->
      forall dist, KNNService.weight_of Samples.cosine3 dist = dist) /\
     (KNNService.is_cosine Samples.cosine3 = false ->
      forall d1 d2, 0 <= d1 -> d1 < d2 ->
                    KNNService.weight_of Samples.cosine3 d2 <
                    KNNService.weight_of Samples.cosine3 d1)).
Proof.
  split; eexists; (split; [vm_compute; reflexivity|]).
  - apply (build_knn_graph_weights_descend
             Samples.unit_normalize FlatIndex.search Samples.euclid3 2).
    + exact FlatIndexFacts.search_ranked.
    + reflexivity.
    + vm_compute. reflexivity.
  - apply (build_knn_graph_weights_descend
             Samples.unit_normalize FlatIndex.search Samples.cosine3 2).
    + exact FlatIndexFacts.search_ranked.
    + reflexivity.
    + vm_compute. reflexivity.
Defined.

(** ** C1: who refuses a graph on fewer than two vectors *)

(** On an empty index, and on an index of one vector with [k = 8],
    [build_knn_graph] returns a graph instead of failing. *)
Lemma build_knn_graph_small_index_returns :
  (length (KNNService.ids Samples.euclid0) < 2)%nat /\
  Samples.build Samples.euclid0 8 = Ok [] /\
  length (KNNService.ids Samples.euclid1) = 1%nat /\
  Samples.build Samples.euclid1 8 = Ok [("a"%string, [])].
Proof. repeat split; try reflexivity. simpl. lia. Qed.

(** On an index of one vector every hit is the node itself, so the graph
    has that node and no edge, whatever [k]. *)
Lemma build_knn_graph_single_vector
      (normalize_L2 : vec -> vec) (index_search : Faiss.search_fn)
      (self : KNNService.t) (k : nat) (id : string) :
  exact_search index_search -> synced self -> KNNService.ids self = [id] ->
  KNNService.build_knn_graph normalize_L2 index_search self k = Ok [(id, [])].
Proof.
  intros Hsearch Hsync Hids.
  assert (Hnd : NoDup (KNNService.ids self)).
  { rewrite Hids. repeat constructor. simpl. tauto. }
  destruct (build_knn_graph_shape normalize_L2 index_search Hsearch self k
              Hsync Hnd ltac:(rewrite Hids; simpl; lia))
    as [embs [nl [dl [_ [_ [_ [_ [Hrows Hg]]]]]]]].
  rewrite Hg, Hids. simpl. do 3 f_equal.
  destruct (Hrows 0%nat ltac:(rewrite Hids; simpl; lia)) as [_ [_ [_ Hincl]]].
  rewrite Hids in Hincl. unfold adjacency, KNNService.neighbors_of.
  rewrite keep_none; [destruct k; reflexivity|].
  exact Hincl.
Qed.

(** C1, at the endpoint.  The endpoint [build_graph] fails with the
    insufficient-data error (status 400) whenever fewer than two images are
    registered, for every [k]; [build_knn_graph] itself has no such failure:
    it returns the empty graph when nothing has been added, and on a
    synchronised index of one vector, with an exact search, the graph of
    that one node without edges. *)
Theorem build_graph_needs_two_images
        (normalize_L2 : vec -> vec) (index_search : Faiss.search_fn)
        (write_json : string -> App.document -> result unit)
        (st : App.state) (k : nat) :
  (length (App.image_database st) < 2)%nat ->
  App.build_graph normalize_L2 index_search write_json st k =
    Err (InsufficientData "Need at least 2 images to build graph") /\
  (KNNService.embeddings (App.knn_service st) = None \/
   KNNService.ids (App.knn_service st) = [] ->
   KNNService.build_knn_graph normalize_L2 index_search (App.knn_service st) k
     = Ok []) /\
  (exact_search index_search -> synced (App.knn_service st) ->
   forall id, KNNService.ids (App.knn_service st) = [id] ->
   KNNService.build_knn_graph normalize_L2 index_search (App.knn_service st) k
     = Ok [(id, [])]).
Proof.
  intros Hlt. split; [|split].
  - unfold App.build_graph.
    apply Nat.ltb_lt in Hlt. rewrite Hlt. reflexivity.
  - unfold KNNService.build_knn_graph. intros [He|Hi].
    + rewrite He. reflexivity.
    + rewrite Hi. simpl. destruct (KNNService.embeddings _); reflexivity.
  - intros Hsearch Hsync id Hids.
    apply build_knn_graph_single_vector; auto.
Qed.

(** ** C5: what [add_embeddings] validates *)

(** A batch of one row with two identifiers is accepted: the index then
    holds one vector and the identifier list two names. *)
Lemma add_embeddings_accepts_unequal_lengths :
  exists s',
    KNNService.add_embeddings Samples.unit_normalize Samples.euclid0 2
                              [[0; 0]] ["a"%string; "b"%string] = Ok s' /\
    Faiss.ntotal (KNNService.index s') = 1%nat /\
    length (KNNService.ids s') = 2%nat /\
    KNNService.index s' <> KNNService.index Samples.euclid0.
Proof.
  eexists. split; [reflexivity|]. repeat split. discriminate.
Qed.

(** C5, the validation of the batch.  [add_embeddings] compares only the
    width of the batch with the dimension of the index.  For a batch whose number of rows
    differs from the number of identifiers: if the width is wrong the call
    fails with the dimension error and returns no new state; otherwise it
    succeeds, appending every row (normalised under the cosine metric) to
    the index and to the stacked matrix, and every identifier to the
    identifier list. *)
Theorem add_embeddings_checks_width_only
        (normalize_L2 : vec -> vec) (self : KNNService.t) (shape1 : nat)
        (embs : matrix) (new_ids : list string) :
  length embs <> length new_ids ->
  (shape1 <> KNNService.embedding_dim self ->
   KNNService.add_embeddings normalize_L2 self shape1 embs new_ids =
     Err (ValueError "Embedding dimension mismatch")) /\
  (shape1 = KNNService.embedding_dim self ->
   exists s' embs',
     KNNService.add_embeddings normalize_L2 self shape1 embs new_ids = Ok s' /\
     embs' = (if KNNService.is_cosine self then map normalize_L2 embs
              else embs) /\
     Faiss.xb (KNNService.index s') =
       Faiss.xb (KNNService.index self) ++ embs' /\
     KNNService.ids s' = KNNService.ids self ++ new_ids /\
     KNNService.embeddings s' =
       Some (match KNNService.embeddings self with
             | None => embs'
             | Some old => old ++ embs'
             end) /\
     Faiss.ntotal (KNNService.index s') =
       (Faiss.ntotal (KNNService.index self) + length embs)%nat /\
     length (KNNService.ids s') =
       (length (KNNService.ids self) + length new_ids)%nat).
Proof.
  intros _. unfold KNNService.add_embeddings. split.
  - intros Hne. apply Nat.eqb_neq in Hne. rewrite Hne. reflexivity.
  - intros E. apply Nat.eqb_eq in E. rewrite E. simpl.
    eexists. eexists. split; [reflexivity|]. split; [reflexivity|]. simpl.
    repeat split.
    + destruct (KNNService.embeddings self); reflexivity.
    + unfold Faiss.ntotal. simpl. rewrite length_app.
      destruct (KNNService.is_cosine self); rewrite ?length_map; reflexivity.
    + apply length_app.
Qed.

Lemma add_embeddings_checks_width_only_witness :
  (3%nat <> KNNService.embedding_dim Samples.euclid0 ->
   KNNService.add_embeddings Samples.unit_normalize Samples.euclid0 3
                             [[0; 0; 0]] ["a"%string; "b"%string] =
     Err (ValueError "Embedding dimension mismatch")) /\
  (3%nat = KNNService.embedding_dim Samples.euclid0 ->
   exists s' embs',
     KNNService.add_embeddings Samples.unit_normalize Samples.euclid0 3
                               [[0; 0; 0]] ["a"%string; "b"%string] = Ok s' /\
     embs' = (if KNNService.is_cosine Samples.euclid0
              then map Samples.unit_normalize [[0; 0; 0]]
              else [[0; 0; 0]]) /\
     Faiss.xb (KNNService.index s') =
       Faiss.xb (KNNService.index Samples.euclid0) ++ embs' /\
     KNNService.ids s' =
       KNNService.ids Samples.euclid0 ++ ["a"%string; "b"%string] /\
     KNNService.embeddings s' =
       Some (match KNNService.embeddings Samples.euclid0 with
             | None => embs'
             | Some old => old ++ embs'
             end) /\
     Faiss.ntotal (KNNService.index s') =
       (Faiss.ntotal (KNNService.index Samples.euclid0) + 1)%nat /\
     length (KNNService.ids s') =
       (length (KNNService.ids Samples.euclid0) + 2)%nat).
Proof.
  apply (add_embeddings_checks_width_only Samples.unit_normalize
           Samples.euclid0 3 [[0; 0; 0]] ["a"%string; "b"%string]).
  simpl. lia.
Defined.

Lemma build_graph_needs_two_images_witness :
  App.build_graph Samples.unit_normalize FlatIndex.search Samples.disk_ok
                  Samples.app1 8 =
    Err (InsufficientData "Need at least 2 images to build graph") /\
  (KNNService.embeddings (App.knn_service Samples.app1) = None \/
   KNNService.ids (App.knn_service Samples.app1) = [] ->
   KNNService.build_knn_graph Samples.unit_normalize FlatIndex.search
                              (App.knn_service Samples.app1) 8 = Ok []) /\
  (exact_search FlatIndex.search -> synced (App.knn_service Samples.app1) ->
   forall id, KNNService.ids (App.knn_service Samples.app1) = [id] ->
   KNNService.build_knn_graph Samples.unit_normalize FlatIndex.search
                              (App.knn_service Samples.app1) 8
     = Ok [(id, [])]).
Proof.
  apply (build_graph_needs_two_images Samples.unit_normalize FlatIndex.search
           Samples.disk_ok Samples.app1 8).
  simpl. lia.
Defined.

(** ** C8: what an aborted projection leaves behind *)

(** When the coordinate document cannot be written, or cannot be built
    because the projector returns two components per point so that [row[2]]
    is out of range, [project_to_3d] fails after it has stored the new
    coordinates and set the flag. *)
Lemma project_to_3d_fails_after_write_back :
  (exists st' e,
      App.project_to_3d Samples.projector_pad Samples.disk_full Samples.app2
        = (st', Err e) /\
      App.is_projection_fitted Samples.app2 = false /\
      App.is_projection_fitted st' = true /\
      App.image_database st' <> App.image_database Samples.app2) /\
  (exists st' e,
      App.project_to_3d Samples.projector_flat Samples.disk_ok Samples.app2
        = (st', Err e) /\
      App.is_projection_fitted Samples.app2 = false /\
      App.is_projection_fitted st' = true /\
      App.image_database st' <> App.image_database Samples.app2).
Proof.
  split; eexists; eexists; (split; [vm_compute; reflexivity|]);
    repeat split; discriminate.
Qed.

(** C8, for an abort before the write-back.  When [project_to_3d] aborts
    before its write-back loop, because fewer than two images are registered, or the projection
    collaborator fails, or the normalisation of its result fails, the call
    reports an error and the image database, with every stored coordinate,
    and the fitted flag are as before. *)
Theorem project_to_3d_abort_keeps_state
        (model_fit_transform : Z -> matrix -> result matrix)
        (write_json : string -> App.document -> result unit)
        (st : App.state) :
  (length (App.image_database st) < 2)%nat \/
  (exists e,
      snd (UMAPService.fit_transform model_fit_transform (App.umap_service st)
             (map (fun kv => App.embedding (snd kv)) (App.image_database st)))
      = Err e) \/
  (exists coords e,
      snd (UMAPService.fit_transform model_fit_transform (App.umap_service st)
             (map (fun kv => App.embedding (snd kv)) (App.image_database st)))
      = Ok coords /\
      UMAPService.normalize_coords coords 10 = Err e) ->
  exists e,
    snd (App.project_to_3d model_fit_transform write_json st) = Err e /\
    App.image_database (fst (App.project_to_3d model_fit_transform write_json st))
      = App.image_database st /\
    App.is_projection_fitted
      (fst (App.project_to_3d model_fit_transform write_json st))
      = App.is_projection_fitted st.
Proof.
  unfold App.project_to_3d.
  destruct (length (App.image_database st) <? 2)%nat eqn:Hlen.
  - intros _. eexists. simpl. repeat split.
  - intros [Hlt | [[e He] | [coords [e [Hc Hn]]]]].
    + apply Nat.ltb_lt in Hlt. congruence.
    + destruct (UMAPService.fit_transform _ _ _) as [um fitted]. simpl in He.
      subst fitted. eexists. simpl. repeat split.
    + destruct (UMAPService.fit_transform _ _ _) as [um fitted]. simpl in Hc.
      subst fitted. rewrite Hn. eexists. simpl. repeat split.
Qed.

Lemma project_to_3d_abort_keeps_state_witness :
  exists e,
    snd (App.project_to_3d Samples.projector_down Samples.disk_ok Samples.app2)
      = Err e /\
    App.image_database
      (fst (App.project_to_3d Samples.projector_down Samples.disk_ok Samples.app2))
      = App.image_database Samples.app2 /\
    App.is_projection_fitted
      (fst (App.project_to_3d Samples.projector_down Samples.disk_ok Samples.app2))
      = App.is_projection_fitted Samples.app2.
Proof.
  apply (project_to_3d_abort_keeps_state Samples.projector_down Samples.disk_ok
           Samples.app2).
  right. left. eexists. vm_compute. reflexivity.
Defined.

(** ** C9: the counters of the graph document *)

Lemma edge_list_length (g : KNNService.graph) :
  length (KNNService.edge_list g) =
  list_sum (map (fun entry => length (snd entry)) g).
Proof.
  unfold KNNService.edge_list.
  induction g as [|[source nbrs] g IH]; simpl; auto.
  rewrite length_app, length_map, IH. reflexivity.
Qed.

Lemma list_sum_const (k : nat) (l : list nat) :
  Forall (fun x => x = k) l -> list_sum l = (length l * k)%nat.
Proof.
  induction 1 as [|x l Hx _ IH]; simpl; [reflexivity|].
  subst x. rewrite IH. reflexivity.
Qed.

(** A graph built with [k = 8] on three vectors is saved with [k = 2]. *)
Lemma save_graph_k_is_first_degree :
  exists g,
    Samples.build Samples.euclid3 8 = Ok g /\
    KNNService.doc_k (KNNService.save_graph_output g) = 2%nat /\
    KNNService.doc_k (KNNService.save_graph_output g) <> 8%nat.
Proof.
  eexists. split; [vm_compute; reflexivity|]. split; [reflexivity|].
  simpl. discriminate.
Qed.

(** The document of a built graph.  For the graph [build_knn_graph(k)]
    returns on a synchronised index with distinct identifiers and an exact search, the
    document of [save_graph] holds the flat edge list, the number of nodes
    (one per identifier), the number of edges (the sum of the out-degrees),
    and as [k] the out-degree of the first node, 0 for an empty graph; that
    is the configured [k], and the edge count is [k] per node, when the
    index holds at least [k + 1] vectors. *)
Theorem save_graph_output_counters
        (normalize_L2 : vec -> vec) (index_search : Faiss.search_fn)
        (self : KNNService.t) (k : nat) (g : KNNService.graph) :
  exact_search index_search ->
  synced self -> NoDup (KNNService.ids self) ->
  KNNService.build_knn_graph normalize_L2 index_search self k = Ok g ->
  let doc := KNNService.save_graph_output g in
  KNNService.edges doc = KNNService.edge_list g /\
  (forall e, In e (KNNService.edges doc) <->
             exists nbrs nb, In (KNNService.e_source e, nbrs) g /\ In nb nbrs /\
                             KNNService.e_target e = KNNService.target nb /\
                             KNNService.e_weight e = KNNService.weight nb) /\
  KNNService.num_nodes doc = length (KNNService.ids self) /\
  KNNService.num_edges doc =
    list_sum (map (fun entry => length (snd entry)) g) /\
  KNNService.doc_k doc = length (snd (hd (EmptyString, []) g)) /\
  ((k + 1 <= length (KNNService.ids self))%nat ->
   KNNService.doc_k doc = k /\
   KNNService.num_edges doc = (length (KNNService.ids self) * k)%nat).
Proof.
  intros Hsearch Hsync Hnd Hrun doc. subst doc.
  assert (Hkeys : length g = length (KNNService.ids self)).
  { destruct (Nat.eq_dec (length (KNNService.ids self)) 0) as [E0|Hpos].
    - unfold KNNService.build_knn_graph in Hrun.
      destruct (KNNService.embeddings self);
        [rewrite E0 in Hrun; simpl in Hrun|];
        inversion Hrun; subst; simpl; auto.
    - destruct (build_knn_graph_shape normalize_L2 index_search Hsearch self k
                  Hsync Hnd ltac:(lia))
        as [embs [nl [dl [_ [_ [_ [_ [_ Hg]]]]]]]].
      rewrite Hg in Hrun. inversion Hrun; subst g.
      rewrite length_map. rewrite <- (length_map snd), enumerate_keys.
      reflexivity. }
  split; [reflexivity|]. split; [|split; [exact Hkeys|]].
  - intros [s t w]. simpl. unfold KNNService.edge_list.
    rewrite in_flat_map. split.
    + intros [[source nbrs] [Hin He]]. apply in_map_iff in He.
      destruct He as [nb [E Hnb]]. inversion E; subst.
      exists nbrs, nb. auto.
    + intros [nbrs [nb [Hin [Hnb [Et Ew]]]]].
      exists (s, nbrs). split; auto. apply in_map_iff.
      exists nb. split; auto. simpl. congruence.
  - split; [apply edge_list_length|]. split.
    + simpl. destruct g as [|[source nbrs] g']; reflexivity.
    + intros Hk.
      destruct (build_knn_graph_shape normalize_L2 index_search Hsearch self k
                  Hsync Hnd ltac:(lia))
        as [embs [nl [dl [_ [_ [_ [_ [Hrows Hg]]]]]]]].
      rewrite Hg in Hrun. inversion Hrun; subst g. clear Hrun.
      assert (Hdeg : Forall (fun x => x = k)
                (map (fun entry : string * list KNNService.neighbor =>
                        length (snd entry))
                   (map (fun node =>
                           (snd node,
                            adjacency self k nl dl (fst node) (snd node)))
                        (enumerate (KNNService.ids self))))).
      { rewrite map_map. rewrite Forall_map. rewrite Forall_forall.
        intros [i id] Hin. simpl. apply enumerate_in in Hin.
        assert (Hi : (i < length (KNNService.ids self))%nat)
          by (apply nth_error_Some; congruence).
        destruct (Hrows i Hi) as [L1 [L2 [N1 _]]].
        apply (adjacency_full self k _ nl dl i id L1 L2 N1). lia. }
      split.
      * simpl.
        destruct (enumerate (KNNService.ids self)) as [|[i id] rest] eqn:En.
        -- apply (f_equal (@length _)) in En. simpl in En.
           rewrite <- (length_map snd), enumerate_keys in En. lia.
        -- simpl. simpl in Hdeg. inversion Hdeg; auto.
      * simpl KNNService.num_edges. rewrite edge_list_length.
        rewrite (list_sum_const k _ Hdeg). rewrite !length_map.
        rewrite <- (length_map snd), enumerate_keys. reflexivity.
Qed.

Lemma save_graph_output_counters_witness :
  exists g,
    Samples.build Samples.euclid3 2 = Ok g /\
    let doc := KNNService.save_graph_output g in
    KNNService.edges doc = KNNService.edge_list g /\
    (forall e, In e (KNNService.edges doc) <->
               exists nbrs nb, In (KNNService.e_source e, nbrs) g /\ In nb nbrs /\
                               KNNService.e_target e = KNNService.target nb /\
                               KNNService.e_weight e = KNNService.weight nb) /\
    KNNService.num_nodes doc = length (KNNService.ids Samples.euclid3) /\
    KNNService.num_edges doc =
      list_sum (map (fun entry => length (snd entry)) g) /\
    KNNService.doc_k doc = length (snd (hd (EmptyString, []) g)) /\
    ((2 + 1 <= length (KNNService.ids Samples.euclid3))%nat ->
     KNNService.doc_k doc = 2%nat /\
     KNNService.num_edges doc =
       (length (KNNService.ids Samples.euclid3) * 2)%nat).
Proof.
  eexists. split; [vm_compute; reflexivity|].
  apply (save_graph_output_counters Samples.unit_normalize FlatIndex.search
           Samples.euclid3 2).
  - exact FlatIndexFacts.search_exact.
  - exact sample_synced.
  - exact sample_distinct.
  - vm_compute. reflexivity.
Defined.

(** ** The states the service reaches

    The hypotheses on the state made below hold after any
    sequence of [add_embeddings] calls on a fresh service in which every
    batch comes with one new identifier per row. *)

Lemma init_index_matches_metric (dim : nat) (m : string) :
  index_matches_metric (KNNService.init dim m).
Proof.
  unfold index_matches_metric, KNNService.init, KNNService.is_cosine. simpl.
  destruct (String.eqb m "cosine"); reflexivity.
Qed.

Lemma add_embeddings_index_matches_metric
      (normalize_L2 : vec -> vec) (self s' : KNNService.t) (shape1 : nat)
      (embs : matrix) (new_ids : list string) :
  index_matches_metric self ->
  KNNService.add_embeddings normalize_L2 self shape1 embs new_ids = Ok s' ->
  index_matches_metric s'.
Proof.
  unfold index_matches_metric, KNNService.add_embeddings, KNNService.is_cosine.
  intros Hm. destruct (negb (shape1 =? KNNService.embedding_dim self)%nat);
    [discriminate|].
  intros H. inversion H; subst. simpl. exact Hm.
Qed.

Lemma add_embeddings_synced
      (normalize_L2 : vec -> vec) (self s' : KNNService.t) (shape1 : nat)
      (embs : matrix) (new_ids : list string) :
  synced self \/
  (KNNService.embeddings self = None /\ KNNService.ids self = [] /\
   Faiss.xb (KNNService.index self) = []) ->
  length embs = length new_ids ->
  KNNService.add_embeddings normalize_L2 self shape1 embs new_ids = Ok s' ->
  synced s'.
Proof.
  intros Hself Hlen. unfold KNNService.add_embeddings.
  destruct (negb (shape1 =? KNNService.embedding_dim self)%nat);
    [discriminate|].
  intros H. inversion H; subst. clear H. unfold synced, Faiss.ntotal. simpl.
  set (embs' := if KNNService.is_cosine self then map normalize_L2 embs
                else embs).
  assert (L : length embs' = length embs).
  { unfold embs'. destruct (KNNService.is_cosine self); auto.
    apply length_map. }
  destruct Hself as [[old [He [Lo Ln]]] | [He [Hi Hx]]].
  - rewrite He. eexists. split; [reflexivity|].
    unfold Faiss.ntotal in Ln. rewrite !length_app. lia.
  - rewrite He, Hi, Hx. eexists. split; [reflexivity|]. simpl. lia.
Qed.

Lemma add_embeddings_distinct
      (normalize_L2 : vec -> vec) (self s' : KNNService.t) (shape1 : nat)
      (embs : matrix) (new_ids : list string) :
  NoDup (KNNService.ids self) -> NoDup new_ids ->
  (forall id, In id new_ids -> ~ In id (KNNService.ids self)) ->
  KNNService.add_embeddings normalize_L2 self shape1 embs new_ids = Ok s' ->
  NoDup (KNNService.ids s').
Proof.
  intros Hold Hnew Hfresh. unfold KNNService.add_embeddings.
  destruct (negb (shape1 =? KNNService.embedding_dim self)%nat);
    [discriminate|].
  intros H. inversion H; subst. simpl.
  apply NoDup_app; auto. intros id Hin Hin'. exact (Hfresh id Hin' Hin).
Qed.

(** ** The graph against the answers of the index *)

Lemma adjacency_kept_edges (self : KNNService.t) (k : nat) (node_id : string)
      (names : list string) (dists : list Q) :
  firstn k (KNNService.neighbors_of self node_id (combine names dists))
  = kept_edges (KNNService.is_cosine self) k node_id names dists.
Proof.
  unfold KNNService.neighbors_of, kept_edges, other_hits, hit_weight,
    KNNService.weight_of.
  rewrite firstn_map.
  rewrite (filter_ext (fun '(nid, _) => negb (String.eqb nid node_id))
                      (fun hit : string * Q => negb (String.eqb (fst hit) node_id)))
    by (intros [nid dist]; reflexivity).
  apply map_ext. intros [nid dist]. reflexivity.
Qed.

Lemma mapM_getitem_positions (l : list string) :
  forall (row : list nat) (names : list string),
    mapM (getitem l) row = Ok names ->
    Forall2 (fun name idx => nth_error l idx = Some name) names row.
Proof.
  induction row as [|idx row IH]; simpl; intros names H.
  - inversion H; subst. constructor.
  - destruct (getitem l idx) as [name|] eqn:E1; simpl in H; [|discriminate].
    destruct (mapM (getitem l) row) as [rest|] eqn:E2; simpl in H;
      [|discriminate].
    inversion H; subst. constructor; [apply getitem_inv; exact E1|].
    apply IH. reflexivity.
Qed.

Lemma search_batch_rows
      (normalize_L2 : vec -> vec) (index_search : Faiss.search_fn)
      (self : KNNService.t) (embs : matrix) (k : nat)
      (nl : list (list string)) (dl : list (list Q)) :
  KNNService.search_batch normalize_L2 index_search self embs
    (Faiss.d (KNNService.index self)) (Z.of_nat k) = Ok (nl, dl) ->
  (Faiss.ntotal (KNNService.index self) = 0%nat /\
   nl = map (fun _ => []) embs /\ dl = map (fun _ => []) embs) \/
  (Faiss.ntotal (KNNService.index self) <> 0%nat /\
   exists distances indices,
     index_search (KNNService.index self)
                  (if KNNService.is_cosine self then map normalize_L2 embs
                   else embs)
                  (Nat.min k (Faiss.ntotal (KNNService.index self)))
       = (distances, indices) /\
     mapM (mapM (getitem (KNNService.ids self))) indices = Ok nl /\
     dl = distances).
Proof.
  intros Hsb.
  destruct (search_batch_inv _ _ _ _ _ _ _ _ Hsb)
    as [H0|(E0 & _ & _ & D & I & Hi & Hm & Edl)]; [left; exact H0|].
  right. split; [exact E0|]. exists D, I.
  replace (Z.to_nat (Z.min (Z.of_nat k)
                           (Z.of_nat (Faiss.ntotal (KNNService.index self)))))
    with (Nat.min k (Faiss.ntotal (KNNService.index self))) in Hi by lia.
  auto.
Qed.

Lemma mapM_rows_positions (l : list string) :
  forall (rows : list (list nat)) (nl : list (list string)),
    mapM (mapM (getitem l)) rows = Ok nl ->
    forall i names, nth_error nl i = Some names ->
      exists row, nth_error rows i = Some row /\
                  Forall2 (fun name idx => nth_error l idx = Some name) names row.
Proof.
  induction rows as [|row rows IH]; simpl; intros nl H i names Hi.
  - inversion H; subst. destruct i; discriminate.
  - destruct (mapM (getitem l) row) as [ns|] eqn:E1; simpl in H; [|discriminate].
    destruct (mapM (mapM (getitem l)) rows) as [rest|] eqn:E2; simpl in H;
      [|discriminate].
    inversion H; subst. destruct i as [|i]; simpl in Hi.
    + inversion Hi; subst. exists row. split; [reflexivity|].
      apply (mapM_getitem_positions _ _ _ E1).
    + apply (IH rest eq_refl i names Hi).
Qed.

(** The rows the batch search of [build_knn_graph] holds are rows of the
    answer of the index. *)
Lemma search_batch_search_row
      (normalize_L2 : vec -> vec) (index_search : Faiss.search_fn)
      (self : KNNService.t) (embs : matrix) (k i : nat)
      (nl : list (list string)) (dl : list (list Q))
      (names : list string) (dists : list Q) :
  KNNService.embeddings self = Some embs ->
  KNNService.search_batch normalize_L2 index_search self embs
    (Faiss.d (KNNService.index self)) (Z.of_nat (k + 1)) = Ok (nl, dl) ->
  nth_error nl i = Some names -> nth_error dl i = Some dists ->
  search_row normalize_L2 index_search self k i names dists.
Proof.
  intros He Hsb Hn Hd. exists embs. split; [exact He|].
  destruct (search_batch_rows _ _ _ _ _ _ _ Hsb)
    as [(E0 & Enl & Edl)|(E0 & D & I & Hi & Hm & Edl)].
  - left. split; [exact E0|]. subst nl dl.
    apply nth_error_In in Hn. apply nth_error_In in Hd.
    apply in_map_iff in Hn. apply in_map_iff in Hd.
    destruct Hn as [? [Hn _]]. destruct Hd as [? [Hd _]]. auto.
  - right. split; [exact E0|]. subst dl.
    destruct (mapM_rows_positions _ _ _ Hm i names Hn) as [row [Hr Hf]].
    exists D, I, row. auto.
Qed.

(** ** Repeated identifiers *)

(** The index accepts an identifier twice.  With identifiers [a, a, b] on
    three stored vectors and [k = 2], the graph has the entries [a: [b]]
    and [b: [a, a]]: node [a] has one edge although the index holds
    [k + 1] vectors. *)
Lemma build_knn_graph_repeated_ids_fewer_edges :
  exists g,
    KNNService.ids Samples.repeated_ids = ["a"; "a"; "b"]%string /\
    Faiss.ntotal (KNNService.index Samples.repeated_ids) = 3%nat /\
    Samples.build Samples.repeated_ids 2 = Ok g /\
    map (fun entry => (fst entry, map KNNService.target (snd entry))) g
      = [("a", ["b"]); ("b", ["a"; "a"])]%string /\
    ~ (forall entry, In entry g -> (length (snd entry) < 2)%nat ->
                     (length (KNNService.ids Samples.repeated_ids) < 2 + 1)%nat).
Proof.
  eexists. split; [reflexivity|]. split; [reflexivity|].
  split; [vm_compute; reflexivity|]. split; [reflexivity|].
  intros H. specialize (H _ (or_introl eq_refl)). simpl in H. lia.
Qed.

(** The same state against "exactly [k] outgoing edges for [n >= k + 1]
    vectors". *)
Lemma build_knn_graph_repeated_ids_not_exactly_k :
  exists g nbrs,
    (2 + 1 <= Faiss.ntotal (KNNService.index Samples.repeated_ids))%nat /\
    (2 + 1 <= length (KNNService.ids Samples.repeated_ids))%nat /\
    Samples.build Samples.repeated_ids 2 = Ok g /\
    dict_get g "a" = Some nbrs /\ length nbrs = 1%nat /\ length nbrs <> 2%nat.
Proof.
  eexists. eexists.
  split; [apply Nat.leb_le; reflexivity|].
  split; [apply Nat.leb_le; reflexivity|].
  split; [vm_compute; reflexivity|]. split; [reflexivity|].
  split; [reflexivity|discriminate].
Qed.

(** ** Exactly [k] edges *)

(** C4, as amended.  On an index whose identifiers are pairwise distinct,
    one per stored vector and at least [k + 1] of them, and whose search
    returns the requested number of distinct valid positions,
    [build_knn_graph(k)] succeeds with one entry per identifier, in order.
    The entry of the node at position [i] is made of the answer of the
    index for stored row [i] and [k + 1] neighbours: [k + 1] names and
    scores, among which the node's own identifier occurs at most once; the
    hits with that identifier are removed and the first [k] of the others
    are kept in the order of the answer, with their weights; there are
    exactly [k] of them. *)
Theorem build_knn_graph_keeps_first_k_others
        (normalize_L2 : vec -> vec) (index_search : Faiss.search_fn)
        (self : KNNService.t) (k : nat) :
  exact_search index_search ->
  synced self -> NoDup (KNNService.ids self) ->
  (k + 1 <= length (KNNService.ids self))%nat ->
  exists g,
    KNNService.build_knn_graph normalize_L2 index_search self k = Ok g /\
    dict_keys g = KNNService.ids self /\
    Nat.min (k + 1) (Faiss.ntotal (KNNService.index self)) = (k + 1)%nat /\
    forall i node_id,
      nth_error (KNNService.ids self) i = Some node_id ->
      exists names dists,
        search_row normalize_L2 index_search self k i names dists /\
        length names = (k + 1)%nat /\ length dists = (k + 1)%nat /\
        (count_occ string_dec names node_id <= 1)%nat /\
        dict_get g node_id =
          Some (kept_edges (KNNService.is_cosine self) k node_id names dists) /\
        length (kept_edges (KNNService.is_cosine self) k node_id names dists) = k.
Proof.
  intros Hsearch Hsync Hnd Hk.
  destruct (build_knn_graph_shape normalize_L2 index_search Hsearch self k
              Hsync Hnd ltac:(lia))
    as [embs [nl [dl [He [Hsb [Lnl [Ldl [Hrows Hg]]]]]]]].
  eexists. split; [exact Hg|]. split.
  { unfold dict_keys. rewrite map_map. simpl. apply enumerate_keys. }
  split.
  { destruct Hsync as [embs' [_ [_ Hn]]]. rewrite Hn. lia. }
  intros i node_id Hi.
  assert (Hlt : (i < length (KNNService.ids self))%nat)
    by (apply nth_error_Some; congruence).
  destruct (Hrows i Hlt) as [L1 [L2 [N1 _]]].
  rewrite Nat.min_l in L1, L2 by lia.
  exists (nth i nl []), (nth i dl []).
  split.
  { apply (search_batch_search_row normalize_L2 index_search self embs k i nl dl);
      auto; apply nth_error_nth'; lia. }
  split; [exact L1|]. split; [exact L2|]. split.
  { apply (proj1 (NoDup_count_occ string_dec (nth i nl [])) N1). }
  rewrite <- adjacency_kept_edges. split.
  - apply (dict_get_map_fresh snd
             (fun node => adjacency self k nl dl (fst node) (snd node))
             (enumerate (KNNService.ids self)) (i, node_id)).
    + rewrite enumerate_keys. exact Hnd.
    + apply enumerate_in. exact Hi.
  - apply (adjacency_full self k (k + 1) nl dl i node_id); auto.
Qed.

Lemma build_knn_graph_keeps_first_k_others_witness :
  exists g,
    KNNService.build_knn_graph Samples.unit_normalize FlatIndex.search
                               Samples.euclid3 2 = Ok g /\
    dict_keys g = KNNService.ids Samples.euclid3 /\
    Nat.min (2 + 1) (Faiss.ntotal (KNNService.index Samples.euclid3)) = (2 + 1)%nat /\
    forall i node_id,
      nth_error (KNNService.ids Samples.euclid3) i = Some node_id ->
      exists names dists,
        search_row Samples.unit_normalize FlatIndex.search Samples.euclid3 2 i
                   names dists /\
        length names = (2 + 1)%nat /\ length dists = (2 + 1)%nat /\
        (count_occ string_dec names node_id <= 1)%nat /\
        dict_get g node_id =
          Some (kept_edges (KNNService.is_cosine Samples.euclid3) 2 node_id
                           names dists) /\
        length (kept_edges (KNNService.is_cosine Samples.euclid3) 2 node_id
                           names dists) = 2%nat.
Proof.
  apply (build_knn_graph_keeps_first_k_others Samples.unit_normalize
           FlatIndex.search Samples.euclid3 2).
  - exact FlatIndexFacts.search_exact.
  - exists [[0; 0]; [3; 0]; [0; 1]]. repeat split.
  - repeat constructor; simpl; intuition discriminate.
  - simpl. lia.
Defined.

(** ** Every edge against the scores of the search *)

Lemma dict_set_In {V : Type} (d : list (string * V)) (key : string) (v : V) :
  forall e, In e (dict_set d key v) -> e = (key, v) \/ In e d.
Proof.
  induction d as [|[k0 v0] d IH]; simpl; intros e He.
  - destruct He as [<-|[]]. left. reflexivity.
  - destruct (String.eqb_spec k0 key) as [E|E]; simpl in He.
    + destruct He as [<-|He]; [left; subst; reflexivity|right; right; exact He].
    + destruct He as [<-|He]; [right; left; reflexivity|].
      destruct (IH e He) as [H|H]; [left; exact H|right; right; exact H].
Qed.

(** Every entry the loop leaves in the graph was there before or was made
    for one of the nodes, from the rows the search has at the node's
    position. *)
Lemma build_loop_entries (self : KNNService.t) (k : nat)
      (nl : list (list string)) (dl : list (list Q)) :
  forall nodes g g',
    KNNService.build_loop self k nl dl nodes g = Ok g' ->
    forall entry, In entry g' ->
      In entry g \/
      exists i names dists,
        In (i, fst entry) nodes /\
        nth_error nl i = Some names /\ nth_error dl i = Some dists /\
        snd entry = firstn k (KNNService.neighbors_of self (fst entry)
                                                      (combine names dists)).
Proof.
  induction nodes as [|[i node_id] nodes IH]; simpl; intros g g' Hrun entry He.
  - inversion Hrun; subst. left. exact He.
  - destruct (getitem nl i) as [row_ids|] eqn:E1; simpl in Hrun; [|discriminate].
    destruct (getitem dl i) as [row_dist|] eqn:E2; simpl in Hrun; [|discriminate].
    destruct (IH _ _ Hrun entry He) as [Hin|(j & names & dists & Hj & Hn & Hd & Hs)].
    + apply dict_set_In in Hin. destruct Hin as [->|Hin]; [|left; exact Hin].
      right. exists i, row_ids, row_dist. simpl.
      split; [left; reflexivity|]. split; [apply getitem_inv; exact E1|].
      split; [apply getitem_inv; exact E2|reflexivity].
    + right. exists j, names, dists. auto.
Qed.

Lemma dict_set_keeps_keys {V : Type} (d : list (string * V)) (key : string)
      (v : V) :
  incl (dict_keys d) (dict_keys (dict_set d key v)).
Proof.
  induction d as [|[k0 v0] d IH]; simpl; intros x Hx; [contradiction|].
  destruct (String.eqb k0 key); simpl; destruct Hx as [<-|Hx]; auto.
Qed.

Lemma dict_set_has_key {V : Type} (d : list (string * V)) (key : string) (v : V) :
  In key (dict_keys (dict_set d key v)).
Proof.
  induction d as [|[k0 v0] d IH]; simpl; [left; reflexivity|].
  destruct (String.eqb_spec k0 key) as [E|E]; simpl; auto.
Qed.

Lemma build_loop_covers (self : KNNService.t) (k : nat)
      (nl : list (list string)) (dl : list (list Q)) :
  forall nodes g g',
    KNNService.build_loop self k nl dl nodes g = Ok g' ->
    incl (dict_keys g ++ map snd nodes) (dict_keys g').
Proof.
  induction nodes as [|[i node_id] nodes IH]; simpl; intros g g' Hrun.
  - inversion Hrun; subst. rewrite app_nil_r. apply incl_refl.
  - destruct (getitem nl i) as [row_ids|]; simpl in Hrun; [|discriminate].
    destruct (getitem dl i) as [row_dist|]; simpl in Hrun; [|discriminate].
    intros x Hx. apply (IH _ _ Hrun). apply in_or_app.
    apply in_app_or in Hx. destruct Hx as [Hx|[<-|Hx]].
    + left. apply dict_set_keeps_keys. exact Hx.
    + left. apply dict_set_has_key.
    + right. exact Hx.
Qed.

Lemma neighbors_of_other_hits (self : KNNService.t) (node_id : string)
      (names : list string) (dists : list Q) :
  KNNService.neighbors_of self node_id (combine names dists)
  = map (fun hit => KNNService.mkNeighbor
                      (fst hit)
                      (hit_weight (KNNService.is_cosine self) (snd hit)))
        (other_hits node_id names dists).
Proof.
  unfold KNNService.neighbors_of, other_hits, hit_weight, KNNService.weight_of.
  rewrite (filter_ext (fun '(nid, _) => negb (String.eqb nid node_id))
                      (fun hit : string * Q => negb (String.eqb (fst hit) node_id)))
    by (intros [nid dist]; reflexivity).
  apply map_ext. intros [nid dist]. reflexivity.
Qed.

(** With scores best first, the first edge kept is at least as heavy as
    every hit that is not the node itself. *)
Lemma kept_edges_first_best (self : KNNService.t) (k : nat) (node_id : string)
      (names : list string) (dists : list Q)
      (first : KNNService.neighbor) (rest : list KNNService.neighbor) :
  best_first (KNNService.is_cosine self) dists ->
  kept_edges (KNNService.is_cosine self) k node_id names dists = first :: rest ->
  forall hit, In hit (other_hits node_id names dists) ->
    hit_weight (KNNService.is_cosine self) (snd hit) <= KNNService.weight first.
Proof.
  intros Hbest Hk hit Hin.
  pose proof (neighbors_of_descend self node_id names dists Hbest) as Hs.
  rewrite neighbors_of_other_hits in Hs.
  unfold kept_edges in Hk. rewrite <- firstn_map in Hk.
  set (f := fun hit : string * Q =>
              KNNService.mkNeighbor
                (fst hit) (hit_weight (KNNService.is_cosine self) (snd hit)))
    in *.
  assert (Hf : In (f hit) (map f (other_hits node_id names dists)))
    by (apply in_map; exact Hin).
  destruct (map f (other_hits node_id names dists)) as [|e l] eqn:El.
  - destruct k; discriminate.
  - destruct k as [|k]; [discriminate|]. simpl in Hk.
    injection Hk as He _. subst e.
    unfold weights_descend in Hs. inversion Hs as [|? ? _ Hall]; subst.
    destruct Hf as [Hf|Hf].
    + rewrite Hf. simpl. apply Qle_refl.
    + rewrite Forall_forall in Hall. apply (Hall _ Hf).
Qed.

(** C10, as amended.  Let the index return its hits best first (inner
    products descending; squared distances ascending and not negative) and
    be of the kind of the metric of the service.  Then every entry of a
    graph that [build_knn_graph(k)] returns belongs to an identifier at
    some position [i], and is made of the answer of the index for the
    stored row [i]: the hits whose identifier is not the node's, the first
    [k] of them in the order of the answer, each with the weight its score
    gives (the similarity itself under the cosine metric,
    [1 / (1 + distance)] otherwise).  The weights of the entry do not
    increase along the list, and its first edge is at least as heavy as
    every hit of that answer that is not the node itself.  Every
    identifier of the service has an entry. *)
Theorem build_knn_graph_edges_follow_scores
        (normalize_L2 : vec -> vec) (index_search : Faiss.search_fn)
        (self : KNNService.t) (k : nat) (g : KNNService.graph) :
  ranked_search index_search ->
  index_matches_metric self ->
  KNNService.build_knn_graph normalize_L2 index_search self k = Ok g ->
  (KNNService.embeddings self <> None ->
   incl (KNNService.ids self) (dict_keys g)) /\
  forall node_id nbrs, In (node_id, nbrs) g ->
    exists i names dists,
      nth_error (KNNService.ids self) i = Some node_id /\
      search_row normalize_L2 index_search self k i names dists /\
      best_first (KNNService.is_cosine self) dists /\
      nbrs = kept_edges (KNNService.is_cosine self) k node_id names dists /\
      weights_descend nbrs /\
      forall first rest, nbrs = first :: rest ->
        forall hit, In hit (other_hits node_id names dists) ->
          hit_weight (KNNService.is_cosine self) (snd hit)
          <= KNNService.weight first.
Proof.
  intros Hranked Hmetric Hrun.
  unfold KNNService.build_knn_graph in Hrun.
  destruct (KNNService.embeddings self) as [embs|] eqn:He.
  2:{ inversion Hrun; subst. split; [intros H; contradiction|].
      intros node_id nbrs []. }
  destruct (Nat.eqb_spec (length (KNNService.ids self)) 0) as [E0|E0].
  { inversion Hrun; subst. split; [|intros node_id nbrs []].
    intros _. destruct (KNNService.ids self); [intros x []|discriminate]. }
  destruct (KNNService.search_batch normalize_L2 index_search self embs
              (Faiss.d (KNNService.index self)) (Z.of_nat (k + 1)))
    as [[nl dl]|] eqn:Hsb; simpl in Hrun; [|discriminate].
  split.
  - intros _ x Hx. apply (build_loop_covers _ _ _ _ _ _ _ Hrun). simpl.
    rewrite enumerate_keys. exact Hx.
  - intros node_id nbrs Hin.
    destruct (build_loop_entries _ _ _ _ _ _ _ Hrun _ Hin)
      as [[]|(i & names & dists & Hi & Hn & Hd & Hs)].
    simpl in Hi, Hs. apply enumerate_in in Hi.
    assert (Hbest : best_first (KNNService.is_cosine self) dists).
    { pose proof (search_batch_ranked _ _ _ _ _ _ _ _ Hranked Hsb) as Hall.
      rewrite Forall_forall in Hall. rewrite <- Hmetric.
      apply Hall. eapply nth_error_In; eauto. }
    rewrite adjacency_kept_edges in Hs.
    exists i, names, dists. split; [exact Hi|]. split.
    { apply (search_batch_search_row normalize_L2 index_search self embs k i
               nl dl); auto. }
    split; [exact Hbest|]. split; [exact Hs|]. split.
    + rewrite Hs, <- adjacency_kept_edges.
      apply StronglySorted_firstn. apply neighbors_of_descend. exact Hbest.
    + intros first rest Hfr. rewrite Hs in Hfr.
      apply (kept_edges_first_best self k node_id names dists first rest Hbest Hfr).
Qed.

Lemma build_knn_graph_edges_follow_scores_witness :
  exists g,
    Samples.build Samples.euclid3 2 = Ok g /\
    (KNNService.embeddings Samples.euclid3 <> None ->
     incl (KNNService.ids Samples.euclid3) (dict_keys g)) /\
    forall node_id nbrs, In (node_id, nbrs) g ->
      exists i names dists,
        nth_error (KNNService.ids Samples.euclid3) i = Some node_id /\
        search_row Samples.unit_normalize FlatIndex.search Samples.euclid3 2 i
                   names dists /\
        best_first (KNNService.is_cosine Samples.euclid3) dists /\
        nbrs = kept_edges (KNNService.is_cosine Samples.euclid3) 2 node_id
                          names dists /\
        weights_descend nbrs /\
        forall first rest, nbrs = first :: rest ->
          forall hit, In hit (other_hits node_id names dists) ->
            hit_weight (KNNService.is_cosine Samples.euclid3) (snd hit)
            <= KNNService.weight first.
Proof.
  eexists. split; [vm_compute; reflexivity|].
  apply (build_knn_graph_edges_follow_scores Samples.unit_normalize
           FlatIndex.search Samples.euclid3 2).
  - exact FlatIndexFacts.search_ranked.
  - reflexivity.
  - vm_compute. reflexivity.
Defined.

(** ** The document of every graph *)

(** C9, as amended.  For every graph, the document of [save_graph] holds
    the flat edge list (one edge per neighbour of every entry, with its
    source, target and weight), the number of entries as node count, the
    length of the edge list as edge count, and, as [k], the out-degree of
    the first entry (0 for an empty graph): the saver is not given the [k]
    of the build.  When the graph comes from [build_knn_graph(k)] on an
    index whose identifiers are pairwise distinct and one per stored
    vector, with a search that returns the requested number of distinct
    valid positions, the node count is the number of identifiers; and if
    there are at least [k + 1] of them, the saved [k] is the [k] of the
    build and the edge count is [k] times the node count. *)
Theorem save_graph_document (g : KNNService.graph) :
  let doc := KNNService.save_graph_output g in
  KNNService.edges doc = KNNService.edge_list g /\
  (forall e, In e (KNNService.edges doc) <->
             exists nbrs nb, In (KNNService.e_source e, nbrs) g /\ In nb nbrs /\
                             KNNService.e_target e = KNNService.target nb /\
                             KNNService.e_weight e = KNNService.weight nb) /\
  KNNService.num_nodes doc = length g /\
  KNNService.num_edges doc = length (KNNService.edges doc) /\
  KNNService.num_edges doc =
    list_sum (map (fun entry => length (snd entry)) g) /\
  KNNService.doc_k doc = length (snd (hd (EmptyString, []) g)) /\
  forall (normalize_L2 : vec -> vec) (index_search : Faiss.search_fn)
         (self : KNNService.t) (k : nat),
    exact_search index_search ->
    synced self -> NoDup (KNNService.ids self) ->
    KNNService.build_knn_graph normalize_L2 index_search self k = Ok g ->
    KNNService.num_nodes doc = length (KNNService.ids self) /\
    ((k + 1 <= length (KNNService.ids self))%nat ->
     KNNService.doc_k doc = k /\
     KNNService.num_edges doc = (length (KNNService.ids self) * k)%nat).
Proof.
  intros doc. subst doc.
  split; [reflexivity|]. split; [|split; [reflexivity|split; [reflexivity|]]].
  - intros [s t w]. simpl. unfold KNNService.edge_list.
    rewrite in_flat_map. split.
    + intros [[source nbrs] [Hin He]]. apply in_map_iff in He.
      destruct He as [nb [E Hnb]]. inversion E; subst.
      exists nbrs, nb. auto.
    + intros [nbrs [nb [Hin [Hnb [Et Ew]]]]].
      exists (s, nbrs). split; auto. apply in_map_iff.
      exists nb. split; auto. simpl. congruence.
  - split; [apply edge_list_length|]. split.
    + simpl. destruct g as [|[source nbrs] g']; reflexivity.
    + intros normalize_L2 index_search self k Hsearch Hsync Hnd Hrun.
      destruct (save_graph_output_counters normalize_L2 index_search self k g
                  Hsearch Hsync Hnd Hrun) as (_ & _ & Hn & _ & _ & Hk).
      split; [exact Hn|exact Hk].
Qed.

Lemma save_graph_document_witness :
  exists g,
    Samples.build Samples.euclid3 2 = Ok g /\
    KNNService.num_nodes (KNNService.save_graph_output g) = 3%nat /\
    KNNService.doc_k (KNNService.save_graph_output g) = 2%nat /\
    KNNService.num_edges (KNNService.save_graph_output g) = 6%nat.
Proof.
  eexists. split; [vm_compute; reflexivity|].
  match goal with
  | |- context [KNNService.save_graph_output ?g] =>
      destruct (save_graph_document g) as (_ & _ & _ & _ & _ & _ & H);
      destruct (H Samples.unit_normalize FlatIndex.search Samples.euclid3 2%nat
                  FlatIndexFacts.search_exact sample_synced sample_distinct)
        as [Hn Hk]; [vm_compute; reflexivity|];
      destruct Hk as [Hk He]; [simpl; lia|]
  end.
  split; [exact Hn|]. split; [exact Hk|exact He].
Defined.

(** ** The normalisation in binary64 *)

#[local] Set Warnings "-inexact-float".

(** C2.  In binary64 the normalised batch leaves the cube.  For the two
    adjacent floats 1 and 1 + 2^-52 the sum of minimum and maximum rounds
    to 2, the midpoint is the minimum itself, and the maximum is sent to
    [2 * scale]: 20 for [scale = 10].  For 0.1 and 0.2 one output is below
    [-scale] and the other below [scale], so that no coordinate is
    [-scale] or [scale] and the longest side is not [2 * scale]. *)
Theorem normalize_coords_leaves_the_cube :
  Binary64.get_bounds Samples.adjacent_floats
    = Ok ([1%float], [0x1.0000000000001p+0%float]) /\
  PrimFloat.ltb 1%float 0x1.0000000000001p+0%float = true /\
  Binary64.normalize_coords Samples.adjacent_floats 10%float
    = Ok [[0%float]; [20%float]] /\
  PrimFloat.ltb 10%float 20%float = true /\
  Binary64.normalize_coords Samples.tenths 10%float
    = Ok [[(-10.000000000000002)%float]; [9.9999999999999982%float]] /\
  PrimFloat.ltb (-10.000000000000002)%float (-10)%float = true /\
  PrimFloat.ltb 9.9999999999999982%float 10%float = true.
Proof. repeat split; vm_compute; reflexivity. Qed.



(** A squared distance of 2^-67 and a squared distance of 0 get the same
    weight 1: the weight is not strictly decreasing in the distance. *)
Lemma euclidean_weight_ties :
  PrimFloat.ltb 0%float 0x1p-67%float = true /\
  Binary64.weight_of false 0%float = 1%float /\
  Binary64.weight_of false 0x1p-67%float = 1%float.
Proof. repeat split; vm_compute; reflexivity. Qed.

#[local] Set Warnings "+inexact-float".

(** ** The normalisation for any rounding *)


Lemma round_err (fl : Q -> option Q) (x : Q) (e : error) :
  Rounded.round fl x = Err e -> e = NonFinite /\ fl x = None.
Proof.
  unfold Rounded.round. destruct (fl x); intros H; inversion H; auto.
Qed.







(** ** Two roundings *)

Lemma rounding_exact : rounding Rounded.exact.
Proof.
  constructor; unfold Rounded.exact, representable.
  - intros x y a Hxy H. inversion H; subst. exists y. split; [reflexivity|].
    symmetry. exact Hxy.
  - intros x y a b Hxy Ha Hb. inversion Ha; inversion Hb; subst. exact Hxy.
  - intros x a H. exists a. split; reflexivity.
  - intros x a H. inversion H; subst. exists (- a). split; reflexivity.
  - exists 0. split; reflexivity.
  - exists 1. split; reflexivity.
  - intros x b _ H. inversion H. reflexivity.
  - intros x y a H. discriminate H.
Qed.

(** Rounding toward zero to a multiple of 1/4. *)
Local Abbreviation toward_zero x :=
  (if Qle_bool 0 x then inject_Z (Qfloor (x * 4)) / 4
   else inject_Z (Qceiling (x * 4)) / 4).
















(** ** Facts that hold for every rounding *)

Section Rounding.

Variable fl : Q -> option Q.
Hypothesis Hfl : rounding fl.









End Rounding.



(** ** Coinciding points under rounding *)



(** * Further properties of the services *)

(** ** Searches *)

Lemma mapM_getitem_incl (l : list string) :
  forall (row : list nat) (names : list string),
    mapM (getitem l) row = Ok names -> incl names l /\ length names = length row.
Proof.
  induction row as [|idx row IH]; simpl; intros names H.
  - inversion H; subst. split; [intros x []|reflexivity].
  - destruct (getitem l idx) as [name|] eqn:E1; simpl in H; [|discriminate].
    destruct (mapM (getitem l) row) as [rest|] eqn:E2; simpl in H;
      [|discriminate].
    inversion H; subst. destruct (IH rest eq_refl) as [Hincl Hlen].
    split; [|simpl; congruence].
    intros x [<-|Hx]; auto.
    apply getitem_inv in E1. eapply nth_error_In; eauto.
Qed.

Lemma mapM_rows_incl (l : list string) :
  forall (rows : list (list nat)) (nl : list (list string)),
    mapM (mapM (getitem l)) rows = Ok nl ->
    length nl = length rows /\ Forall (fun names => incl names l) nl.
Proof.
  induction rows as [|row rows IH]; simpl; intros nl H.
  - inversion H; subst. split; [reflexivity|constructor].
  - destruct (mapM (getitem l) row) as [names|] eqn:E1; simpl in H;
      [|discriminate].
    destruct (mapM (mapM (getitem l)) rows) as [rest|] eqn:E2; simpl in H;
      [|discriminate].
    inversion H; subst. destruct (IH rest eq_refl) as [Hlen Hall].
    split; [simpl; congruence|]. constructor; auto.
    apply (mapM_getitem_incl l row names E1).
Qed.

Lemma faiss_search_inv (index_search : Faiss.search_fn) (ix : Faiss.Index)
      (x : matrix) (shape1 : nat) (k : Z) (ans : list (list Q) * list (list nat)) :
  Faiss.search index_search ix x shape1 k = Ok ans ->
  shape1 = Faiss.d ix /\ (0 < k)%Z /\ ans = index_search ix x (Z.to_nat k).
Proof.
  unfold Faiss.search.
  destruct (Nat.eqb_spec shape1 (Faiss.d ix)) as [Ed|Ed]; simpl; [|discriminate].
  destruct (Z.ltb_spec 0 k) as [Hk|Hk]; simpl; [|discriminate].
  intros H. inversion H. auto.
Qed.

Lemma faiss_search_accepts (index_search : Faiss.search_fn) (ix : Faiss.Index)
      (x : matrix) (shape1 : nat) (k : Z) :
  shape1 = Faiss.d ix -> (0 < k)%Z ->
  Faiss.search index_search ix x shape1 k = Ok (index_search ix x (Z.to_nat k)).
Proof.
  intros Ed Hk. unfold Faiss.search.
  rewrite (proj2 (Nat.eqb_eq _ _) Ed). simpl.
  rewrite (proj2 (Z.ltb_lt _ _) Hk). reflexivity.
Qed.

Lemma faiss_search_refuses (index_search : Faiss.search_fn) (ix : Faiss.Index)
      (x : matrix) (shape1 : nat) (k : Z) :
  shape1 <> Faiss.d ix \/ (k <= 0)%Z ->
  Faiss.search index_search ix x shape1 k = Err AssertionError.
Proof.
  intros H. unfold Faiss.search.
  destruct (Nat.eqb_spec shape1 (Faiss.d ix)) as [Ed|Ed]; simpl; [|reflexivity].
  destruct (Z.ltb_spec 0 k) as [Hk|Hk]; simpl; [|reflexivity].
  destruct H as [H|H]; [contradiction|lia].
Qed.

Lemma search_ok_facts
        (normalize_L2 : vec -> vec) (index_search : Faiss.search_fn)
        (self : KNNService.t) (query : vec) (k : Z)
        (names : list string) (dists : list Q) :
  KNNService.search normalize_L2 index_search self query k = Ok (names, dists) ->
  incl names (KNNService.ids self) /\
  (Faiss.ntotal (KNNService.index self) = 0%nat -> names = [] /\ dists = []) /\
  (Faiss.ntotal (KNNService.index self) <> 0%nat ->
   length query = Faiss.d (KNNService.index self) /\ (0 < k)%Z /\
   exists distances indices row,
     index_search (KNNService.index self)
                  (if KNNService.is_cosine self then [normalize_L2 query]
                   else [query])
                  (Z.to_nat (Z.min k (Z.of_nat (Faiss.ntotal (KNNService.index self)))))
       = (distances, indices) /\
     nth_error indices 0 = Some row /\
     nth_error distances 0 = Some dists /\
     Forall2 (fun name idx => nth_error (KNNService.ids self) idx = Some name)
             names row).
Proof.
  unfold KNNService.search.
  destruct (Faiss.ntotal (KNNService.index self) =? 0)%nat eqn:E0.
  - intros H. inversion H; subst. split; [intros x []|].
    split; [auto|]. intros Hz. apply Nat.eqb_eq in E0. contradiction.
  - destruct (Faiss.search index_search _ _ _ _) as [[D I]|e] eqn:Es; simpl;
      [|discriminate].
    apply faiss_search_inv in Es. destruct Es as [Ed [Hk Ea]].
    destruct (getitem I 0) as [row|] eqn:Er; simpl; [|discriminate].
    destruct (mapM (getitem (KNNService.ids self)) row) as [ns|] eqn:E1; simpl;
      [|discriminate].
    destruct (getitem D 0) as [drow|] eqn:Ed0; simpl; [|discriminate].
    intros H. inversion H; subst. split; [|split].
    + apply (mapM_getitem_incl _ _ _ E1).
    + intros Hz. apply Nat.eqb_neq in E0. contradiction.
    + intros _. split; [exact Ed|]. split; [lia|].
      exists D, I, row. split; [|split; [|split]].
      * rewrite Ea. destruct (KNNService.is_cosine self); reflexivity.
      * exact (getitem_inv _ _ _ Er).
      * exact (getitem_inv _ _ _ Ed0).
      * apply (mapM_getitem_positions _ _ _ E1).
Qed.

(** Whatever the index answers: on an empty index every search returns two
    empty lists; and a search that returns on any other index has passed
    the assertions of the FAISS wrapper (the query has the dimension of the
    index and the count is positive) and returns row 0 of the distances
    together with one name per position of row 0 of the answer, each the
    identifier stored at that position; so every name is an identifier of
    the service. *)
Theorem search_names_only_indexed_ids
        (normalize_L2 : vec -> vec) (index_search : Faiss.search_fn)
        (self : KNNService.t) (query : vec) (k : Z)
        (names : list string) (dists : list Q) :
  (Faiss.ntotal (KNNService.index self) = 0%nat ->
   KNNService.search normalize_L2 index_search self query k = Ok ([], [])) /\
  (KNNService.search normalize_L2 index_search self query k
     = Ok (names, dists) ->
   incl names (KNNService.ids self) /\
   (Faiss.ntotal (KNNService.index self) <> 0%nat ->
    length query = Faiss.d (KNNService.index self) /\ (0 < k)%Z /\
    exists distances indices row,
      index_search (KNNService.index self)
                   (if KNNService.is_cosine self then [normalize_L2 query]
                    else [query])
                   (Z.to_nat (Z.min k (Z.of_nat (Faiss.ntotal
                                                   (KNNService.index self)))))
        = (distances, indices) /\
      nth_error indices 0 = Some row /\
      nth_error distances 0 = Some dists /\
      Forall2 (fun name idx => nth_error (KNNService.ids self) idx = Some name)
              names row)).
Proof.
  split.
  - intros E0. unfold KNNService.search. rewrite E0. reflexivity.
  - intros Hrun.
    destruct (search_ok_facts _ _ _ _ _ _ _ Hrun) as (Hi & _ & Hrow).
    split; [exact Hi|exact Hrow].
Qed.

Lemma search_names_only_indexed_ids_witness :
  KNNService.search Samples.unit_normalize FlatIndex.search
                    Samples.euclid0 [0; 0] 2 = Ok ([], []) /\
  incl ["a"%string; "c"%string] (KNNService.ids Samples.euclid3) /\
  length [0; 0] = Faiss.d (KNNService.index Samples.euclid3) /\ (0 < 2)%Z /\
  exists distances indices row,
    FlatIndex.search (KNNService.index Samples.euclid3)
                 (if KNNService.is_cosine Samples.euclid3
                  then [Samples.unit_normalize [0; 0]] else [[0; 0]])
                 (Z.to_nat (Z.min 2 (Z.of_nat (Faiss.ntotal
                                        (KNNService.index Samples.euclid3)))))
      = (distances, indices) /\
    nth_error indices 0 = Some row /\
    nth_error distances 0 = Some [0; 1] /\
    Forall2 (fun name idx =>
               nth_error (KNNService.ids Samples.euclid3) idx = Some name)
            ["a"%string; "c"%string] row.
Proof.
  split.
  - apply (proj1 (search_names_only_indexed_ids Samples.unit_normalize
                    FlatIndex.search Samples.euclid0 [0; 0] 2 [] [])).
    reflexivity.
  - destruct (proj2 (search_names_only_indexed_ids Samples.unit_normalize
                       FlatIndex.search Samples.euclid3 [0; 0] 2
                       ["a"%string; "c"%string] [0; 1]))
      as [Hi Hrow]; [vm_compute; reflexivity|].
    split; [exact Hi|]. apply Hrow. discriminate.
Defined.

Lemma search_refused_facts
        (normalize_L2 : vec -> vec) (index_search : Faiss.search_fn)
        (self : KNNService.t) (query : vec) (k : Z) :
  Faiss.ntotal (KNNService.index self) = length (KNNService.ids self) ->
  refused self query k ->
  KNNService.search normalize_L2 index_search self query k = Err AssertionError.
Proof.
  intros Hn [Hne Hbad]. unfold KNNService.search. rewrite Hn.
  destruct (Nat.eqb_spec (length (KNNService.ids self)) 0) as [E0|Hpos].
  - destruct (KNNService.ids self); [contradiction|discriminate].
  - rewrite faiss_search_refuses; [reflexivity|].
    destruct Hbad as [Hd|Hk]; [left; exact Hd|right; lia].
Qed.

Lemma search_exact_facts
        (normalize_L2 : vec -> vec) (index_search : Faiss.search_fn)
        (self : KNNService.t) (query : vec) (k : Z) :
  exact_search index_search ->
  Faiss.ntotal (KNNService.index self) = length (KNNService.ids self) ->
  accepted self query k ->
  exists names dists,
    KNNService.search normalize_L2 index_search self query k
      = Ok (names, dists) /\
    length names = Nat.min (Z.to_nat k) (length (KNNService.ids self)) /\
    length dists = Nat.min (Z.to_nat k) (length (KNNService.ids self)) /\
    incl names (KNNService.ids self) /\
    (NoDup (KNNService.ids self) -> NoDup names) /\
    (ranked_search index_search ->
     best_first (Faiss.inner_product (KNNService.index self)) dists).
Proof.
  intros Hexact Hn Hacc. unfold KNNService.search. rewrite Hn.
  destruct (Nat.eqb_spec (length (KNNService.ids self)) 0) as [E0|Hpos].
  - exists [], []. rewrite E0, Nat.min_0_r. repeat split; auto.
    + intros x [].
    + intros _. constructor.
    + intros _. destruct (Faiss.inner_product _); simpl; repeat constructor.
  - destruct Hacc as [He|[Hd Hk]].
    { rewrite He in Hpos. contradiction. }
    set (q := if KNNService.is_cosine self then map normalize_L2 [query]
              else [query]).
    assert (Lq : length q = 1%nat).
    { unfold q. destruct (KNNService.is_cosine self); reflexivity. }
    rewrite (faiss_search_accepts index_search (KNNService.index self) q
               (length query) _ Hd) by lia.
    simpl bind.
    replace (Z.to_nat (Z.min k (Z.of_nat (length (KNNService.ids self)))))
      with (Nat.min (Z.to_nat k) (length (KNNService.ids self))) by lia.
    set (k' := Nat.min (Z.to_nat k) (length (KNNService.ids self))).
    pose proof (Hexact (KNNService.index self) q k') as Hans.
    rewrite Hn, Lq in Hans. specialize (Hans (Nat.le_min_r _ _)).
    assert (Hrank : ranked_search index_search ->
              Forall (best_first (Faiss.inner_product (KNNService.index self)))
                     (fst (index_search (KNNService.index self) q k'))).
    { intros Hr. apply Hr. }
    destruct (index_search (KNNService.index self) q k') as [D I].
    destruct Hans as [LD [LI [HD HI]]]. simpl in LD, LI, HD, HI, Hrank.
    destruct I as [|row I']; [discriminate|].
    destruct D as [|drow D']; [discriminate|].
    inversion HI as [|? ? [Lrow [Nrow Vrow]] _]; subst.
    inversion HD as [|? ? Ldrow _]; subst.
    simpl. rewrite (ids_of_positions self row Vrow). simpl.
    exists (map (id_at self) row), drow. split; [reflexivity|].
    rewrite length_map. repeat split; auto.
    + intros x Hx. apply in_map_iff in Hx. destruct Hx as [idx [<- Hidx]].
      rewrite Forall_forall in Vrow. unfold id_at. apply nth_In. auto.
    + intros Hnd. apply ids_of_positions_nodup; auto.
    + intros Hr. specialize (Hrank Hr). inversion Hrank; auto.
Qed.

(** With an exact search on an index that has one identifier per row:
    on an empty index a search returns two empty lists; on any other index
    it raises [AssertionError] when the query has not the dimension of the
    index or the count is not positive, and otherwise returns exactly
    [min(k, ntotal)] hits: as many distances as names, every name an
    identifier of the index, no name twice when the identifiers are
    distinct, and the distances best first when the index ranks its
    hits. *)
Theorem search_returns_min_k_ntotal
        (normalize_L2 : vec -> vec) (index_search : Faiss.search_fn)
        (self : KNNService.t) (query : vec) (k : Z) :
  exact_search index_search ->
  Faiss.ntotal (KNNService.index self) = length (KNNService.ids self) ->
  (KNNService.ids self = [] ->
   KNNService.search normalize_L2 index_search self query k = Ok ([], [])) /\
  (refused self query k ->
   KNNService.search normalize_L2 index_search self query k
     = Err AssertionError) /\
  (accepted self query k ->
   exists names dists,
     KNNService.search normalize_L2 index_search self query k
       = Ok (names, dists) /\
     length names = Nat.min (Z.to_nat k) (length (KNNService.ids self)) /\
     length dists = Nat.min (Z.to_nat k) (length (KNNService.ids self)) /\
     incl names (KNNService.ids self) /\
     (NoDup (KNNService.ids self) -> NoDup names) /\
     (ranked_search index_search ->
      best_first (Faiss.inner_product (KNNService.index self)) dists)).
Proof.
  intros Hexact Hn. split; [|split].
  - intros He. unfold KNNService.search. rewrite Hn, He. reflexivity.
  - apply search_refused_facts. exact Hn.
  - apply search_exact_facts; assumption.
Qed.

Lemma search_returns_min_k_ntotal_witness :
  KNNService.search Samples.unit_normalize FlatIndex.search
                    Samples.euclid0 [0; 0] 2 = Ok ([], []) /\
  KNNService.search Samples.unit_normalize FlatIndex.search
                    Samples.euclid3 [0; 0; 0] 2 = Err AssertionError /\
  KNNService.search Samples.unit_normalize FlatIndex.search
                    Samples.euclid3 [0; 0] 0 = Err AssertionError /\
  exists names dists,
    KNNService.search Samples.unit_normalize FlatIndex.search
                      Samples.euclid3 [0; 0] 2 = Ok (names, dists) /\
    length names = Nat.min (Z.to_nat 2) (length (KNNService.ids Samples.euclid3)) /\
    length dists = Nat.min (Z.to_nat 2) (length (KNNService.ids Samples.euclid3)) /\
    incl names (KNNService.ids Samples.euclid3) /\
    (NoDup (KNNService.ids Samples.euclid3) -> NoDup names) /\
    (ranked_search FlatIndex.search ->
     best_first (Faiss.inner_product (KNNService.index Samples.euclid3)) dists).
Proof.
  split; [|split; [|split]].
  - apply (search_returns_min_k_ntotal Samples.unit_normalize FlatIndex.search
             Samples.euclid0 [0; 0] 2 FlatIndexFacts.search_exact eq_refl).
    reflexivity.
  - apply (search_returns_min_k_ntotal Samples.unit_normalize FlatIndex.search
             Samples.euclid3 [0; 0; 0] 2 FlatIndexFacts.search_exact eq_refl).
    split; [discriminate|]. left. discriminate.
  - apply (search_returns_min_k_ntotal Samples.unit_normalize FlatIndex.search
             Samples.euclid3 [0; 0] 0 FlatIndexFacts.search_exact eq_refl).
    split; [discriminate|]. right. lia.
  - apply (search_returns_min_k_ntotal Samples.unit_normalize FlatIndex.search
             Samples.euclid3 [0; 0] 2 FlatIndexFacts.search_exact eq_refl).
    right. split; [reflexivity|lia].
Defined.

(** With an exact search on an index that has one identifier per row: on
    an empty index a batch search returns one empty row of names and one of
    distances per query; on any other index it raises [AssertionError]
    when the queries have not the dimension of the index or the count is
    not positive; and otherwise it returns one row of names and one row of
    distances per query, every row with [min(k, ntotal)] entries, all
    names being identifiers of the index. *)
Theorem search_batch_one_row_per_query
        (normalize_L2 : vec -> vec) (index_search : Faiss.search_fn)
        (self : KNNService.t) (queries : matrix) (shape1 : nat) (k : Z) :
  exact_search index_search ->
  Faiss.ntotal (KNNService.index self) = length (KNNService.ids self) ->
  (KNNService.ids self = [] ->
   KNNService.search_batch normalize_L2 index_search self queries shape1 k
     = Ok (map (fun _ => []) queries, map (fun _ => []) queries)) /\
  (KNNService.ids self <> [] ->
   shape1 <> Faiss.d (KNNService.index self) \/ (k <= 0)%Z ->
   KNNService.search_batch normalize_L2 index_search self queries shape1 k
     = Err AssertionError) /\
  (shape1 = Faiss.d (KNNService.index self) -> (0 < k)%Z ->
   exists nl dl,
     KNNService.search_batch normalize_L2 index_search self queries shape1 k
       = Ok (nl, dl) /\
     length nl = length queries /\ length dl = length queries /\
     Forall (fun names =>
               length names
                 = Nat.min (Z.to_nat k) (length (KNNService.ids self)) /\
               incl names (KNNService.ids self)) nl /\
     Forall (fun dists =>
               length dists
                 = Nat.min (Z.to_nat k) (length (KNNService.ids self))) dl).
Proof.
  intros Hexact Hn. split; [|split].
  - intros He. unfold KNNService.search_batch. rewrite Hn, He. reflexivity.
  - intros Hne Hbad. unfold KNNService.search_batch. rewrite Hn.
    destruct (Nat.eqb_spec (length (KNNService.ids self)) 0) as [E0|Hpos].
    { destruct (KNNService.ids self); [contradiction|discriminate]. }
    cbv zeta. rewrite faiss_search_refuses; [reflexivity|].
    destruct Hbad as [Hd|Hk]; [left; exact Hd|right; lia].
  - intros Hd Hk. subst shape1.
    destruct (Nat.eq_dec (length (KNNService.ids self)) 0) as [E0|Hpos].
    + unfold KNNService.search_batch. rewrite Hn, E0. simpl.
      eexists. eexists. split; [reflexivity|]. rewrite !length_map.
      rewrite Nat.min_0_r. repeat split; auto.
      * rewrite Forall_map. rewrite Forall_forall. intros q _.
        split; [reflexivity | intros x []].
      * rewrite Forall_map. rewrite Forall_forall. intros q _. reflexivity.
    + destruct (search_batch_exact normalize_L2 index_search Hexact self queries
                  (Z.to_nat k) ltac:(lia) Hn ltac:(lia)) as [D [I [Hans Hsb]]].
      rewrite Znat.Z2Nat.id in Hsb by lia.
      destruct Hans as [LD [LI [HD HI]]]. simpl in LD, LI, HD, HI.
      exists (map (map (id_at self)) I), D. split; [exact Hsb|].
      rewrite length_map. repeat split; auto.
      rewrite Forall_map. eapply Forall_impl; [|exact HI].
      intros row [Lrow [_ Vrow]]. rewrite length_map. split; [exact Lrow|].
      intros x Hx. apply in_map_iff in Hx. destruct Hx as [idx [<- Hidx]].
      rewrite Forall_forall in Vrow. unfold id_at. apply nth_In. auto.
Qed.

Lemma search_batch_one_row_per_query_witness :
  KNNService.search_batch Samples.unit_normalize FlatIndex.search
                          Samples.euclid0 [[0; 0]; [1; 1]] 2 5
    = Ok ([[]; []], [[]; []]) /\
  KNNService.search_batch Samples.unit_normalize FlatIndex.search
                          Samples.euclid3 [[0; 0; 0]] 3 5
    = Err AssertionError /\
  KNNService.search_batch Samples.unit_normalize FlatIndex.search
                          Samples.euclid3 [[0; 0]; [1; 1]] 2 0
    = Err AssertionError /\
  exists nl dl,
    KNNService.search_batch Samples.unit_normalize FlatIndex.search
                            Samples.euclid3 [[0; 0]; [1; 1]] 2 5
      = Ok (nl, dl) /\
    length nl = 2%nat /\ length dl = 2%nat /\
    Forall (fun names =>
              length names
                = Nat.min (Z.to_nat 5)
                          (length (KNNService.ids Samples.euclid3)) /\
              incl names (KNNService.ids Samples.euclid3)) nl /\
    Forall (fun dists =>
              length dists
                = Nat.min (Z.to_nat 5)
                          (length (KNNService.ids Samples.euclid3))) dl.
Proof.
  split; [|split; [|split]].
  - apply (search_batch_one_row_per_query Samples.unit_normalize
             FlatIndex.search Samples.euclid0 [[0; 0]; [1; 1]] 2 5
             FlatIndexFacts.search_exact eq_refl).
    reflexivity.
  - apply (search_batch_one_row_per_query Samples.unit_normalize
             FlatIndex.search Samples.euclid3 [[0; 0; 0]] 3 5
             FlatIndexFacts.search_exact eq_refl).
    + discriminate.
    + left. discriminate.
  - apply (search_batch_one_row_per_query Samples.unit_normalize
             FlatIndex.search Samples.euclid3 [[0; 0]; [1; 1]] 2 0
             FlatIndexFacts.search_exact eq_refl).
    + discriminate.
    + right. lia.
  - apply (search_batch_one_row_per_query Samples.unit_normalize
             FlatIndex.search Samples.euclid3 [[0; 0]; [1; 1]] 2 5
             FlatIndexFacts.search_exact eq_refl).
    + reflexivity.
    + lia.
Defined.

(** ** The invariants of the index along a run *)

Lemma add_embeddings_ids
      (normalize_L2 : vec -> vec) (self s' : KNNService.t) (shape1 : nat)
      (embs : matrix) (new_ids : list string) :
  KNNService.add_embeddings normalize_L2 self shape1 embs new_ids = Ok s' ->
  KNNService.ids s' = KNNService.ids self ++ new_ids /\
  shape1 = KNNService.embedding_dim self /\
  KNNService.embedding_dim s' = KNNService.embedding_dim self /\
  KNNService.metric s' = KNNService.metric self.
Proof.
  unfold KNNService.add_embeddings.
  destruct (Nat.eqb_spec shape1 (KNNService.embedding_dim self)) as [E|E];
    simpl; [|discriminate].
  intros H. inversion H; subst. simpl. auto.
Qed.

Lemma add_all_invariants (normalize_L2 : vec -> vec) :
  forall (batches : list batch) (self s : KNNService.t),
    add_all normalize_L2 self batches = Ok s ->
    synced self \/
    (KNNService.embeddings self = None /\ KNNService.ids self = [] /\
     Faiss.xb (KNNService.index self) = []) ->
    index_matches_metric self ->
    Forall (fun b => length (b_rows b) = length (b_ids b)) batches ->
    (batches <> [] -> synced s) /\
    index_matches_metric s /\
    KNNService.ids s = KNNService.ids self ++ concat (map b_ids batches) /\
    KNNService.embedding_dim s = KNNService.embedding_dim self /\
    Forall (fun b => b_shape1 b = KNNService.embedding_dim self) batches.
Proof.
  induction batches as [|b rest IH]; simpl; intros self s Hrun Hpre Hm Hlen.
  - inversion Hrun; subst. rewrite app_nil_r. repeat split; auto. congruence.
  - destruct (KNNService.add_embeddings normalize_L2 self (b_shape1 b)
                (b_rows b) (b_ids b)) as [s1|] eqn:E1; simpl in Hrun;
      [|discriminate].
    inversion Hlen as [|? ? Hb Hrest]; subst.
    pose proof (add_embeddings_synced _ _ _ _ _ _ Hpre Hb E1) as Hs1.
    pose proof (add_embeddings_index_matches_metric _ _ _ _ _ _ Hm E1) as Hm1.
    destruct (add_embeddings_ids _ _ _ _ _ _ E1) as [Hids [Hsh [Hdim _]]].
    destruct (IH s1 s Hrun (or_introl Hs1) Hm1 Hrest)
      as [Hsync [Hms [Hids' [Hdim' Hshapes]]]].
    repeat split; auto.
    + intros _. destruct rest as [|b' rest'].
      * simpl in Hrun. inversion Hrun; subst. exact Hs1.
      * apply Hsync. discriminate.
    + rewrite Hids', Hids, <- app_assoc. reflexivity.
    + congruence.
    + constructor; auto. rewrite Hdim in Hshapes. exact Hshapes.
Qed.

(** A service created by [__init__] and filled by any number of successful
    [add_embeddings] calls, each with as many identifiers as rows and no
    identifier used twice over the whole run, has one identifier per row of
    the index and of the stacked matrix, distinct identifiers in the order
    they were added, and the index kind of its metric; every accepted batch
    had the width given at construction. *)
Theorem knn_service_invariants_after_adds
        (normalize_L2 : vec -> vec) (dim : nat) (metric : string)
        (batches : list batch) (s : KNNService.t) :
  add_all normalize_L2 (KNNService.init dim metric) batches = Ok s ->
  batches <> [] ->
  Forall (fun b => length (b_rows b) = length (b_ids b)) batches ->
  NoDup (concat (map b_ids batches)) ->
  synced s /\ NoDup (KNNService.ids s) /\ index_matches_metric s /\
  KNNService.ids s = concat (map b_ids batches) /\
  Forall (fun b => b_shape1 b = dim) batches.
Proof.
  intros Hrun Hne Hlen Hnd.
  assert (Hfresh : KNNService.embeddings (KNNService.init dim metric) = None /\
                   KNNService.ids (KNNService.init dim metric) = [] /\
                   Faiss.xb (KNNService.index (KNNService.init dim metric)) = []).
  { unfold KNNService.init. simpl.
    destruct (String.eqb metric "cosine"); auto. }
  destruct (add_all_invariants normalize_L2 batches _ s Hrun
              (or_intror Hfresh) (init_index_matches_metric dim metric) Hlen)
    as [Hsync [Hm [Hids [_ Hshapes]]]].
  simpl in Hids. repeat split; auto. rewrite Hids. exact Hnd.
Qed.

Lemma knn_service_invariants_after_adds_witness :
  synced Samples.euclid3 /\ NoDup (KNNService.ids Samples.euclid3) /\
  index_matches_metric Samples.euclid3 /\
  KNNService.ids Samples.euclid3 =
    concat (map b_ids [mkBatch 2 [[0; 0]] ["a"%string];
                       mkBatch 2 [[3; 0]; [0; 1]] ["b"%string; "c"%string]]) /\
  Forall (fun b => b_shape1 b = 2%nat)
         [mkBatch 2 [[0; 0]] ["a"%string];
          mkBatch 2 [[3; 0]; [0; 1]] ["b"%string; "c"%string]].
Proof.
  apply (knn_service_invariants_after_adds Samples.unit_normalize 2 "euclidean"
           [mkBatch 2 [[0; 0]] ["a"%string];
            mkBatch 2 [[3; 0]; [0; 1]] ["b"%string; "c"%string]]
           Samples.euclid3).
  - reflexivity.
  - discriminate.
  - repeat constructor.
  - repeat constructor; simpl; intuition discriminate.
Defined.

(** ** The saved graph *)

Lemma search_batch_names_indexed
      (normalize_L2 : vec -> vec) (index_search : Faiss.search_fn)
      (self : KNNService.t) (queries : matrix) (shape1 : nat) (k : Z)
      (nl : list (list string)) (dl : list (list Q)) :
  KNNService.search_batch normalize_L2 index_search self queries shape1 k
    = Ok (nl, dl) ->
  Forall (fun names => incl names (KNNService.ids self)) nl.
Proof.
  intros Hsb.
  destruct (search_batch_inv _ _ _ _ _ _ _ _ Hsb)
    as [(_ & Enl & _)|(_ & _ & _ & D & I & _ & Hm & _)].
  - subst nl. rewrite Forall_map.
    rewrite Forall_forall. intros q _ x [].
  - apply (mapM_rows_incl _ _ _ Hm).
Qed.

Lemma neighbors_of_targets (self : KNNService.t) (node_id : string)
      (row_ids : list string) (row_dist : list Q) :
  Forall (fun nb => In (KNNService.target nb) row_ids)
         (KNNService.neighbors_of self node_id (combine row_ids row_dist)).
Proof.
  unfold KNNService.neighbors_of. rewrite Forall_map.
  rewrite Forall_forall. intros [nid dist] Hin. simpl.
  apply filter_In in Hin. destruct Hin as [Hin _].
  eapply in_combine_l; eauto.
Qed.

Lemma dict_set_keys {V : Type} (d : list (string * V)) (key : string) (v : V) :
  incl (dict_keys (dict_set d key v)) (key :: dict_keys d).
Proof.
  induction d as [|[k0 v0] d IH]; simpl.
  - intros x Hx. exact Hx.
  - destruct (String.eqb k0 key); simpl.
    + intros x Hx. right. exact Hx.
    + intros x [<-|Hx]; [right; left; reflexivity|].
      destruct (IH x Hx) as [<-|Hin]; [left; reflexivity | right; right; auto].
Qed.

Lemma build_loop_keys (self : KNNService.t) (k : nat)
      (nl : list (list string)) (dl : list (list Q)) :
  forall nodes g g',
    KNNService.build_loop self k nl dl nodes g = Ok g' ->
    incl (dict_keys g') (dict_keys g ++ map snd nodes).
Proof.
  induction nodes as [|[i node_id] nodes IH]; simpl; intros g g' Hrun.
  - inversion Hrun; subst. rewrite app_nil_r. apply incl_refl.
  - destruct (getitem nl i) as [row_ids|]; simpl in Hrun; [|discriminate].
    destruct (getitem dl i) as [row_dist|]; simpl in Hrun; [|discriminate].
    intros x Hx. apply (IH _ _ Hrun) in Hx. apply in_app_or in Hx.
    apply in_or_app. destruct Hx as [Hx|Hx]; [|right; right; auto].
    apply dict_set_keys in Hx. destruct Hx as [<-|Hx]; [right; left|left]; auto.
Qed.

Lemma build_knn_graph_keys
      (normalize_L2 : vec -> vec) (index_search : Faiss.search_fn)
      (self : KNNService.t) (k : nat) (g : KNNService.graph) :
  KNNService.build_knn_graph normalize_L2 index_search self k = Ok g ->
  incl (dict_keys g) (KNNService.ids self).
Proof.
  unfold KNNService.build_knn_graph.
  destruct (KNNService.embeddings self) as [embs|];
    [|intros H; inversion H; intros x []].
  destruct (length (KNNService.ids self) =? 0)%nat;
    [intros H; inversion H; intros x []|].
  destruct (KNNService.search_batch _ _ _ _ _ _) as [[nl dl]|]; simpl;
    [|discriminate].
  intros Hrun x Hx. apply (build_loop_keys _ _ _ _ _ _ _ Hrun) in Hx.
  simpl in Hx. rewrite enumerate_keys in Hx. exact Hx.
Qed.

(** Whatever the index answers, the document [save_graph] writes for a
    graph returned by [build_knn_graph(k)] has only edges between two
    different identifiers of the service, and at most [k] edges per node:
    [num_edges <= num_nodes * k]. *)
Theorem saved_graph_edges_join_indexed_ids
        (normalize_L2 : vec -> vec) (index_search : Faiss.search_fn)
        (self : KNNService.t) (k : nat) (g : KNNService.graph) :
  KNNService.build_knn_graph normalize_L2 index_search self k = Ok g ->
  Forall (fun e =>
            KNNService.e_source e <> KNNService.e_target e /\
            In (KNNService.e_source e) (KNNService.ids self) /\
            In (KNNService.e_target e) (KNNService.ids self))
         (KNNService.edges (KNNService.save_graph_output g)) /\
  (KNNService.num_edges (KNNService.save_graph_output g) <=
   KNNService.num_nodes (KNNService.save_graph_output g) * k)%nat.
Proof.
  intros Hrun.
  assert (Hentries :
            Forall (fun entry =>
                      Forall (fun nb =>
                                KNNService.target nb <> fst entry /\
                                In (KNNService.target nb) (KNNService.ids self))
                             (snd entry) /\
                      (length (snd entry) <= k)%nat) g).
  { apply (build_knn_graph_invariant normalize_L2 index_search _ self k g);
      [|exact Hrun].
    intros nl dl embs Hsb i node_id row_ids row_dist Hrow _. simpl.
    split; [|apply firstn_le_length].
    apply Forall_firstn.
    pose proof (neighbors_of_no_self self node_id (combine row_ids row_dist))
      as H1.
    pose proof (neighbors_of_targets self node_id row_ids row_dist) as H2.
    pose proof (search_batch_names_indexed _ _ _ _ _ _ _ _ Hsb) as H3.
    rewrite Forall_forall in H1, H2, H3. rewrite Forall_forall.
    intros nb Hnb. split; [apply H1; auto|].
    apply (H3 row_ids); [eapply nth_error_In; eauto | apply H2; auto]. }
  pose proof (build_knn_graph_keys _ _ _ _ _ Hrun) as Hkeys.
  split.
  - simpl. unfold KNNService.edge_list. rewrite Forall_forall.
    intros e He. apply in_flat_map in He.
    destruct He as [[source nbrs] [Hin He]]. apply in_map_iff in He.
    destruct He as [nb [<- Hnb]]. simpl.
    rewrite Forall_forall in Hentries. destruct (Hentries _ Hin) as [Hall _].
    rewrite Forall_forall in Hall. destruct (Hall nb Hnb) as [Hne Hidx].
    simpl in Hne. repeat split; auto.
    apply Hkeys. unfold dict_keys. apply in_map_iff. exists (source, nbrs). auto.
  - simpl. rewrite edge_list_length. clear Hrun Hkeys.
    induction Hentries as [|entry g' [_ Hle] _ IH]; simpl; lia.
Qed.

Lemma saved_graph_edges_join_indexed_ids_witness :
  exists g,
    Samples.build Samples.euclid3 1 = Ok g /\
    Forall (fun e =>
              KNNService.e_source e <> KNNService.e_target e /\
              In (KNNService.e_source e) (KNNService.ids Samples.euclid3) /\
              In (KNNService.e_target e) (KNNService.ids Samples.euclid3))
           (KNNService.edges (KNNService.save_graph_output g)) /\
    (KNNService.num_edges (KNNService.save_graph_output g) <=
     KNNService.num_nodes (KNNService.save_graph_output g) * 1)%nat.
Proof.
  eexists. split; [vm_compute; reflexivity|].
  apply (saved_graph_edges_join_indexed_ids Samples.unit_normalize
           FlatIndex.search Samples.euclid3 1).
  vm_compute. reflexivity.
Defined.

(** ** An index with more identifiers than rows *)

Lemma build_loop_missing_row (self : KNNService.t) (k : nat)
      (nl : list (list string)) (dl : list (list Q)) :
  forall nodes g,
    (exists i id, In (i, id) nodes /\ (length nl <= i)%nat) ->
    KNNService.build_loop self k nl dl nodes g = Err IndexError.
Proof.
  induction nodes as [|[i node_id] nodes IH]; simpl; intros g [j [id [Hin Hj]]].
  - contradiction.
  - unfold getitem at 1. destruct (nth_error nl i) as [row_ids|] eqn:E1; simpl;
      [|reflexivity].
    unfold getitem at 1. destruct (nth_error dl i) as [row_dist|]; simpl;
      [|reflexivity].
    apply IH. destruct Hin as [E|Hin].
    + inversion E; subst. exfalso.
      apply nth_error_None in Hj. congruence.
    + exists j, id. auto.
Qed.

(** When identifiers outnumber the stored rows (as after an
    [add_embeddings] call with more identifiers than rows), with an exact
    search, [build_knn_graph] raises [IndexError] for every [k]: the batch
    search has one row per stored vector and the loop runs over the
    identifiers. *)
Theorem build_knn_graph_fails_with_surplus_ids
        (normalize_L2 : vec -> vec) (index_search : Faiss.search_fn)
        (self : KNNService.t) (embs : matrix) (k : nat) :
  exact_search index_search ->
  KNNService.embeddings self = Some embs ->
  Faiss.ntotal (KNNService.index self) = length embs ->
  (length embs < length (KNNService.ids self))%nat ->
  KNNService.build_knn_graph normalize_L2 index_search self k = Err IndexError.
Proof.
  intros Hexact He Hn Hlt. unfold KNNService.build_knn_graph. rewrite He.
  destruct (Nat.eqb_spec (length (KNNService.ids self)) 0) as [E0|_]; [lia|].
  assert (Hsb : match KNNService.search_batch normalize_L2 index_search self
                        embs (Faiss.d (KNNService.index self))
                        (Z.of_nat (k + 1)) with
                | Ok (nl, _) => length nl = length embs
                | Err e => e = IndexError
                end).
  { rewrite (search_batch_stored normalize_L2 index_search self embs (k + 1))
      by lia.
    rewrite Hn.
    destruct (length embs =? 0)%nat; [apply length_map|].
    match goal with
    | |- context [index_search _ ?q _] => set (queries := q)
    end.
    assert (Lq : length queries = length embs).
    { unfold queries. destruct (KNNService.is_cosine self); auto.
      apply length_map. }
    pose proof (Hexact (KNNService.index self) queries
                  (Nat.min (k + 1) (length embs))) as Hans.
    rewrite Hn, Lq in Hans. specialize (Hans (Nat.le_min_r _ _)).
    destruct (index_search _ _ _) as [D I].
    destruct Hans as [_ [LI [_ HI]]]. simpl in LI, HI.
    rewrite (mapM_ok_map _ (map (id_at self))).
    - simpl. rewrite length_map. exact LI.
    - eapply Forall_impl; [|exact HI]. intros row [_ [_ Hvalid]].
      apply ids_of_positions. eapply Forall_impl; [|exact Hvalid].
      intros idx Hidx. simpl in Hidx. lia. }
  destruct (KNNService.search_batch _ _ _ _ _ _) as [[nl dl]|e]; simpl;
    [|congruence].
  apply build_loop_missing_row.
  exists (length embs), (nth (length embs) (KNNService.ids self) EmptyString).
  split; [|lia]. apply enumerate_in. apply nth_error_nth'. exact Hlt.
Qed.

Lemma build_knn_graph_fails_with_surplus_ids_witness :
  KNNService.build_knn_graph Samples.unit_normalize FlatIndex.search
    (Samples.surplus_ids) 8 = Err IndexError.
Proof.
  apply (build_knn_graph_fails_with_surplus_ids Samples.unit_normalize
           FlatIndex.search Samples.surplus_ids [[0; 0]] 8).
  - exact FlatIndexFacts.search_exact.
  - reflexivity.
  - reflexivity.
  - simpl. lia.
Defined.

(** ** Bounding boxes *)

Lemma get_bounds_is_bounds (n : nat) (a : matrix) :
  a <> [] -> rect n a ->
  exists mn mx, UMAPService.get_bounds a = Ok (mn, mx) /\ is_bounds n a mn mx.
Proof.
  intros Hne Hrect.
  destruct (get_bounds_spec n a Hne Hrect) as [mn [mx [Hb [L1 [L2 B]]]]].
  exists mn, mx. split; [exact Hb|]. unfold is_bounds. auto.
Qed.

Lemma is_bounds_ordered (n : nat) (a : matrix) (mn mx : vec) (j : nat) :
  is_bounds n a mn mx -> (j < n)%nat -> nth j mn 0 <= nth j mx 0.
Proof.
  intros [_ [_ B]] Hj. destruct (B j Hj) as [Hall [[r [Hr _]] _]].
  destruct (Hall r Hr). eapply Qle_trans; eauto.
Qed.

(** [get_bounds] raises [ValueError] on a batch without points; on any
    other batch of [n]-dimensional points it returns, for every axis, a
    minimum and a maximum that enclose the coordinate of every point, are
    each the coordinate of some point, and are in order. *)
Theorem get_bounds_encloses (n : nat) (coords : matrix) :
  rect n coords ->
  (coords = [] -> exists msg, UMAPService.get_bounds coords = Err (ValueError msg)) /\
  (coords <> [] ->
   exists mn mx,
     UMAPService.get_bounds coords = Ok (mn, mx) /\
     length mn = n /\ length mx = n /\
     forall j, (j < n)%nat ->
       nth j mn 0 <= nth j mx 0 /\
       (forall p, In p coords ->
                  nth j mn 0 <= nth j p 0 /\ nth j p 0 <= nth j mx 0) /\
       (exists p, In p coords /\ nth j mn 0 == nth j p 0) /\
       (exists p, In p coords /\ nth j mx 0 == nth j p 0)).
Proof.
  intros Hrect. split.
  - intros ->. eexists. reflexivity.
  - intros Hne.
    destruct (get_bounds_is_bounds n coords Hne Hrect) as [mn [mx [Hb HB]]].
    exists mn, mx. split; [exact Hb|].
    pose proof HB as [L1 [L2 B]]. split; [exact L1|]. split; [exact L2|].
    intros j Hj. split; [apply (is_bounds_ordered n coords mn mx j HB Hj)|].
    apply B; auto.
Qed.

Lemma get_bounds_encloses_witness :
  (([[0; 4]; [2; 1]] : matrix) = [] ->
   exists msg, UMAPService.get_bounds [[0; 4]; [2; 1]] = Err (ValueError msg)) /\
  (([[0; 4]; [2; 1]] : matrix) <> [] ->
   exists mn mx,
     UMAPService.get_bounds [[0; 4]; [2; 1]] = Ok (mn, mx) /\
     length mn = 2%nat /\ length mx = 2%nat /\
     forall j, (j < 2)%nat ->
       nth j mn 0 <= nth j mx 0 /\
       (forall p, In p [[0; 4]; [2; 1]] ->
                  nth j mn 0 <= nth j p 0 /\ nth j p 0 <= nth j mx 0) /\
       (exists p, In p [[0; 4]; [2; 1]] /\ nth j mn 0 == nth j p 0) /\
       (exists p, In p [[0; 4]; [2; 1]] /\ nth j mx 0 == nth j p 0)).
Proof.
  apply (get_bounds_encloses 2 [[0; 4]; [2; 1]]).
  repeat constructor.
Defined.

(** ** The entries of the normalised batch, without rounding *)

Lemma Forall2_of_nth_gen {A B : Type} (P : A -> B -> Prop) (da : A) (db : B) :
  forall (l : list A) (l' : list B),
    length l = length l' ->
    (forall i, (i < length l)%nat -> P (nth i l da) (nth i l' db)) ->
    Forall2 P l l'.
Proof.
  induction l as [|x l IH]; intros [|y l'] Hlen H; simpl in *;
    try discriminate; constructor.
  - apply (H 0%nat). lia.
  - apply IH; [congruence|]. intros i Hi. apply (H (S i)). lia.
Qed.

(** What [normalize_coords] computes on a batch of [n]-dimensional points,
    entry by entry. *)
Lemma normalize_entries (n : nat) (coords : matrix) (scale : Q) :
  coords <> [] -> (0 < n)%nat -> rect n coords ->
  exists out mn mx R,
    UMAPService.normalize_coords coords scale = Ok out /\
    is_bounds n coords mn mx /\
    (forall j, (j < n)%nat -> nth j mx 0 - nth j mn 0 <= R) /\
    (exists j, (j < n)%nat /\ R == nth j mx 0 - nth j mn 0) /\
    length out = length coords /\ rect n out /\
    forall i j, (i < length coords)%nat -> (j < n)%nat ->
      (0 < R ->
       nth j (nth i out []) 0 =
       (nth j (nth i coords []) 0 - (nth j mn 0 + nth j mx 0) / 2) / R * 2 * scale) /\
      (R <= 0 ->
       nth j (nth i out []) 0 =
       nth j (nth i coords []) 0 - (nth j mn 0 + nth j mx 0) / 2).
Proof.
  intros Hne Hn Hrect.
  destruct (get_bounds_is_bounds n coords Hne Hrect) as [mn [mx [Hb HB]]].
  pose proof HB as [Lmn [Lmx _]].
  assert (Lr : length (vsub mx mn) = n) by (apply vmap2_length; auto).
  assert (Hv : vsub mx mn <> []).
  { intros E. rewrite E in Lr. simpl in Lr. lia. }
  destruct (amax_spec _ Hv) as [R [HR [Hub [j1 [Hj1 Hatt]]]]].
  rewrite Lr in Hub, Hj1.
  assert (Hlen : forall i, (i < length coords)%nat ->
                           length (nth i coords []) = n).
  { intros i Hi. unfold rect in Hrect. rewrite Forall_forall in Hrect.
    apply Hrect. apply nth_In; auto. }
  assert (Lmid : length (midpoint mn mx) = n) by (apply midpoint_length; auto).
  pose proof (normalize_unfold coords mn mx R scale Hb HR) as Hout.
  assert (Hrange : forall j, (j < n)%nat -> nth j mx 0 - nth j mn 0 <= R).
  { intros j Hj. rewrite <- (range_nth n); auto. }
  assert (Hatt' : exists j, (j < n)%nat /\ R == nth j mx 0 - nth j mn 0).
  { exists j1. split; auto. rewrite <- (range_nth n); auto. }
  destruct (Qlt_bool 0 R) eqn:E.
  - apply Qlt_bool_iff in E.
    destruct (Qeq_bool R 0) eqn:E0.
    { apply Qeq_bool_iff in E0. exfalso. exact (Qpos_neq0 R E E0). }
    eexists. exists mn, mx, R. split; [exact Hout|].
    split; [exact HB|]. split; [exact Hrange|]. split; [exact Hatt'|].
    split; [apply length_map|]. split.
    + unfold rect. rewrite Forall_map. rewrite Forall_forall. intros r Hr.
      rewrite length_map. unfold vsub. apply vmap2_length; auto.
      unfold rect in Hrect. rewrite Forall_forall in Hrect. auto.
    + intros i j Hi Hj. split.
      * intros _.
        rewrite (nth_map_row
                   (fun row => map (fun c => c / R * 2 * scale)
                                   (vsub row (midpoint mn mx)))); auto.
        apply (scaled_nth n); auto.
      * intros Hle. exfalso. exact (Qlt_not_le _ _ E Hle).
  - apply Qlt_bool_false in E.
    eexists. exists mn, mx, R. split; [exact Hout|].
    split; [exact HB|]. split; [exact Hrange|]. split; [exact Hatt'|].
    split; [apply length_map|]. split.
    + unfold rect. rewrite Forall_map. rewrite Forall_forall. intros r Hr.
      unfold vsub. apply vmap2_length; auto.
      unfold rect in Hrect. rewrite Forall_forall in Hrect. auto.
    + intros i j Hi Hj. split.
      * intros Hlt. exfalso. exact (Qlt_not_le _ _ Hlt E).
      * intros _.
        rewrite (nth_map_row (fun row => vsub row (midpoint mn mx))); auto.
        apply (centered_nth n); auto.
Qed.

Lemma Qeq_of_eqs (x y x0 y0 : Q) : x = x0 -> y = y0 -> x0 == y0 -> x == y.
Proof. intros -> ->. auto. Qed.

(** ** Failures of the normalisation *)

Lemma length_zero_nil {A : Type} (l : list A) : length l = 0%nat -> l = [].
Proof. destruct l; [reflexivity | discriminate]. Qed.

(** [normalize_coords] never divides by zero.  On a batch of
    [n]-dimensional points it raises [ValueError] when the batch has no
    point or the points have no coordinate, and otherwise returns a batch
    of the same shape. *)
Theorem normalize_coords_failures (n : nat) (coords : matrix) (scale : Q) :
  rect n coords ->
  UMAPService.normalize_coords coords scale <> Err ZeroDivision /\
  (coords = [] \/ n = 0%nat ->
   exists msg, UMAPService.normalize_coords coords scale = Err (ValueError msg)) /\
  (coords <> [] -> (0 < n)%nat ->
   exists out, UMAPService.normalize_coords coords scale = Ok out /\
               rect n out /\ length out = length coords).
Proof.
  intros Hrect. split; [|split].
  - unfold UMAPService.normalize_coords, UMAPService.get_bounds.
    destruct (amin0 coords) as [mn|e1] eqn:E1; simpl.
    2:{ destruct coords; simpl in E1; inversion E1. discriminate. }
    destruct (amax0 coords) as [mx|e2] eqn:E2; simpl.
    2:{ destruct coords; simpl in E2; inversion E2. discriminate. }
    destruct (amax (vsub mx mn)) as [R|e3] eqn:E3; simpl.
    2:{ destruct (vsub mx mn); simpl in E3; inversion E3. discriminate. }
    destruct (Qlt_bool 0 R) eqn:E; [|discriminate].
    unfold array_div. destruct (Qeq_bool R 0) eqn:E0; simpl; [|discriminate].
    exfalso. apply Qlt_bool_iff in E. apply Qeq_bool_iff in E0.
    exact (Qpos_neq0 R E E0).
  - intros [E | E]; [subst coords; eexists; reflexivity|]. subst n.
    destruct coords as [|p coords']; [eexists; reflexivity|].
    destruct (get_bounds_spec 0 (p :: coords') ltac:(discriminate) Hrect)
      as [mn [mx [Hb [L1 [L2 _]]]]].
    apply length_zero_nil in L1, L2. subst.
    unfold UMAPService.normalize_coords. rewrite Hb. simpl.
    eexists. reflexivity.
  - intros Hne Hn.
    destruct (normalize_entries n coords scale Hne Hn Hrect)
      as [out [_ [_ [_ [Hout [_ [_ [_ [Lout [Rout _]]]]]]]]]].
    exists out. auto.
Qed.

Lemma normalize_coords_failures_witness :
  UMAPService.normalize_coords [[]; []] 10 <> Err ZeroDivision /\
  (([[]; []] : matrix) = [] \/ 0%nat = 0%nat ->
   exists msg, UMAPService.normalize_coords [[]; []] 10 = Err (ValueError msg)) /\
  (([[]; []] : matrix) <> [] -> (0 < 0)%nat ->
   exists out, UMAPService.normalize_coords [[]; []] 10 = Ok out /\
               rect 0 out /\ length out = 2%nat).
Proof.
  apply (normalize_coords_failures 0 [[]; []] 10).
  repeat constructor.
Defined.

(** ** The state of the projection service *)

Lemma umap_step_facts (model_fit_transform : Z -> matrix -> result matrix)
      (load_model : string -> result Z) (self : UMAPService.t) (c : umap_call) :
  UMAPService.n_neighbors (umap_step model_fit_transform load_model self c)
    = UMAPService.n_neighbors self /\
  (UMAPService.is_fitted self = true ->
   UMAPService.is_fitted (umap_step model_fit_transform load_model self c)
     = true).
Proof.
  destruct c as [embs|embs|path|path]; simpl; auto.
  - unfold UMAPService.fit_transform.
    destruct (Z.of_nat (length embs) <? UMAPService.n_neighbors self)%Z; simpl;
      destruct (model_fit_transform _ embs); simpl; auto.
  - unfold UMAPService.load. destruct (load_model path); simpl; auto.
Qed.

(** Over any sequence of [fit_transform], [transform], [save] and [load]
    calls, whatever they return or raise, the configured [n_neighbors] of
    the service stays what it was and [is_fitted], once true, stays true;
    and whenever the service is not fitted after the sequence, [transform]
    and [save] raise [ValueError] without consulting the model or the
    disk. *)
Theorem umap_service_fitted_for_good
        (model_fit_transform model_transform : Z -> matrix -> result matrix)
        (dump_model : string -> Z -> result unit)
        (load_model : string -> result Z)
        (self : UMAPService.t) (calls : list umap_call) :
  let s := umap_run model_fit_transform load_model self calls in
  UMAPService.n_neighbors s = UMAPService.n_neighbors self /\
  (UMAPService.is_fitted self = true -> UMAPService.is_fitted s = true) /\
  (UMAPService.is_fitted s = false ->
   (forall embs, exists msg,
       UMAPService.transform model_transform s embs = Err (ValueError msg)) /\
   (forall path, exists msg,
       UMAPService.save dump_model s path = Err (ValueError msg))).
Proof.
  simpl. split; [|split].
  - unfold umap_run. revert self.
    induction calls as [|c calls IH]; intros self; simpl; auto.
    rewrite IH. apply umap_step_facts.
  - unfold umap_run. revert self.
    induction calls as [|c calls IH]; intros self Hf; simpl; auto.
    apply IH. apply umap_step_facts. exact Hf.
  - intros Hf. unfold UMAPService.transform, UMAPService.save. rewrite Hf.
    simpl. split; intros; eexists; reflexivity.
Qed.

(** A fit on fewer samples than the configured [n_neighbors] lowers the
    neighbourhood of the model to the number of samples minus one, whether
    the model then succeeds or not, and nothing raises it again: a later
    fit on at least [n_neighbors] samples still runs the model with the
    lowered value. *)
Theorem fit_transform_lowered_neighbors_stick
        (model_fit_transform : Z -> matrix -> result matrix)
        (self : UMAPService.t) (small large : matrix) :
  (Z.of_nat (length small) < UMAPService.n_neighbors self)%Z ->
  (UMAPService.n_neighbors self <= Z.of_nat (length large))%Z ->
  let s1 := fst (UMAPService.fit_transform model_fit_transform self small) in
  UMAPService.model_n_neighbors s1 = (Z.of_nat (length small) - 1)%Z /\
  snd (UMAPService.fit_transform model_fit_transform self small) =
    model_fit_transform (Z.of_nat (length small) - 1)%Z small /\
  snd (UMAPService.fit_transform model_fit_transform s1 large) =
    model_fit_transform (Z.of_nat (length small) - 1)%Z large /\
  UMAPService.model_n_neighbors
    (fst (UMAPService.fit_transform model_fit_transform s1 large))
  = (Z.of_nat (length small) - 1)%Z.
Proof.
  intros Hsmall Hlarge. simpl.
  assert (Hs1 : UMAPService.model_n_neighbors
                  (fst (UMAPService.fit_transform model_fit_transform self small))
                = (Z.of_nat (length small) - 1)%Z /\
                UMAPService.n_neighbors
                  (fst (UMAPService.fit_transform model_fit_transform self small))
                = UMAPService.n_neighbors self /\
                snd (UMAPService.fit_transform model_fit_transform self small) =
                model_fit_transform (Z.of_nat (length small) - 1)%Z small).
  { unfold UMAPService.fit_transform.
    apply Z.ltb_lt in Hsmall. rewrite Hsmall. simpl.
    destruct (model_fit_transform _ small); simpl; auto. }
  destruct Hs1 as [Hm [Hc Hr]].
  split; [exact Hm|]. split; [exact Hr|].
  set (s1 := fst (UMAPService.fit_transform model_fit_transform self small))
    in *.
  unfold UMAPService.fit_transform. rewrite Hc.
  assert (Hge : (Z.of_nat (length large) <? UMAPService.n_neighbors self)%Z
                = false) by (apply Z.ltb_ge; exact Hlarge).
  rewrite Hge, Hm.
  destruct (model_fit_transform _ large); simpl; auto.
Qed.

Lemma fit_transform_lowered_neighbors_stick_witness :
  let s1 := fst (UMAPService.fit_transform Samples.projector_pad Samples.umap0
                   [[0; 0]; [3; 0]]) in
  UMAPService.model_n_neighbors s1 = (Z.of_nat 2 - 1)%Z /\
  snd (UMAPService.fit_transform Samples.projector_pad Samples.umap0
         [[0; 0]; [3; 0]]) =
    Samples.projector_pad (Z.of_nat 2 - 1)%Z [[0; 0]; [3; 0]] /\
  snd (UMAPService.fit_transform Samples.projector_pad s1
         (repeat [1; 1] 15)) =
    Samples.projector_pad (Z.of_nat 2 - 1)%Z (repeat [1; 1] 15) /\
  UMAPService.model_n_neighbors
    (fst (UMAPService.fit_transform Samples.projector_pad s1
            (repeat [1; 1] 15)))
  = (Z.of_nat 2 - 1)%Z.
Proof.
  apply (fit_transform_lowered_neighbors_stick Samples.projector_pad
           Samples.umap0 [[0; 0]; [3; 0]] (repeat [1; 1] 15)).
  - reflexivity.
  - discriminate.
Defined.

(** ** Uploads *)

Lemma dict_get_set_same {V : Type} (d : list (string * V)) (key : string) (v : V) :
  dict_get (dict_set d key v) key = Some v.
Proof.
  induction d as [|[k0 v0] d IH]; simpl.
  - rewrite String.eqb_refl. reflexivity.
  - destruct (String.eqb k0 key) eqn:E; simpl; rewrite E; auto.
Qed.

Lemma dict_get_set_other {V : Type} (d : list (string * V)) (key other : string)
      (v : V) :
  other <> key -> dict_get (dict_set d key v) other = dict_get d other.
Proof.
  intros Hne. induction d as [|[k0 v0] d IH]; simpl.
  - destruct (String.eqb_spec key other); [congruence | reflexivity].
  - destruct (String.eqb_spec k0 key) as [E|E]; simpl.
    + subst. destruct (String.eqb_spec key other); [congruence | reflexivity].
    + destruct (String.eqb k0 other); auto.
Qed.

Lemma dict_keys_set_fresh {V : Type} (d : list (string * V)) (key : string)
      (v : V) :
  ~ In key (dict_keys d) -> dict_keys (dict_set d key v) = dict_keys d ++ [key].
Proof.
  intros H. rewrite dict_set_fresh by exact H. unfold dict_keys.
  rewrite map_app. reflexivity.
Qed.

Section Uploads.

Variable normalize_L2 : vec -> vec.
Variable IMAGES_DIR : string.
Variable Image : Type.
Variable open_image : string -> result Image.
Variable save_image : Image -> string -> result unit.
Variable embed_image : Image -> result vec.

Local Abbreviation upload_image :=
  (App.upload_image normalize_L2 IMAGES_DIR Image open_image save_image
                    embed_image).

(** A successful upload stores under the drawn identifier a record with the
    file's name, the saved path, the embedding and no coordinates, appends
    the embedding (normalised under the cosine metric) and the identifier
    to the index, reports the embedding's length, which is the dimension of
    the index, and leaves every other record and the projection flag alone.
    If the identifier is new and the database listed the identifiers of the
    index in order, it still does. *)
Theorem upload_image_success
        (st st' : App.state) (image_id : string) (file : App.upload_file)
        (resp : App.embedding_response) :
  upload_image st image_id file = (st', Ok resp) ->
  App.er_image_id resp = image_id /\
  (exists emb,
      dict_get (App.image_database st') image_id =
        Some (App.mkImage (IMAGES_DIR ++ "/" ++ image_id ++ ".jpg")
                          (App.uf_filename file) emb None) /\
      App.er_embedding_dim resp = length emb /\
      length emb = KNNService.embedding_dim (App.knn_service st) /\
      Faiss.xb (KNNService.index (App.knn_service st')) =
        Faiss.xb (KNNService.index (App.knn_service st)) ++
        [if KNNService.is_cosine (App.knn_service st) then normalize_L2 emb
         else emb]) /\
  KNNService.ids (App.knn_service st') =
    KNNService.ids (App.knn_service st) ++ [image_id] /\
  (forall other, other <> image_id ->
     dict_get (App.image_database st') other =
     dict_get (App.image_database st) other) /\
  App.is_projection_fitted st' = App.is_projection_fitted st /\
  (~ In image_id (dict_keys (App.image_database st)) ->
   dict_keys (App.image_database st) = KNNService.ids (App.knn_service st) ->
   dict_keys (App.image_database st') = KNNService.ids (App.knn_service st')).
Proof.
  unfold App.upload_image.
  destruct (open_image (App.uf_contents file)) as [image|]; simpl;
    [|discriminate].
  destruct (save_image image _); simpl; [|discriminate].
  destruct (embed_image image) as [emb|]; simpl; [|discriminate].
  destruct (KNNService.add_embeddings normalize_L2 (App.knn_service st)
              (length emb) [emb] [image_id]) as [knn|] eqn:E; simpl;
    [|discriminate].
  intros H. inversion H; subst; clear H. simpl.
  destruct (add_embeddings_ids _ _ _ _ _ _ E) as [Hids [Hdim _]].
  split; [reflexivity|]. split; [|split; [exact Hids|split; [|split]]].
  - exists emb. split; [apply dict_get_set_same|]. split; [reflexivity|].
    split; [exact Hdim|].
    unfold KNNService.add_embeddings in E.
    destruct (negb (length emb =? KNNService.embedding_dim (App.knn_service st))%nat);
      [discriminate|].
    inversion E; subst. simpl.
    destruct (KNNService.is_cosine (App.knn_service st)); reflexivity.
  - intros other Hne. apply dict_get_set_other. exact Hne.
  - reflexivity.
  - intros Hfresh Hkeys. rewrite dict_keys_set_fresh by exact Hfresh.
    rewrite Hkeys, Hids. reflexivity.
Qed.

(** A failed upload reports status 500 and never touches the index or the
    projection flag.  The database is as before when the image could not be
    read, saved or embedded; when the index refuses the embedding, whose
    length then differs from the dimension of the index, the record stays in
    the database although the index has no entry for it. *)
Theorem upload_image_failure
        (st st' : App.state) (image_id : string) (file : App.upload_file)
        (e : error) :
  upload_image st image_id file = (st', Err e) ->
  (exists detail, e = HTTPException 500 detail) /\
  App.knn_service st' = App.knn_service st /\
  App.is_projection_fitted st' = App.is_projection_fitted st /\
  (App.image_database st' = App.image_database st \/
   exists emb,
     length emb <> KNNService.embedding_dim (App.knn_service st) /\
     dict_get (App.image_database st') image_id =
       Some (App.mkImage (IMAGES_DIR ++ "/" ++ image_id ++ ".jpg")
                         (App.uf_filename file) emb None)).
Proof.
  unfold App.upload_image.
  destruct (open_image (App.uf_contents file)) as [image|e1]; simpl.
  2:{ intros H. inversion H; subst. repeat split; eauto. }
  destruct (save_image image _) as [|e2]; simpl.
  2:{ intros H. inversion H; subst. repeat split; eauto. }
  destruct (embed_image image) as [emb|e3]; simpl.
  2:{ intros H. inversion H; subst. repeat split; eauto. }
  destruct (KNNService.add_embeddings normalize_L2 (App.knn_service st)
              (length emb) [emb] [image_id]) as [knn|e4] eqn:E; simpl;
    [discriminate|].
  intros H. inversion H; subst; clear H. simpl.
  repeat split; eauto. right. exists emb. split; [|apply dict_get_set_same].
  unfold KNNService.add_embeddings in E.
  destruct (Nat.eqb_spec (length emb)
              (KNNService.embedding_dim (App.knn_service st))) as [Heq|Hne];
    simpl in E; [discriminate | exact Hne].
Qed.

End Uploads.

Lemma upload_image_success_witness :
  exists st' resp,
    Samples.upload Samples.app2 "c" (App.mkUpload "c.jpg" "bytes")
      = (st', Ok resp) /\
    App.er_image_id resp = "c"%string /\
    (exists emb,
        dict_get (App.image_database st') "c" =
          Some (App.mkImage ("data/images" ++ "/" ++ "c" ++ ".jpg")
                            "c.jpg" emb None) /\
        App.er_embedding_dim resp = length emb /\
        length emb = KNNService.embedding_dim (App.knn_service Samples.app2) /\
        Faiss.xb (KNNService.index (App.knn_service st')) =
          Faiss.xb (KNNService.index (App.knn_service Samples.app2)) ++
          [if KNNService.is_cosine (App.knn_service Samples.app2)
           then Samples.unit_normalize emb else emb]) /\
    KNNService.ids (App.knn_service st') =
      KNNService.ids (App.knn_service Samples.app2) ++ ["c"%string] /\
    (forall other, other <> "c"%string ->
       dict_get (App.image_database st') other =
       dict_get (App.image_database Samples.app2) other) /\
    App.is_projection_fitted st' = App.is_projection_fitted Samples.app2 /\
    (~ In "c"%string (dict_keys (App.image_database Samples.app2)) ->
     dict_keys (App.image_database Samples.app2) =
       KNNService.ids (App.knn_service Samples.app2) ->
     dict_keys (App.image_database st') = KNNService.ids (App.knn_service st')).
Proof.
  eexists. eexists. split; [vm_compute; reflexivity|].
  apply (upload_image_success Samples.unit_normalize "data/images" string
           Samples.sample_open Samples.sample_save Samples.sample_embed
           Samples.app2 _ "c" (App.mkUpload "c.jpg" "bytes")).
  vm_compute. reflexivity.
Defined.

Lemma upload_image_failure_witness :
  exists st' e,
    Samples.upload Samples.app2 "c" (App.mkUpload "c.jpg" "wide")
      = (st', Err e) /\
    (exists detail, e = HTTPException 500 detail) /\
    App.knn_service st' = App.knn_service Samples.app2 /\
    App.is_projection_fitted st' = App.is_projection_fitted Samples.app2 /\
    (App.image_database st' = App.image_database Samples.app2 \/
     exists emb,
       length emb <> KNNService.embedding_dim (App.knn_service Samples.app2) /\
       dict_get (App.image_database st') "c" =
         Some (App.mkImage ("data/images" ++ "/" ++ "c" ++ ".jpg")
                           "c.jpg" emb None)).
Proof.
  eexists. eexists. split; [vm_compute; reflexivity|].
  apply (upload_image_failure Samples.unit_normalize "data/images" string
           Samples.sample_open Samples.sample_save Samples.sample_embed
           Samples.app2 _ "c" (App.mkUpload "c.jpg" "wide")).
  vm_compute. reflexivity.
Defined.

(** ** Batch uploads *)

Section BatchUploads.

Variable normalize_L2 : vec -> vec.
Variable IMAGES_DIR : string.
Variable Image : Type.
Variable open_image : string -> result Image.
Variable save_image : Image -> string -> result unit.
Variable embed_image : Image -> result vec.

Local Abbreviation upload_image :=
  (App.upload_image normalize_L2 IMAGES_DIR Image open_image save_image
                    embed_image).
Local Abbreviation embed_batch :=
  (App.embed_batch normalize_L2 IMAGES_DIR Image open_image save_image
                   embed_image).
Local Abbreviation embed_batch_loop :=
  (App.embed_batch_loop normalize_L2 IMAGES_DIR Image open_image save_image
                        embed_image).

Lemma upload_image_step (st : App.state) (image_id : string)
      (file : App.upload_file) :
  App.is_projection_fitted (fst (upload_image st image_id file))
    = App.is_projection_fitted st /\
  match snd (upload_image st image_id file) with
  | Ok resp =>
      App.er_image_id resp = image_id /\
      KNNService.ids (App.knn_service (fst (upload_image st image_id file))) =
        KNNService.ids (App.knn_service st) ++ [image_id]
  | Err _ =>
      App.knn_service (fst (upload_image st image_id file)) = App.knn_service st
  end.
Proof.
  unfold App.upload_image.
  destruct (open_image (App.uf_contents file)) as [image|]; simpl; auto.
  destruct (save_image image _); simpl; auto.
  destruct (embed_image image) as [emb|]; simpl; auto.
  destruct (KNNService.add_embeddings normalize_L2 (App.knn_service st)
              (length emb) [emb] [image_id]) as [knn|] eqn:E; simpl; auto.
  destruct (add_embeddings_ids _ _ _ _ _ _ E) as [Hids _]. auto.
Qed.

(** [embed_batch] never raises and never stops early: [processed] is the
    number of files, and there is one entry per file, in order, naming the
    identifier drawn for the file when its upload succeeded and the file's
    name when it failed.  The index gains exactly the identifiers reported
    as successes, in that order, and the projection flag is unchanged. *)
Theorem embed_batch_reports_every_file
        (st st' : App.state) (files : list (string * App.upload_file))
        (processed : nat) (results : list App.batch_entry) :
  embed_batch st files = (st', (processed, results)) ->
  processed = length files /\
  Forall2 (fun entry f =>
             match entry with
             | App.BatchSuccess image_id => image_id = fst f
             | App.BatchError name _ => name = App.uf_filename (snd f)
             end) results files /\
  KNNService.ids (App.knn_service st') =
    KNNService.ids (App.knn_service st) ++ successes results /\
  App.is_projection_fitted st' = App.is_projection_fitted st.
Proof.
  unfold App.embed_batch.
  destruct (embed_batch_loop st files) as [st2 entries] eqn:E.
  intros H. inversion H; subst; clear H.
  revert st st' results E.
  induction files as [|[image_id file] rest IH]; simpl; intros st st' results E.
  - inversion E; subst. simpl. rewrite app_nil_r. repeat split; auto.
  - pose proof (upload_image_step st image_id file) as [Hflag Hstep].
    destruct (upload_image st image_id file) as [st1 outcome]. simpl in *.
    destruct (embed_batch_loop st1 rest) as [st2 entries] eqn:E2.
    inversion E; subst; clear E.
    destruct (IH st1 st' entries E2) as [Hlen [Hall [Hids Hf]]].
    simpl. split; [congruence|]. split; [|split].
    + constructor; auto. destruct outcome as [resp|e]; simpl; [|reflexivity].
      apply Hstep.
    + rewrite Hids. destruct outcome as [resp|e]; simpl.
      * destruct Hstep as [Hid Hgrow]. rewrite Hgrow, Hid, <- app_assoc.
        reflexivity.
      * rewrite Hstep. reflexivity.
    + congruence.
Qed.

End BatchUploads.

Lemma embed_batch_reports_every_file_witness :
  exists st' processed results,
    App.embed_batch Samples.unit_normalize "data/images" string
      Samples.sample_open Samples.sample_save Samples.sample_embed
      Samples.app2 Samples.batch_files
    = (st', (processed, results)) /\
    processed = length Samples.batch_files /\
    Forall2 (fun entry f =>
               match entry with
               | App.BatchSuccess image_id => image_id = fst f
               | App.BatchError name _ => name = App.uf_filename (snd f)
               end) results Samples.batch_files /\
    KNNService.ids (App.knn_service st') =
      KNNService.ids (App.knn_service Samples.app2) ++ successes results /\
    App.is_projection_fitted st' = App.is_projection_fitted Samples.app2.
Proof.
  eexists. eexists. eexists. split; [vm_compute; reflexivity|].
  apply (embed_batch_reports_every_file Samples.unit_normalize "data/images"
           string Samples.sample_open Samples.sample_save Samples.sample_embed
           Samples.app2 _ Samples.batch_files).
  vm_compute. reflexivity.
Defined.

(** ** The search endpoints *)

Lemma dict_get_in_keys {V : Type} (d : list (string * V)) (key : string) :
  In key (dict_keys d) -> exists v, dict_get d key = Some v.
Proof.
  induction d as [|[k0 v0] d IH]; simpl; intros H; [contradiction|].
  destruct (String.eqb_spec k0 key) as [E|E]; [eauto|].
  destruct H as [H|H]; [congruence | auto].
Qed.

Lemma search_results_facts (db : list (string * App.image_record)) :
  forall (names : list string) (dists : list Q),
    Forall (fun h =>
              In (App.h_image_id h) names /\
              exists r, dict_get db (App.h_image_id h) = Some r /\
                        App.h_coords h = App.coords r /\
                        App.h_filename h = App.filename r)
           (App.search_results db names dists) /\
    (length (App.search_results db names dists) <= length names)%nat /\
    (length names = length dists -> incl names (dict_keys db) ->
     length (App.search_results db names dists) = length names).
Proof.
  unfold App.search_results.
  induction names as [|name names IH]; intros [|dist dists]; simpl;
    try (repeat split; auto; lia).
  destruct (IH dists) as [Hall [Hle Heq]].
  assert (Hall' : Forall (fun h =>
              (name = App.h_image_id h \/ In (App.h_image_id h) names) /\
              exists r, dict_get db (App.h_image_id h) = Some r /\
                        App.h_coords h = App.coords r /\
                        App.h_filename h = App.filename r)
           (flat_map (fun '(img_id, distance) =>
                        match dict_get db img_id with
                        | Some r => [App.mkHit img_id distance (App.coords r)
                                               (App.filename r)]
                        | None => []
                        end) (combine names dists))).
  { eapply Forall_impl; [|exact Hall]. intros h [H1 H2]. auto. }
  destruct (dict_get db name) as [r|] eqn:E; simpl.
  - split; [|split].
    + constructor; [|exact Hall']. simpl. split; [left; reflexivity|].
      exists r. auto.
    + lia.
    + intros Hlen Hincl. f_equal. apply Heq; [congruence|].
      intros x Hx. apply Hincl. right. exact Hx.
  - split; [exact Hall'|]. split; [lia|].
    intros _ Hincl. exfalso.
    destruct (dict_get_in_keys db name (Hincl name (or_introl eq_refl)))
      as [v Hv]. congruence.
Qed.

Lemma search_endpoint_hits
        (normalize_L2 : vec -> vec) (index_search : Faiss.search_fn)
        (st : App.state) (q : vec) (k : Z) :
  exact_search index_search ->
  Faiss.ntotal (KNNService.index (App.knn_service st)) =
    length (KNNService.ids (App.knn_service st)) ->
  accepted (App.knn_service st) q k ->
  exists names dists,
    KNNService.search normalize_L2 index_search (App.knn_service st) q k
      = Ok (names, dists) /\
    stored_hits st (Z.to_nat k)
      (App.search_results (App.image_database st) names dists).
Proof.
  intros Hexact Hn Hacc.
  destruct (search_exact_facts normalize_L2 index_search (App.knn_service st)
              q k Hexact Hn Hacc)
    as [names [dists [Hs [L1 [L2 [Hincl _]]]]]].
  exists names, dists. split; [exact Hs|].
  destruct (search_results_facts (App.image_database st) names dists)
    as [Hall [Hle Heq]].
  unfold stored_hits. split; [lia|]. split.
  - eapply Forall_impl; [|exact Hall]. intros h [H1 H2]. split; auto.
  - intros Hdb. rewrite Heq; [exact L1 | congruence |].
    intros x Hx. apply Hdb. apply Hincl. exact Hx.
Qed.

(** Both search endpoints, on an index with one identifier per row and an
    exact search.  When the query cannot be embedded they report status
    500, and so they do when the index is not empty and the embedding has
    not its dimension or [k] is not positive (the search then fails an
    assertion).  Otherwise they succeed with at most [min(k, ntotal)]
    results, each naming an identifier of the index that is a key of the
    database, together with the coordinates and the file name stored for
    it; and when every identifier of the index is in the database there are
    exactly [min(k, ntotal)] results. *)
Theorem search_endpoints_return_stored_images
        (normalize_L2 : vec -> vec) (index_search : Faiss.search_fn)
        (embed_text embed_bytes : string -> result vec)
        (st : App.state) (query : string) (file : App.upload_file) (k : Z) :
  exact_search index_search ->
  Faiss.ntotal (KNNService.index (App.knn_service st)) =
    length (KNNService.ids (App.knn_service st)) ->
  match embed_text query with
  | Err e => exists detail,
      App.search_by_text normalize_L2 index_search embed_text st query k
        = Err (HTTPException 500 detail)
  | Ok emb =>
      (refused (App.knn_service st) emb k ->
       exists detail,
         App.search_by_text normalize_L2 index_search embed_text st query k
           = Err (HTTPException 500 detail)) /\
      (accepted (App.knn_service st) emb k ->
       exists hits,
         App.search_by_text normalize_L2 index_search embed_text st query k
           = Ok (query, hits) /\ stored_hits st (Z.to_nat k) hits)
  end /\
  match embed_bytes (App.uf_contents file) with
  | Err e => exists detail,
      App.search_by_image normalize_L2 index_search embed_bytes st file k
        = Err (HTTPException 500 detail)
  | Ok emb =>
      (refused (App.knn_service st) emb k ->
       exists detail,
         App.search_by_image normalize_L2 index_search embed_bytes st file k
           = Err (HTTPException 500 detail)) /\
      (accepted (App.knn_service st) emb k ->
       exists hits,
         App.search_by_image normalize_L2 index_search embed_bytes st file k
           = Ok hits /\ stored_hits st (Z.to_nat k) hits)
  end.
Proof.
  intros Hexact Hn. split.
  - unfold App.search_by_text.
    destruct (embed_text query) as [emb|e]; simpl; [|eexists; reflexivity].
    split.
    + intros Hr.
      rewrite (search_refused_facts normalize_L2 index_search _ emb k Hn Hr).
      simpl. eexists. reflexivity.
    + intros Ha.
      destruct (search_endpoint_hits normalize_L2 index_search st emb k
                  Hexact Hn Ha) as [names [dists [Hs Hg]]].
      rewrite Hs. simpl. eexists. split; [reflexivity | exact Hg].
  - unfold App.search_by_image.
    destruct (embed_bytes (App.uf_contents file)) as [emb|e]; simpl;
      [|eexists; reflexivity].
    split.
    + intros Hr.
      rewrite (search_refused_facts normalize_L2 index_search _ emb k Hn Hr).
      simpl. eexists. reflexivity.
    + intros Ha.
      destruct (search_endpoint_hits normalize_L2 index_search st emb k
                  Hexact Hn Ha) as [names [dists [Hs Hg]]].
      rewrite Hs. simpl. eexists. split; [reflexivity | exact Hg].
Qed.

Lemma search_endpoints_return_stored_images_witness :
  (exists detail,
     App.search_by_text Samples.unit_normalize FlatIndex.search
                        Samples.sample_text Samples.app2 "desk" 0
       = Err (HTTPException 500 detail)) /\
  (exists hits,
     App.search_by_text Samples.unit_normalize FlatIndex.search
                        Samples.sample_text Samples.app2 "desk" 5
       = Ok ("desk"%string, hits) /\
     stored_hits Samples.app2 (Z.to_nat 5) hits) /\
  (exists detail,
     App.search_by_image Samples.unit_normalize FlatIndex.search
                         Samples.sample_bytes Samples.app2
                         (App.mkUpload "q.jpg" "bytes") 0
       = Err (HTTPException 500 detail)) /\
  (exists hits,
     App.search_by_image Samples.unit_normalize FlatIndex.search
                         Samples.sample_bytes Samples.app2
                         (App.mkUpload "q.jpg" "bytes") 5
       = Ok hits /\ stored_hits Samples.app2 (Z.to_nat 5) hits).
Proof.
  destruct (search_endpoints_return_stored_images Samples.unit_normalize
              FlatIndex.search Samples.sample_text Samples.sample_bytes
              Samples.app2 "desk" (App.mkUpload "q.jpg" "bytes") 0
              FlatIndexFacts.search_exact eq_refl) as [[Ht0 _] [Hi0 _]].
  destruct (search_endpoints_return_stored_images Samples.unit_normalize
              FlatIndex.search Samples.sample_text Samples.sample_bytes
              Samples.app2 "desk" (App.mkUpload "q.jpg" "bytes") 5
              FlatIndexFacts.search_exact eq_refl) as [[_ Ht5] [_ Hi5]].
  split; [|split; [|split]].
  - apply Ht0. split; [discriminate|]. right. lia.
  - apply Ht5. right. split; [reflexivity|lia].
  - apply Hi0. split; [discriminate|]. right. lia.
  - apply Hi5. right. split; [reflexivity|lia].
Defined.

(** ** Projections *)

Lemma normalize_zero_width (coords : matrix) (scale : Q) :
  coords <> [] -> rect 0 coords ->
  exists msg, UMAPService.normalize_coords coords scale = Err (ValueError msg).
Proof.
  intros Hne Hrect.
  destruct (get_bounds_spec 0 coords Hne Hrect) as [mn [mx [Hb [L1 [L2 _]]]]].
  apply length_zero_nil in L1, L2. subst.
  unfold UMAPService.normalize_coords. rewrite Hb. simpl.
  eexists. reflexivity.
Qed.

Lemma normalize_within (n : nat) (coords out : matrix) (scale : Q) :
  rect n coords -> 0 <= scale ->
  UMAPService.normalize_coords coords scale = Ok out ->
  forall row x, In row out -> In x row -> - scale <= x /\ x <= scale.
Proof.
  intros Hrect Hscale Hout row x Hrow Hx.
  destruct coords as [|p coords'] eqn:Ec; [discriminate|]. rewrite <- Ec in *.
  assert (Hne : coords <> []) by (rewrite Ec; discriminate).
  destruct (Nat.eq_dec n 0) as [E0|Hn].
  { subst n. destruct (normalize_zero_width coords scale Hne Hrect) as [msg E].
    congruence. }
  destruct (normalize_entries n coords scale Hne ltac:(lia) Hrect)
    as [out' [mn [mx [R [Hout' [HB [Hub [_ [Lout [Rout Hent]]]]]]]]]].
  rewrite Hout in Hout'. inversion Hout'; subst out'. clear Hout'.
  destruct (In_nth _ _ [] Hrow) as [i [Hi Ei]].
  assert (Hi' : (i < length coords)%nat) by (rewrite <- Lout; exact Hi).
  unfold rect in Rout. rewrite Forall_forall in Rout.
  assert (Lrow : length row = n) by (apply Rout; exact Hrow).
  destruct (In_nth _ _ 0 Hx) as [j [Hj Ej]]. rewrite Lrow in Hj.
  subst row x.
  destruct (Hent i j Hi' Hj) as [Hpos Hdeg].
  destruct HB as [_ [_ B]]. destruct (B j Hj) as [Hall _].
  destruct (Hall (nth i coords []) (nth_In _ _ Hi')) as [Hlo Hhi].
  specialize (Hub j Hj).
  destruct (Qlt_le_dec 0 R) as [HR|HR].
  - pose proof (entry_within _ _ _ R scale HR Hlo Hhi Hub Hscale) as [H1 H2].
    split.
    + eapply Qle_trans; [exact H1|]. apply Qle_lteq. right.
      symmetry. apply (Qeq_of_eqs _ _ _ _ (Hpos HR) eq_refl). apply Qeq_refl.
    + eapply Qle_trans; [|exact H2]. apply Qle_lteq. right.
      apply (Qeq_of_eqs _ _ _ _ (Hpos HR) eq_refl). apply Qeq_refl.
  - assert (E : nth j (nth i out []) 0 == 0).
    { apply (Qeq_of_eqs _ _ _ _ (Hdeg HR) eq_refl).
      rewrite Qhalf. lra. }
    rewrite E. split; lra.
Qed.





Lemma store_coords_identity (db : list (string * App.image_record))
      (image_id : string) (c : vec) :
  map identity_of (App.store_coords db image_id c) = map identity_of db.
Proof.
  induction db as [|[k0 r] db IH]; simpl; auto.
  destruct (String.eqb k0 image_id); simpl; [reflexivity|]. f_equal. exact IH.
Qed.

Lemma store_coords_get_other (db : list (string * App.image_record))
      (image_id other : string) (c : vec) :
  other <> image_id ->
  dict_get (App.store_coords db image_id c) other = dict_get db other.
Proof.
  intros Hne. induction db as [|[k0 r] db IH]; simpl; auto.
  destruct (String.eqb_spec k0 image_id) as [E|E]; simpl.
  - subst. destruct (String.eqb_spec image_id other); [congruence|reflexivity].
  - destruct (String.eqb k0 other); auto.
Qed.

Lemma store_coords_get_same (db : list (string * App.image_record))
      (image_id : string) (c : vec) (r : App.image_record) :
  dict_get db image_id = Some r ->
  dict_get (App.store_coords db image_id c) image_id
    = Some (App.set_coords r c).
Proof.
  induction db as [|[k0 r0] db IH]; simpl; [discriminate|].
  destruct (String.eqb k0 image_id) eqn:E; simpl; rewrite E.
  - intros H. inversion H; subst. reflexivity.
  - exact IH.
Qed.

Lemma write_back_identity (cn : matrix) :
  forall nodes db,
    map identity_of (fst (App.write_back db cn nodes)) = map identity_of db.
Proof.
  induction nodes as [|[i image_id] nodes IH]; intros db; simpl; auto.
  destruct (getitem cn i) as [row|]; simpl; auto.
  rewrite IH. apply store_coords_identity.
Qed.

Lemma write_back_untouched (cn : matrix) :
  forall nodes db other,
    ~ In other (map snd nodes) ->
    dict_get (fst (App.write_back db cn nodes)) other = dict_get db other.
Proof.
  induction nodes as [|[i image_id] nodes IH]; intros db other Hnin; simpl; auto.
  destruct (getitem cn i) as [row|]; simpl; auto.
  rewrite IH by (intros H; apply Hnin; right; exact H).
  apply store_coords_get_other. intros E. apply Hnin. left. simpl. auto.
Qed.

Lemma write_back_stored (cn : matrix) :
  forall nodes db db',
    App.write_back db cn nodes = (db', Ok tt) ->
    NoDup (map snd nodes) ->
    forall i image_id r,
      In (i, image_id) nodes -> dict_get db image_id = Some r ->
      exists row, nth_error cn i = Some row /\
                  dict_get db' image_id = Some (App.set_coords r row).
Proof.
  induction nodes as [|[i0 id0] nodes IH]; intros db db' Hrun Hnd i image_id r
    Hin Hget; simpl in *; [contradiction|].
  destruct (getitem cn i0) as [row0|] eqn:E0; [|inversion Hrun].
  inversion Hnd as [|? ? Hfresh Hnd']; subst.
  destruct Hin as [E|Hin].
  - inversion E; subst. exists row0. split; [apply getitem_inv; exact E0|].
    pose proof (write_back_untouched cn nodes
                  (App.store_coords db image_id row0) image_id Hfresh) as Hu.
    rewrite Hrun in Hu. simpl in Hu. rewrite Hu.
    apply store_coords_get_same. exact Hget.
  - apply (IH _ _ Hrun Hnd' i image_id r Hin).
    rewrite store_coords_get_other; [exact Hget|].
    intros E. subst. apply Hfresh. apply in_map_iff. exists (i, id0). auto.
Qed.

Lemma mapM_ok_each {A B : Type} (f : A -> result B) :
  forall (l : list A) (bs : list B),
    mapM f l = Ok bs -> forall a, In a l -> exists b, f a = Ok b.
Proof.
  induction l as [|a0 l IH]; simpl; intros bs H a Ha; [contradiction|].
  destruct (f a0) as [b0|] eqn:E0; simpl in H; [|discriminate].
  destruct (mapM f l) as [bs'|] eqn:E1; simpl in H; [|discriminate].
  destruct Ha as [<-|Ha]; [eauto | eapply IH; eauto].
Qed.

Lemma point_of_three (cn : matrix) (i : nat) (image_id : string) (pt : App.point) :
  App.point_of cn (i, image_id) = Ok pt ->
  exists row, nth_error cn i = Some row /\ (3 <= length row)%nat.
Proof.
  unfold App.point_of.
  destruct (getitem cn i) as [row|] eqn:E; simpl; [|discriminate].
  destruct (getitem row 0) as [x|]; simpl; [|discriminate].
  destruct (getitem row 1) as [y|]; simpl; [|discriminate].
  destruct (getitem row 2) as [z|] eqn:E2; simpl; [|discriminate].
  intros _. exists row. split; [apply getitem_inv; exact E|].
  apply getitem_inv in E2.
  assert (2 < length row)%nat by (apply nth_error_Some; congruence). lia.
Qed.

Lemma dict_get_of_nth {V : Type} (d : list (string * V)) (i : nat)
      (key : string) (v : V) :
  NoDup (dict_keys d) -> nth_error d i = Some (key, v) ->
  dict_get d key = Some v /\ nth_error (dict_keys d) i = Some key.
Proof.
  intros Hnd Hi. split.
  - apply nth_error_In in Hi. clear i.
    induction d as [|[k0 v0] d IH]; simpl in *; [contradiction|].
    inversion Hnd as [|? ? Hfresh Hnd']; subst.
    destruct Hi as [E|Hi].
    + inversion E; subst. rewrite String.eqb_refl. reflexivity.
    + destruct (String.eqb_spec k0 key) as [E|E]; [|auto].
      subst. exfalso. apply Hfresh. unfold dict_keys. apply in_map_iff.
      exists (key, v). auto.
  - unfold dict_keys. rewrite nth_error_map, Hi. reflexivity.
Qed.

(** These are the facts behind the two statements on [project_to_3d] that
    follow. *)
Lemma project_to_3d_cases
      (model_fit_transform : Z -> matrix -> result matrix)
      (write_json : string -> App.document -> result unit) (st : App.state) :
  let st' := fst (App.project_to_3d model_fit_transform write_json st) in
  App.knn_service st' = App.knn_service st /\
  map identity_of (App.image_database st') = map identity_of (App.image_database st) /\
  (App.is_projection_fitted st = true -> App.is_projection_fitted st' = true).
Proof.
  simpl. unfold App.project_to_3d.
  destruct (length (App.image_database st) <? 2)%nat; simpl; auto.
  destruct (UMAPService.fit_transform _ _ _) as [um fitted].
  destruct fitted as [coords|]; simpl; auto.
  destruct (UMAPService.normalize_coords coords 10) as [cn|]; simpl; auto.
  pose proof (write_back_identity cn
                (enumerate (dict_keys (App.image_database st)))
                (App.image_database st)) as Hid.
  destruct (App.write_back _ cn _) as [db stored]. simpl in Hid.
  destruct stored; simpl; auto.
Qed.

(** Whatever [project_to_3d] returns or raises, it leaves the index alone,
    keeps the identifiers of the database in their order with the path,
    file name and embedding of every record, and never turns the fitted
    flag off. *)
Theorem project_to_3d_keeps_identities
        (model_fit_transform : Z -> matrix -> result matrix)
        (write_json : string -> App.document -> result unit) (st : App.state) :
  let st' := fst (App.project_to_3d model_fit_transform write_json st) in
  App.knn_service st' = App.knn_service st /\
  map identity_of (App.image_database st') = map identity_of (App.image_database st) /\
  (App.is_projection_fitted st = true -> App.is_projection_fitted st' = true).
Proof. apply project_to_3d_cases. Qed.

Lemma project_to_3d_ok_facts
        (model_fit_transform : Z -> matrix -> result matrix)
        (write_json : string -> App.document -> result unit)
        (st st' : App.state) (resp : App.project_response) :
  NoDup (dict_keys (App.image_database st)) ->
  App.project_to_3d model_fit_transform write_json st = (st', Ok resp) ->
  (2 <= length (App.image_database st))%nat /\
  App.is_projection_fitted st' = true /\
  App.pr_num_images resp = length (App.image_database st) /\
  exists coords cn,
    snd (UMAPService.fit_transform model_fit_transform (App.umap_service st)
           (map (fun kv => App.embedding (snd kv)) (App.image_database st)))
      = Ok coords /\
    UMAPService.normalize_coords coords 10 = Ok cn /\
    (forall i image_id r,
        nth_error (App.image_database st) i = Some (image_id, r) ->
        exists row,
          nth_error cn i = Some row /\ (3 <= length row)%nat /\
          dict_get (App.image_database st') image_id
            = Some (App.set_coords r row) /\
          ((exists n, rect n coords) ->
           forall x, In x row -> - (10) <= x /\ x <= 10)).
Proof.
  intros Hnd. unfold App.project_to_3d.
  destruct (Nat.ltb_spec (length (App.image_database st)) 2) as [Hlt|Hge];
    [discriminate|].
  destruct (UMAPService.fit_transform _ _ _) as [um fitted]. simpl.
  destruct fitted as [coords|]; [|discriminate].
  destruct (UMAPService.normalize_coords coords 10) as [cn|] eqn:En;
    [|discriminate].
  destruct (App.write_back _ cn _) as [db stored] eqn:Ew.
  destruct stored as [[]|]; [|discriminate].
  destruct (mapM (App.point_of cn) _) as [points|] eqn:Ep; simpl;
    [|discriminate].
  destruct (write_json _ _); simpl; [|discriminate].
  intros H. inversion H; subst; clear H. simpl.
  split; [exact Hge|]. split; [reflexivity|].
  split; [unfold dict_keys; apply length_map|].
  exists coords, cn. split; [reflexivity|]. split; [exact En|].
  intros i image_id r Hi.
  destruct (dict_get_of_nth _ _ _ _ Hnd Hi) as [Hget Hkey].
  assert (Hin : In (i, image_id) (enumerate (dict_keys (App.image_database st))))
    by (apply enumerate_in; exact Hkey).
  destruct (write_back_stored cn _ _ _ Ew
              ltac:(rewrite enumerate_keys; exact Hnd) i image_id r Hin Hget)
    as [row [Hrow Hstored]].
  exists row. split; [exact Hrow|]. split; [|split; [exact Hstored|]].
  - destruct (mapM_ok_each _ _ _ Ep (i, image_id) Hin) as [pt Hpt].
    destruct (point_of_three cn i image_id pt Hpt) as [row' [Hrow' Hlen]].
    congruence.
  - intros [n Hrect] x Hx.
    apply (normalize_within n coords cn 10 Hrect ltac:(discriminate) En row x);
      [|exact Hx].
    eapply nth_error_In; eauto.
Qed.

(** When [project_to_3d] succeeds on a database with distinct keys, at least
    two images were registered, the flag is set, the response counts the
    images, and every record holds as coordinates the row of the normalised
    projection at its position, which has at least three components. *)
Theorem project_to_3d_success
        (model_fit_transform : Z -> matrix -> result matrix)
        (write_json : string -> App.document -> result unit)
        (st st' : App.state) (resp : App.project_response) :
  NoDup (dict_keys (App.image_database st)) ->
  App.project_to_3d model_fit_transform write_json st = (st', Ok resp) ->
  (2 <= length (App.image_database st))%nat /\
  App.is_projection_fitted st' = true /\
  App.pr_num_images resp = length (App.image_database st) /\
  exists coords cn,
    snd (UMAPService.fit_transform model_fit_transform (App.umap_service st)
           (map (fun kv => App.embedding (snd kv)) (App.image_database st)))
      = Ok coords /\
    UMAPService.normalize_coords coords 10 = Ok cn /\
    (forall i image_id r,
        nth_error (App.image_database st) i = Some (image_id, r) ->
        exists row,
          nth_error cn i = Some row /\ (3 <= length row)%nat /\
          dict_get (App.image_database st') image_id
            = Some (App.set_coords r row)).
Proof.
  intros Hnd Hrun.
  destruct (project_to_3d_ok_facts _ _ _ _ _ Hnd Hrun)
    as (H2 & Hf & Hc & coords & cn & Hfit & Hn & Hrows).
  split; [exact H2|]. split; [exact Hf|]. split; [exact Hc|].
  exists coords, cn. split; [exact Hfit|]. split; [exact Hn|].
  intros i image_id r Hi.
  destruct (Hrows i image_id r Hi) as (row & Hr & Hl & Hst & _).
  exists row. split; [exact Hr|]. split; [exact Hl|exact Hst].
Qed.

Lemma project_to_3d_success_witness :
  exists st' resp,
    App.project_to_3d Samples.projector_pad Samples.disk_ok Samples.app2
      = (st', Ok resp) /\
    (2 <= length (App.image_database Samples.app2))%nat /\
    App.is_projection_fitted st' = true /\
    App.pr_num_images resp = length (App.image_database Samples.app2) /\
    exists coords cn,
      snd (UMAPService.fit_transform Samples.projector_pad
             (App.umap_service Samples.app2)
             (map (fun kv => App.embedding (snd kv))
                  (App.image_database Samples.app2)))
        = Ok coords /\
      UMAPService.normalize_coords coords 10 = Ok cn /\
      (forall i image_id r,
          nth_error (App.image_database Samples.app2) i = Some (image_id, r) ->
          exists row,
            nth_error cn i = Some row /\ (3 <= length row)%nat /\
            dict_get (App.image_database st') image_id
              = Some (App.set_coords r row)).
Proof.
  eexists. eexists. split; [vm_compute; reflexivity|].
  apply (project_to_3d_success Samples.projector_pad Samples.disk_ok
           Samples.app2).
  - repeat constructor; simpl; intuition discriminate.
  - vm_compute. reflexivity.
Defined.

(** ** Export after a projection *)

(** After a successful [project_to_3d] on a database with distinct keys,
    [export_data], when it succeeds, lists the identifiers of the database
    in order, each with the thumbnail path made from its identifier, its
    file name, and coordinates that are present and have at least three
    components: no image is exported without a position. *)
Theorem export_after_projection_has_all_coords
        (model_fit_transform : Z -> matrix -> result matrix)
        (write_json : string -> App.document -> result unit)
        (write_meta : string -> list (string * App.meta_entry) -> result unit)
        (read_json : string -> option (result App.document))
        (st st' : App.state) (resp : App.project_response) (ex : App.export) :
  NoDup (dict_keys (App.image_database st)) ->
  App.project_to_3d model_fit_transform write_json st = (st', Ok resp) ->
  App.export_data write_meta read_json st' = Ok ex ->
  map fst (App.ex_meta ex) = dict_keys (App.image_database st) /\
  Forall2 (fun m entry =>
             fst m = fst entry /\
             App.m_thumb (snd m) = ("/images/" ++ fst entry ++ ".jpg")%string /\
             App.m_filename (snd m) = App.filename (snd entry) /\
             exists c, App.m_coords (snd m) = Some c /\ (3 <= length c)%nat)
          (App.ex_meta ex) (App.image_database st).
Proof.
  intros Hnd Hproj Hex.
  destruct (project_to_3d_ok_facts _ _ _ _ _ Hnd Hproj)
    as [_ [_ [_ [coords [cn [_ [_ Hrows]]]]]]].
  pose proof (project_to_3d_cases model_fit_transform write_json st)
    as [_ [Hid _]].
  rewrite Hproj in Hid. simpl in Hid.
  assert (Hkeys : dict_keys (App.image_database st')
                  = dict_keys (App.image_database st)).
  { unfold dict_keys.
    apply (f_equal (map fst)) in Hid. rewrite !map_map in Hid. exact Hid. }
  assert (Hmeta : App.ex_meta ex =
            map (fun '(img_id, data) =>
                   (img_id, App.mkMeta ("/images/" ++ img_id ++ ".jpg")
                                       (App.filename data) (App.coords data) []))
                (App.image_database st')).
  { unfold App.export_data in Hex.
    destruct (write_meta _ _); simpl in Hex; [|discriminate].
    destruct (match read_json "coords.json"%string with
              | Some r => d <- r ;; Ok (Some d) | None => Ok None end);
      simpl in Hex; [|discriminate].
    destruct (match read_json "graph.json"%string with
              | Some r => d <- r ;; Ok (Some d) | None => Ok None end);
      simpl in Hex; [|discriminate].
    inversion Hex; subst. reflexivity. }
  rewrite Hmeta. split.
  - rewrite map_map. rewrite <- Hkeys. unfold dict_keys.
    apply map_ext. intros [k r]. reflexivity.
  - assert (Hnd' : NoDup (dict_keys (App.image_database st')))
      by (rewrite Hkeys; exact Hnd).
    apply (Forall2_of_nth_gen _ (EmptyString, App.mkMeta EmptyString EmptyString None [])
             (EmptyString, App.mkImage EmptyString EmptyString [] None)).
    + rewrite length_map. apply (f_equal (@length _)) in Hkeys.
      unfold dict_keys in Hkeys. rewrite !length_map in Hkeys. exact Hkeys.
    + intros i Hi. rewrite length_map in Hi.
      assert (Hi0 : (i < length (App.image_database st))%nat).
      { apply (f_equal (@length _)) in Hkeys. unfold dict_keys in Hkeys.
        rewrite !length_map in Hkeys. lia. }
      destruct (nth_error (App.image_database st') i) as [[k' r']|] eqn:E';
        [|apply nth_error_None in E'; lia].
      destruct (nth_error (App.image_database st) i) as [[k r]|] eqn:E;
        [|apply nth_error_None in E; lia].
      destruct (dict_get_of_nth _ _ _ _ Hnd' E') as [Hget' Hk'].
      destruct (dict_get_of_nth _ _ _ _ Hnd E) as [_ Hk].
      rewrite Hkeys in Hk'. assert (k' = k) by congruence. subst k'.
      destruct (Hrows i k r E) as [row [_ [Hlen [Hstored _]]]].
      assert (r' = App.set_coords r row) by congruence. subst r'.
      rewrite (nth_error_nth _ _ _ E).
      erewrite nth_error_nth;
        [|rewrite nth_error_map, E'; simpl; reflexivity].
      simpl. repeat split; auto. exists row. auto.
Qed.

Lemma export_after_projection_has_all_coords_witness :
  exists st' resp ex,
    App.project_to_3d Samples.projector_pad Samples.disk_ok Samples.app2
      = (st', Ok resp) /\
    App.export_data Samples.meta_ok Samples.no_files st' = Ok ex /\
    map fst (App.ex_meta ex) = dict_keys (App.image_database Samples.app2) /\
    Forall2 (fun m entry =>
               fst m = fst entry /\
               App.m_thumb (snd m) = ("/images/" ++ fst entry ++ ".jpg")%string /\
               App.m_filename (snd m) = App.filename (snd entry) /\
               exists c, App.m_coords (snd m) = Some c /\ (3 <= length c)%nat)
            (App.ex_meta ex) (App.image_database Samples.app2).
Proof.
  eexists. eexists. eexists.
  split; [vm_compute; reflexivity|]. split; [vm_compute; reflexivity|].
  eapply (export_after_projection_has_all_coords Samples.projector_pad
            Samples.disk_ok Samples.meta_ok Samples.no_files Samples.app2).
  - repeat constructor; simpl; intuition discriminate.
  - vm_compute. reflexivity.
  - vm_compute. reflexivity.
Defined.

(** ** Edge weights under rounding *)



(** ** Image identifiers of stored objects *)

Lemma split_not_nil (sep : ascii) (s : string) : split sep s <> [].
Proof.
  destruct s as [|c s]; simpl; [discriminate|].
  destruct (Ascii.eqb c sep); [discriminate|].
  destruct (split sep s); discriminate.
Qed.

Lemma last_cons_not_nil {A : Type} (x : A) (l : list A) (d d' : A) :
  l <> [] -> last (x :: l) d = last l d'.
Proof.
  revert x. induction l as [|y l IH]; intros x Hl; [contradiction|].
  destruct l as [|z l]; [reflexivity|].
  change (last (x :: y :: z :: l) d) with (last (y :: z :: l) d).
  change (last (y :: z :: l) d') with (last (z :: l) d').
  rewrite (IH y) by discriminate. reflexivity.
Qed.

(** The last piece of a split: it has no separator, and what stands before
    it in the string is empty or ends with the separator. *)
Lemma last_split (sep : ascii) :
  forall s, exists pre,
    s = (pre ++ last (split sep s) EmptyString)%string /\
    contains sep (last (split sep s) EmptyString) = false /\
    (length (split sep s) = 1%nat -> pre = EmptyString) /\
    ((1 < length (split sep s))%nat ->
     exists p, pre = (p ++ String sep EmptyString)%string).
Proof.
  induction s as [|c s IH].
  - exists EmptyString. simpl. repeat split; auto. intros H. lia.
  - destruct IH as (pre & Hs & Hc & H1 & H2). simpl.
    destruct (Ascii.eqb c sep) eqn:Ec.
    + apply Ascii.eqb_eq in Ec. subst c.
      pose proof (split_not_nil sep s) as Hn.
      exists (String sep pre).
      rewrite (last_cons_not_nil EmptyString (split sep s) EmptyString EmptyString Hn).
      split; [simpl; f_equal; exact Hs|]. split; [exact Hc|].
      split.
      * simpl. intros H. destruct (split sep s); [contradiction|discriminate].
      * intros _. destruct (split sep s) as [|w [|w' ws]] eqn:E.
        -- contradiction.
        -- rewrite (H1 eq_refl). exists EmptyString. reflexivity.
        -- destruct H2 as [p Hp]; [simpl; lia|]. exists (String sep p).
           rewrite Hp. reflexivity.
    + destruct (split sep s) as [|w [|w' ws]] eqn:E.
      * exfalso. exact (split_not_nil sep s E).
      * exists EmptyString. simpl in *. rewrite (H1 eq_refl) in Hs. simpl in Hs.
        split; [f_equal; exact Hs|]. split; [rewrite Ec, Hc; reflexivity|].
        split; [reflexivity|]. intros H. lia.
      * destruct H2 as [p Hp]; [simpl; lia|]. exists (String c pre).
        change (last (String c w :: w' :: ws) EmptyString)
          with (last (w' :: ws) EmptyString).
        change (last (w :: w' :: ws) EmptyString)
          with (last (w' :: ws) EmptyString) in Hs, Hc.
        split; [simpl; f_equal; exact Hs|]. split; [exact Hc|].
        split; [simpl; intros H; discriminate|].
        intros _. exists (String c p). rewrite Hp. reflexivity.
Qed.

(** The first piece of a split is what stands before the first separator. *)
Lemma hd_split (sep : ascii) :
  forall s, exists pieces, split sep s = before_first sep s :: pieces.
Proof.
  induction s as [|c s [pieces IH]]; simpl.
  - exists []. reflexivity.
  - destruct (Ascii.eqb c sep); [eexists; reflexivity|].
    rewrite IH. eexists. reflexivity.
Qed.

Lemma before_first_decomp (sep : ascii) :
  forall s, exists post,
    s = (before_first sep s ++ post)%string /\
    contains sep (before_first sep s) = false /\
    (post = EmptyString \/ exists q, post = String sep q) /\
    (forall c, contains c s = false ->
               contains c (before_first sep s) = false /\
               contains c post = false).
Proof.
  induction s as [|c s (post & Hs & Hc & Hp & Ho)]; simpl.
  - exists EmptyString. repeat split; auto.
  - destruct (Ascii.eqb c sep) eqn:Ec.
    + apply Ascii.eqb_eq in Ec. subst c. exists (String sep s). simpl.
      split; [reflexivity|]. split; [reflexivity|]. split; [right; eauto|].
      intros c' H. split; [reflexivity|exact H].
    + exists post. simpl. split; [f_equal; exact Hs|].
      split; [rewrite Ec; exact Hc|]. split; [exact Hp|].
      intros c' H. apply orb_false_iff in H. destruct H as [Hcc H].
      destruct (Ho c' H) as [Ha Hb]. rewrite Hcc, Ha. auto.
Qed.

Lemma last_default {A : Type} (l : list A) (d d' : A) :
  l <> [] -> last l d = last l d'.
Proof.
  induction l as [|x l IH]; intros Hl; [contradiction|].
  destruct l as [|y l]; [reflexivity|].
  change (last (x :: y :: l) d) with (last (y :: l) d).
  change (last (x :: y :: l) d') with (last (y :: l) d').
  apply IH. discriminate.
Qed.

Lemma getitem_last_value {A : Type} (l : list A) (d : A) :
  l <> [] -> getitem_last l = Ok (last l d).
Proof.
  destruct l as [|a l]; intros Hl; [contradiction|].
  unfold getitem_last. f_equal. apply last_default. exact Hl.
Qed.

Lemma image_id_value (key : string) :
  EmbeddingProcessor.image_id key =
  Ok (before_first "." (last (split "/" key) EmptyString)).
Proof.
  unfold EmbeddingProcessor.image_id.
  rewrite (getitem_last_value (split "/" key) EmptyString (split_not_nil _ _)).
  unfold bind.
  destruct (hd_split "." (last (split "/" key) EmptyString)) as [pieces Hp].
  rewrite Hp. reflexivity.
Qed.

(** For every key, [image_id] is defined; it is a piece of the key without
    ['/'] and without ['.'], what stands before it in the key is empty or
    ends with ['/'], and what follows it is empty or begins with ['.'] and
    has no ['/']: the identifier is the name after the last ['/'] cut at its
    first ['.']. *)
Theorem image_id_is_stem_of_basename (key : string) :
  exists id pre post,
    EmbeddingProcessor.image_id key = Ok id /\
    key = (pre ++ id ++ post)%string /\
    contains "/" id = false /\ contains "." id = false /\
    contains "/" post = false /\
    (pre = EmptyString \/ exists p, pre = (p ++ "/")%string) /\
    (post = EmptyString \/ exists q, post = ("." ++ q)%string).
Proof.
  destruct (last_split "/" key) as (pre & Hk & Hc & H1 & H2).
  destruct (before_first_decomp "." (last (split "/" key) EmptyString))
    as (post & Hn & Hd & Hp & Ho).
  destruct (Ho _ Hc) as [Hi Hq].
  exists (before_first "." (last (split "/" key) EmptyString)), pre, post.
  split; [apply image_id_value|].
  split; [rewrite <- Hn; exact Hk|].
  split; [exact Hi|]. split; [exact Hd|]. split; [exact Hq|].
  split; [|exact Hp].
  destruct (split "/" key) as [|w [|w' ws]] eqn:E.
  - exfalso. exact (split_not_nil _ _ E).
  - left. apply H1. reflexivity.
  - right. apply H2. simpl. lia.
Qed.

Lemma split_without_sep (sep : ascii) :
  forall s, contains sep s = false -> split sep s = [s].
Proof.
  induction s as [|c s IH]; simpl; intros H; [reflexivity|].
  apply orb_false_iff in H. destruct H as [Hc H].
  rewrite Hc, (IH H). reflexivity.
Qed.

Lemma split_app_sep (sep : ascii) (a b : string) :
  contains sep a = false ->
  split sep (a ++ String sep b)%string = a :: split sep b.
Proof.
  induction a as [|x a IH]; simpl; intros H.
  - rewrite Ascii.eqb_refl. reflexivity.
  - apply orb_false_iff in H. destruct H as [Hx H].
    rewrite Hx, (IH H). reflexivity.
Qed.

Lemma contains_app (c : ascii) (a b : string) :
  contains c (a ++ b)%string = contains c a || contains c b.
Proof.
  induction a as [|x a IH]; simpl; [reflexivity|].
  rewrite IH. apply orb_assoc.
Qed.

Lemma before_first_app (c : ascii) (a b : string) :
  contains c a = false ->
  before_first c (a ++ b)%string = (a ++ before_first c b)%string.
Proof.
  induction a as [|x a IH]; simpl; intros H; [reflexivity|].
  apply orb_false_iff in H. destruct H as [Hx H].
  rewrite Hx, (IH H). reflexivity.
Qed.

Lemma uploaded_image_id_value (timestamp filename : string) :
  contains "/" timestamp = false -> contains "." timestamp = false ->
  contains "/" filename = false ->
  EmbeddingProcessor.image_id (UploadHandler.s3_key timestamp filename) =
  Ok (timestamp ++ "_" ++ before_first "." filename)%string.
Proof.
  intros Hs Hd Hf. rewrite image_id_value. f_equal.
  assert (Hr : contains "/" (timestamp ++ "_" ++ filename)%string = false).
  { rewrite contains_app, Hs. simpl. exact Hf. }
  change (UploadHandler.s3_key timestamp filename)
    with ("images" ++ String "/" (timestamp ++ "_" ++ filename))%string.
  rewrite (split_app_sep "/" "images" _ eq_refl).
  rewrite (split_without_sep "/" _ Hr).
  change (last ["images"%string; (timestamp ++ "_" ++ filename)%string] EmptyString)
    with (timestamp ++ "_" ++ filename)%string.
  rewrite (before_first_app "." timestamp _ Hd). reflexivity.
Qed.

(** The embedding of an upload: for a timestamp without ['/'] and ['.'] and
    a file name without ['/'], the identifier derived from the key the
    upload handler builds is the timestamp, an underscore and the file name
    cut at its first ['.'].  Two uploads with the same timestamp whose file
    names agree up to their first ['.'] therefore get the same identifier. *)
Theorem uploaded_image_id_drops_extension (timestamp filename : string) :
  contains "/" timestamp = false -> contains "." timestamp = false ->
  contains "/" filename = false ->
  EmbeddingProcessor.image_id (UploadHandler.s3_key timestamp filename) =
    Ok (timestamp ++ "_" ++ before_first "." filename)%string /\
  forall other,
    contains "/" other = false ->
    before_first "." other = before_first "." filename ->
    EmbeddingProcessor.image_id (UploadHandler.s3_key timestamp other) =
    EmbeddingProcessor.image_id (UploadHandler.s3_key timestamp filename).
Proof.
  intros Hs Hd Hf. split; [apply uploaded_image_id_value; assumption|].
  intros other Ho Hb.
  rewrite (uploaded_image_id_value timestamp other Hs Hd Ho).
  rewrite (uploaded_image_id_value timestamp filename Hs Hd Hf).
  rewrite Hb. reflexivity.
Qed.

Lemma uploaded_image_id_drops_extension_witness :
  EmbeddingProcessor.image_id
    (UploadHandler.s3_key "20240131_235959" "cat.v2.jpg") =
    Ok ("20240131_235959" ++ "_" ++ before_first "." "cat.v2.jpg")%string /\
  forall other,
    contains "/" other = false ->
    before_first "." other = before_first "." "cat.v2.jpg" ->
    EmbeddingProcessor.image_id (UploadHandler.s3_key "20240131_235959" other) =
    EmbeddingProcessor.image_id
      (UploadHandler.s3_key "20240131_235959" "cat.v2.jpg").
Proof.
  apply (uploaded_image_id_drops_extension "20240131_235959" "cat.v2.jpg");
    reflexivity.
Defined.

(** ** Replies of Claude *)

Lemma string_length_app (a b : string) :
  String.length (a ++ b)%string = (String.length a + String.length b)%nat.
Proof. induction a as [|x a IH]; simpl; [reflexivity|]. rewrite IH. reflexivity. Qed.

Lemma string_app_assoc (a b c : string) :
  ((a ++ b) ++ c = a ++ (b ++ c))%string.
Proof. induction a as [|x a IH]; simpl; [reflexivity|]. rewrite IH. reflexivity. Qed.

Lemma find_absent (c : ascii) :
  forall s, contains c s = false -> find c s = (-1)%Z.
Proof.
  induction s as [|x s IH]; simpl; intros H; [reflexivity|].
  apply orb_false_iff in H. destruct H as [Hx H].
  rewrite Hx, (IH H). reflexivity.
Qed.

Lemma rfind_absent (c : ascii) :
  forall s, contains c s = false -> rfind c s = (-1)%Z.
Proof.
  induction s as [|x s IH]; simpl; intros H; [reflexivity|].
  apply orb_false_iff in H. destruct H as [Hx H].
  rewrite Hx, (IH H). reflexivity.
Qed.

Lemma find_app (c : ascii) (rest : string) :
  forall pre, contains c pre = false ->
    find c (pre ++ String c rest)%string = Z.of_nat (String.length pre).
Proof.
  induction pre as [|x pre IH]; intros H.
  - simpl. rewrite Ascii.eqb_refl. reflexivity.
  - simpl in H. apply orb_false_iff in H. destruct H as [Hx H].
    change (find c (String x pre ++ String c rest)%string)
      with (if Ascii.eqb x c then 0%Z
            else let i := find c (pre ++ String c rest)%string in
                 if (i <? 0)%Z then (-1)%Z else (i + 1)%Z).
    rewrite Hx, (IH H). cbv zeta.
    destruct (Z.ltb_spec (Z.of_nat (String.length pre)) 0); [lia|].
    simpl String.length. lia.
Qed.

Lemma rfind_app (c : ascii) (post : string) :
  contains c post = false ->
  forall a, rfind c (a ++ String c post)%string = Z.of_nat (String.length a).
Proof.
  intros H. induction a as [|x a IH].
  - simpl. rewrite (rfind_absent c post H). simpl.
    rewrite Ascii.eqb_refl. reflexivity.
  - change (rfind c (String x a ++ String c post)%string)
      with (let i := rfind c (a ++ String c post)%string in
            if (0 <=? i)%Z then (i + 1)%Z
            else if Ascii.eqb x c then 0%Z else (-1)%Z).
    rewrite IH. cbv zeta.
    destruct (Z.leb_spec 0 (Z.of_nat (String.length a))); [|lia].
    simpl String.length. lia.
Qed.

Lemma find_found (c : ascii) :
  forall s, (0 <= find c s)%Z ->
    exists pre rest, s = (pre ++ String c rest)%string /\ contains c pre = false.
Proof.
  induction s as [|x s IH]; simpl; intros H; [lia|].
  destruct (Ascii.eqb x c) eqn:Ex.
  - apply Ascii.eqb_eq in Ex. subst x. exists EmptyString, s. auto.
  - destruct (Z.ltb_spec (find c s) 0) as [Hn|Hn]; [lia|].
    destruct (IH Hn) as (pre & rest & Hs & Hp).
    exists (String x pre), rest. simpl. rewrite Ex, Hp, Hs. auto.
Qed.

Lemma rfind_found (c : ascii) :
  forall s, (0 <= rfind c s)%Z ->
    exists a post, s = (a ++ String c post)%string /\ contains c post = false.
Proof.
  induction s as [|x s IH]; simpl; intros H; [lia|].
  destruct (Z.leb_spec 0 (rfind c s)) as [Hn|Hn].
  - destruct (IH Hn) as (a & post & Hs & Hp).
    exists (String x a), post. simpl. rewrite Hs. auto.
  - destruct (Ascii.eqb x c) eqn:Ex; [|lia].
    apply Ascii.eqb_eq in Ex. subst x. exists EmptyString, s. split; [reflexivity|].
    clear IH H. induction s as [|y s IHs]; [reflexivity|].
    simpl in Hn. simpl.
    destruct (Z.leb_spec 0 (rfind c s)) as [Hm|Hm]; [lia|].
    destruct (Ascii.eqb y c); [lia|]. simpl. apply IHs. exact Hm.
Qed.

Lemma app_split (x y : ascii) (b b' : string) :
  forall a a' : string,
    (a ++ String x b = a' ++ String y b')%string ->
    (String.length a <= String.length a')%nat ->
    (a = a' /\ x = y /\ b = b') \/
    exists m, a' = (a ++ String x m)%string /\ b = (m ++ String y b')%string.
Proof.
  induction a as [|c a IH]; intros a' H Hl.
  - destruct a' as [|c' a']; simpl in H.
    + injection H as Hx Hb. left. auto.
    + injection H as Hx Hb. right. exists a'. subst. auto.
  - destruct a' as [|c' a']; simpl in Hl; [lia|].
    simpl in H. injection H as Hc H. subst c'.
    destruct (IH a' H) as [(Ha & Hx & Hb)|(m & Ha & Hb)]; [lia| |].
    + left. subst. auto.
    + right. exists m. subst. auto.
Qed.

Lemma substring_prefix (w post : string) :
  substring 0 (String.length w) (w ++ post)%string = w.
Proof.
  induction w as [|c w IH]; simpl.
  - destruct post; reflexivity.
  - rewrite IH. reflexivity.
Qed.

Lemma substring_middle (w post : string) :
  forall pre,
    substring (String.length pre) (String.length w) (pre ++ w ++ post)%string = w.
Proof.
  induction pre as [|c pre IH]; simpl.
  - apply substring_prefix.
  - exact IH.
Qed.

(** A window of the reply is what the slice of the two services takes. *)
Lemma json_window_slice (response w : string) :
  json_window response w ->
  let start := find "{" response in
  let end_ := (rfind "}" response + 1)%Z in
  ((0 <=? start)%Z && (start <? end_)%Z = true) /\
  slice response start end_ = w /\
  exists c rest, response = String c rest.
Proof.
  intros (pre & mid & post & Hr & Hw & Hpre & Hpost). cbv zeta.
  assert (Hf : find "{" response = Z.of_nat (String.length pre)).
  { rewrite Hr. apply (find_app "{" _ pre Hpre). }
  assert (Hl : rfind "}" response =
               Z.of_nat (String.length (pre ++ "{" ++ mid)%string)).
  { rewrite Hr.
    replace (pre ++ "{" ++ mid ++ "}" ++ post)%string
      with ((pre ++ "{" ++ mid) ++ String "}" post)%string.
    - apply (rfind_app "}" post Hpost).
    - rewrite string_app_assoc. reflexivity. }
  rewrite Hf, Hl. rewrite string_length_app. simpl String.length.
  split; [|split].
  - apply andb_true_iff. split; [apply Z.leb_le; lia|apply Z.ltb_lt; lia].
  - unfold slice.
    assert (Hn : String.length response =
                 (String.length pre + String.length w + String.length post)%nat).
    { rewrite Hr, Hw. repeat (rewrite string_length_app; simpl). lia. }
    assert (Hwl : String.length w = S (S (String.length mid))).
    { rewrite Hw. simpl. rewrite string_length_app. simpl. lia. }
    destruct (Z.ltb_spec (Z.of_nat (String.length pre)) 0) as [Hneg|_]; [lia|].
    destruct (Z.ltb_spec (Z.of_nat (String.length pre + S (String.length mid)) + 1) 0)
      as [Hneg|_]; [lia|].
    rewrite !Z.min_l by lia.
    replace (Z.to_nat (Z.of_nat (String.length pre))) with (String.length pre) by lia.
    replace (Z.to_nat (Z.of_nat (String.length pre + S (String.length mid)) + 1
                       - Z.of_nat (String.length pre)))
      with (String.length w) by lia.
    replace response with (pre ++ w ++ post)%string.
    + apply substring_middle.
    + rewrite Hr, Hw. simpl. rewrite string_app_assoc. reflexivity.
  - rewrite Hr. destruct pre; simpl; eauto.
Qed.

(** When the test of the two services passes, the slice is a window. *)
Lemma slice_json_window (response : string) :
  let start := find "{" response in
  let end_ := (rfind "}" response + 1)%Z in
  (0 <=? start)%Z && (start <? end_)%Z = true ->
  json_window response (slice response start end_).
Proof.
  cbv zeta. intros H. apply andb_true_iff in H. destruct H as [H0 H1].
  apply Z.leb_le in H0. apply Z.ltb_lt in H1.
  destruct (find_found "{" response H0) as (pre & rest & Hr & Hpre).
  assert (Hf : find "{" response = Z.of_nat (String.length pre)).
  { rewrite Hr at 1. apply (find_app "{" _ pre Hpre). }
  assert (H2 : (0 <= rfind "}" response)%Z) by lia.
  destruct (rfind_found "}" response H2) as (a & post & Hr' & Hpost).
  assert (Hl : rfind "}" response = Z.of_nat (String.length a)).
  { rewrite Hr' at 1. apply (rfind_app "}" post Hpost). }
  assert (Hle : (String.length pre <= String.length a)%nat) by lia.
  assert (He : (pre ++ String "{" rest = a ++ String "}" post)%string)
    by (rewrite <- Hr; exact Hr').
  destruct (app_split "{" "}" rest post pre a He Hle)
    as [(_ & Hx & _)|(mid & Ha & Hrest)]; [discriminate|].
  assert (W : json_window response ("{" ++ mid ++ "}")%string).
  { exists pre, mid, post. split; [|auto].
    rewrite Hr, Hrest. reflexivity. }
  destruct (json_window_slice response _ W) as (_ & Hs & _).
  cbv zeta in Hs. rewrite Hs. exact W.
Qed.

(** The shared end of [name_cluster] and [process_nl_query]: what they make
    of the reply. *)
Lemma reply_cases (json_loads : string -> option json)
      (response : option string) (fallback : json) :
  let answer :=
    match response with
    | Some (String _ _ as response) =>
        let start := find "{" response in
        let end_ := (rfind "}" response + 1)%Z in
        if (0 <=? start)%Z && (start <? end_)%Z then
          match json_loads (slice response start end_) with
          | Some result => result
          | None => fallback
          end
        else fallback
    | _ => fallback
    end in
  (response = None -> answer = fallback) /\
  (forall reply, response = Some reply ->
     (forall w, json_window reply w -> answer = parsed_or json_loads fallback w) /\
     ((forall w, ~ json_window reply w) -> answer = fallback)) /\
  (answer = fallback \/
   exists reply w,
     response = Some reply /\ json_window reply w /\ json_loads w = Some answer).
Proof.
  cbv zeta. destruct response as [[|c rest]|].
  - split; [reflexivity|]. split; [|left; reflexivity].
    intros reply E. injection E as E. subst reply. split; [|reflexivity].
    intros w W. destruct (json_window_slice _ _ W) as (_ & _ & c & rest & H).
    discriminate.
  - set (reply := String c rest).
    destruct ((0 <=? find "{" reply)%Z && (find "{" reply <? rfind "}" reply + 1)%Z)
      eqn:Ec.
    + pose proof (slice_json_window reply Ec) as W. cbv zeta in W.
      split; [discriminate|]. split.
      * intros reply' E. injection E as E. subst reply'. split.
        -- intros w Ww. destruct (json_window_slice _ _ Ww) as (_ & Hs & _).
           cbv zeta in Hs. rewrite Hs. reflexivity.
        -- intros Hn. exfalso. exact (Hn _ W).
      * destruct (json_loads (slice reply (find "{" reply) (rfind "}" reply + 1)))
          as [j|] eqn:Ej; [|left; reflexivity].
        right. exists reply, (slice reply (find "{" reply) (rfind "}" reply + 1)).
        auto.
    + split; [discriminate|]. split; [|left; reflexivity].
      intros reply' E. injection E as E. subst reply'. split; [|reflexivity].
      intros w Ww. destruct (json_window_slice _ _ Ww) as (Ht & _).
      cbv zeta in Ht. rewrite Ht in Ec. discriminate.
  - split; [reflexivity|]. split; [discriminate|]. left. reflexivity.
Qed.

Lemma invoke_claude_cases (invoke_model : string -> ClaudeService.request_body -> option string)
      (self : ClaudeService.t) (system_prompt user_prompt : string)
      (max_tokens : Z) (temperature : Q) :
  (ClaudeService.bedrock_runtime self = false /\
   ClaudeService._invoke_claude invoke_model self system_prompt user_prompt
                                max_tokens temperature = None) \/
  (ClaudeService.bedrock_runtime self = true /\
   exists request,
     ClaudeService._invoke_claude invoke_model self system_prompt user_prompt
                                  max_tokens temperature
     = invoke_model (ClaudeService.model_id self) request).
Proof.
  unfold ClaudeService._invoke_claude.
  destruct (ClaudeService.bedrock_runtime self); simpl; [right|left]; eauto.
Qed.

Section Replies.

Variable invoke_model : string -> ClaudeService.request_body -> option string.
Variable json_loads : string -> option json.
Variable json_dumps : json -> string.
Variable format_2f : Q -> string.

Local Abbreviation name_cluster :=
  (ClaudeService.name_cluster invoke_model json_loads json_dumps format_2f).
Local Abbreviation process_nl_query :=
  (ClaudeService.process_nl_query invoke_model json_loads).

(** What the model said: some reply of the client of [self] whose window
    parses to [answer]. *)
Local Abbreviation from_reply self answer :=
  (ClaudeService.bedrock_runtime self = true /\
   exists request reply w,
     invoke_model (ClaudeService.model_id self) request = Some reply /\
     json_window reply w /\ json_loads w = Some answer).

Lemma answer_sound (self : ClaudeService.t) (fallback : json)
      (system_prompt user_prompt : string) (max_tokens : Z) (temperature : Q)
      (answer : json) :
  (answer = fallback \/
   exists reply w,
     ClaudeService._invoke_claude invoke_model self system_prompt user_prompt
                                  max_tokens temperature = Some reply /\
     json_window reply w /\ json_loads w = Some answer) ->
  answer = fallback \/ from_reply self answer.
Proof.
  intros [H|(reply & w & Hr & W & Hj)]; [left; exact H|].
  destruct (invoke_claude_cases invoke_model self system_prompt user_prompt
                                max_tokens temperature)
    as [(_ & Hn)|(Hb & request & Hq)].
  - rewrite Hn in Hr. discriminate.
  - right. split; [exact Hb|]. exists request, reply, w.
    rewrite <- Hq. auto.
Qed.

(** [name_cluster] and [process_nl_query] never raise, and each returns
    either its fallback (the label made of the first three object names;
    the cues with no objects, no colours and the query as context) or what
    [json.loads] makes of the text between the first opening and the last
    closing brace of a reply of the Bedrock client; without a client only
    the fallback. *)
Theorem claude_answers_fallback_or_window
        (self : ClaudeService.t)
        (top_objects : list ClaudeService.detected_object)
        (color_profile : option string) (sample_captions : option (list string))
        (query : string) :
  (name_cluster self top_objects color_profile sample_captions
     = label_fallback top_objects \/
   from_reply self (name_cluster self top_objects color_profile sample_captions)) /\
  (process_nl_query self query = cues_fallback query \/
   from_reply self (process_nl_query self query)) /\
  (ClaudeService.bedrock_runtime self = false ->
   name_cluster self top_objects color_profile sample_captions
     = label_fallback top_objects /\
   process_nl_query self query = cues_fallback query).
Proof.
  assert (A : name_cluster self top_objects color_profile sample_captions
                = label_fallback top_objects \/
              from_reply self
                (name_cluster self top_objects color_profile sample_captions)).
  { unfold ClaudeService.name_cluster. cbv zeta.
    eapply answer_sound. apply reply_cases. }
  assert (B : process_nl_query self query = cues_fallback query \/
              from_reply self (process_nl_query self query)).
  { unfold ClaudeService.process_nl_query. cbv zeta.
    eapply answer_sound. apply reply_cases. }
  split; [exact A|]. split; [exact B|].
  intros Hf. split.
  - destruct A as [A|[A _]]; [exact A|]. rewrite A in Hf. discriminate.
  - destruct B as [B|[B _]]; [exact B|]. rewrite B in Hf. discriminate.
Qed.

(** When the Bedrock client gives the same reply to every request:
    if the reply has an opening brace with a closing brace after it,
    [name_cluster] and [process_nl_query] return what [json.loads] makes of
    the text from the first opening to the last closing brace, or their
    fallback when it does not parse; if the reply has no such pair of
    braces they return their fallback. *)
Theorem claude_answers_for_reply
        (self : ClaudeService.t)
        (top_objects : list ClaudeService.detected_object)
        (color_profile : option string) (sample_captions : option (list string))
        (query reply : string) :
  ClaudeService.bedrock_runtime self = true ->
  (forall request,
      invoke_model (ClaudeService.model_id self) request = Some reply) ->
  (forall w, json_window reply w ->
     name_cluster self top_objects color_profile sample_captions
       = parsed_or json_loads (label_fallback top_objects) w /\
     process_nl_query self query
       = parsed_or json_loads (cues_fallback query) w) /\
  ((forall w, ~ json_window reply w) ->
   name_cluster self top_objects color_profile sample_captions
     = label_fallback top_objects /\
   process_nl_query self query = cues_fallback query).
Proof.
  intros Hb Hm.
  assert (I : forall system_prompt user_prompt max_tokens temperature,
             ClaudeService._invoke_claude invoke_model self system_prompt
                                          user_prompt max_tokens temperature
             = Some reply).
  { intros. unfold ClaudeService._invoke_claude. rewrite Hb. simpl. apply Hm. }
  split.
  - intros w W. split.
    + unfold ClaudeService.name_cluster. cbv zeta.
      eapply reply_cases; [apply I|exact W].
    + unfold ClaudeService.process_nl_query. cbv zeta.
      eapply reply_cases; [apply I|exact W].
  - intros Hn. split.
    + unfold ClaudeService.name_cluster. cbv zeta.
      eapply reply_cases; [apply I|exact Hn].
    + unfold ClaudeService.process_nl_query. cbv zeta.
      eapply reply_cases; [apply I|exact Hn].
Qed.

End Replies.

Lemma claude_answers_for_reply_witness :
  (forall w, json_window Samples.reply w ->
     ClaudeService.name_cluster Samples.bedrock Samples.parse Samples.dumps
                                Samples.two_decimals Samples.claude
                                [ClaudeService.mkObject "desk" (4 # 5)] None None
       = parsed_or Samples.parse
                   (label_fallback [ClaudeService.mkObject "desk" (4 # 5)]) w /\
     ClaudeService.process_nl_query Samples.bedrock Samples.parse Samples.claude
                                    "cozy desk"
       = parsed_or Samples.parse (cues_fallback "cozy desk") w) /\
  ((forall w, ~ json_window Samples.reply w) ->
   ClaudeService.name_cluster Samples.bedrock Samples.parse Samples.dumps
                              Samples.two_decimals Samples.claude
                              [ClaudeService.mkObject "desk" (4 # 5)] None None
     = label_fallback [ClaudeService.mkObject "desk" (4 # 5)] /\
   ClaudeService.process_nl_query Samples.bedrock Samples.parse Samples.claude
                                  "cozy desk"
     = cues_fallback "cozy desk").
Proof.
  apply (claude_answers_for_reply Samples.bedrock Samples.parse Samples.dumps
           Samples.two_decimals Samples.claude
           [ClaudeService.mkObject "desk" (4 # 5)] None None
           "cozy desk" Samples.reply).
  - reflexivity.
  - intros request. reflexivity.
Defined.
